(** * Water-management analytics: parsers, rollups, breach events, anomalies

    A shallow embedding of [src/parsers.py], [src/analytics.py] and
    [src/src/alerts.py].

    Conventions of the embedding.
    - A pandas float cell is a [float]: either [NaN] (pandas' missing value
      in a float64 column) or a finite number, kept as an exact rational.
      Rounding error, overflow and infinities of binary64 are not
      represented; every comparison with [NaN] is false, as in IEEE 754.
      A cell of an integer column is the [Fin] of an integer; a [dtype]
      tells float64, int64 and uint64 columns apart where the arithmetic
      of the code depends on it, which is in [diff]: NumPy subtracts
      integers of 64 bits with wrap-around.
    - A time stamp is an integer number of nanoseconds since the epoch
      (UTC), the representation pandas uses.  The embedding covers the
      instants since 15 October 1945, from when on [Asia/Kolkata] is
      UTC+05:30 throughout.
    - Text is an ASCII [string]; [strip], [lower] and the regular expression
      classes are the ASCII fragments of Python's.
    - [pd.to_datetime], [pd.to_numeric], the builtin [float] and
      [Series.corr] are library code: the functions that call them take them
      as parameters, so every theorem holds for whatever they compute.  So
      are the dtype [pd.to_numeric] gives a column and the dtype
      [pd.concat] gives the concatenation of columns.
    - A raw table is what [pd.read_csv(path, dtype=str).fillna("")] hands
      over: a number of columns and rows of text cells.  Selecting a column
      the table does not have raises [IndexError].
    - The analytics functions are embedded on the rows of frames whose
      columns are float64, bool or datetime columns, where a null bound is
      the [NaN] of a float64 column.  A frame also records which of its
      columns have dtype [object] for want of data; [Module OnFrame] has
      the functions on frames as the parsers return them, with the errors
      the accessors and comparisons of pandas raise on such columns.
    - Python's [is] is object identity.  A cell taken out of a boolean
      column with [.iloc] is a NumPy scalar, an object distinct from the
      Python singletons [True] and [False]. *)

From Stdlib Require Import List Bool Arith ZArith QArith Qabs Qround Lia.
From Stdlib Require Import Ascii String Sorted Permutation.
Import ListNotations.

Close Scope Q_scope.
Local Open Scope nat_scope.
Local Open Scope list_scope.

(** ** Floats with a missing value *)

Inductive float : Type :=
| NaN
| Fin (q : Q).

Definition isna (x : float) : bool :=
  match x with NaN => true | Fin _ => false end.

Definition notna (x : float) : bool := negb (isna x).

Definition fadd (x y : float) : float :=
  match x, y with Fin a, Fin b => Fin (a + b)%Q | _, _ => NaN end.

Definition fsub (x y : float) : float :=
  match x, y with Fin a, Fin b => Fin (a - b)%Q | _, _ => NaN end.

Definition fmul (x y : float) : float :=
  match x, y with Fin a, Fin b => Fin (a * b)%Q | _, _ => NaN end.

(** No division by zero occurs in the code embedded here (divisors are the
    literals 2 and 60 and positive counts); it is sent to [NaN]. *)
Definition fdiv (x y : float) : float :=
  match x, y with
  | Fin a, Fin b => if Qeq_bool b 0%Q then NaN else Fin (a / b)%Q
  | _, _ => NaN
  end.

Definition fabs (x : float) : float :=
  match x with Fin a => Fin (Qabs a) | NaN => NaN end.

Definition Qlt_bool (a b : Q) : bool := negb (Qle_bool b a).

Definition fle (x y : float) : bool :=
  match x, y with Fin a, Fin b => Qle_bool a b | _, _ => false end.

Definition flt (x y : float) : bool :=
  match x, y with Fin a, Fin b => Qlt_bool a b | _, _ => false end.

Definition fge (x y : float) : bool := fle y x.
Definition fgt (x y : float) : bool := flt y x.

Definition feqb (x y : float) : bool :=
  match x, y with Fin a, Fin b => Qeq_bool a b | _, _ => false end.

Definition of_Z (z : Z) : float := Fin (inject_Z z).
Definition of_nat (n : nat) : float := of_Z (Z.of_nat n).

(** [None] stored in a float column of a DataFrame becomes [NaN]. *)
Definition of_option (o : option float) : float :=
  match o with Some x => x | None => NaN end.

(** ** Generic list helpers: stable sort, first-occurrence dedup, slices *)

Section ListHelpers.
Context {A : Type}.

Fixpoint insert_by (leb : A -> A -> bool) (x : A) (l : list A) : list A :=
  match l with
  | [] => [x]
  | y :: ys => if leb x y then x :: l else y :: insert_by leb x ys
  end.

(** Stable: an element is inserted before the first strictly greater one
    of the already sorted suffix. *)
Fixpoint sort_by (leb : A -> A -> bool) (l : list A) : list A :=
  match l with
  | [] => []
  | x :: xs => insert_by leb x (sort_by leb xs)
  end.

(** [iloc[start:end]] for [0 <= start]. *)
Definition slice (start stop : nat) (l : list A) : list A :=
  firstn (stop - start) (skipn start l).

Fixpoint drop_duplicates_aux (key : A -> Z) (seen : list Z) (l : list A)
  : list A :=
  match l with
  | [] => []
  | x :: xs =>
      if existsb (Z.eqb (key x)) seen
      then drop_duplicates_aux key seen xs
      else x :: drop_duplicates_aux key (key x :: seen) xs
  end.

(** [drop_duplicates(subset=[key])]: the first row of each key stays. *)
Definition drop_duplicates (key : A -> Z) (l : list A) : list A :=
  drop_duplicates_aux key [] l.
End ListHelpers.

(** ** Text helpers (ASCII fragments of the Python string methods) *)


(** [str.isspace] on ASCII: TAB, LF, VT, FF, CR, FS, GS, RS, US and space. *)
Definition is_space (c : ascii) : bool :=
  let n := nat_of_ascii c in
  ((9 <=? n) && (n <=? 13)) || ((28 <=? n) && (n <=? 32)).

Definition is_digit (c : ascii) : bool :=
  let n := nat_of_ascii c in (48 <=? n) && (n <=? 57).

Definition lower_char (c : ascii) : ascii :=
  let n := nat_of_ascii c in
  if (65 <=? n) && (n <=? 90) then ascii_of_nat (n + 32) else c.

Fixpoint lower (s : string) : string :=
  match s with
  | EmptyString => EmptyString
  | String c s' => String (lower_char c) (lower s')
  end.

Fixpoint lstrip (s : string) : string :=
  match s with
  | EmptyString => EmptyString
  | String c s' => if is_space c then lstrip s' else s
  end.

Fixpoint rstrip (s : string) : string :=
  match s with
  | EmptyString => EmptyString
  | String c s' =>
      match rstrip s' with
      | EmptyString => if is_space c then EmptyString else String c EmptyString
      | t => String c t
      end
  end.

Definition strip (s : string) : string := rstrip (lstrip s).

Fixpoint contains (needle s : string) : bool :=
  prefix needle s ||
  match s with
  | EmptyString => false
  | String _ s' => contains needle s'
  end.

(** [s.replace(",", "")] *)
Fixpoint remove_commas (s : string) : string :=
  match s with
  | EmptyString => EmptyString
  | String c s' =>
      if Ascii.eqb c "," then remove_commas s' else String c (remove_commas s')
  end.

(** [text.split("to")]: the pieces between successive occurrences of the
    two-character separator, scanning from the left. *)
Fixpoint split_to_aux (acc : string) (s : string) : list string :=
  match s with
  | EmptyString => [acc]
  | String c s' =>
      match s' with
      | String d s'' =>
          if Ascii.eqb c "t" && Ascii.eqb d "o"
          then acc :: split_to_aux EmptyString s''
          else split_to_aux (acc ++ String c EmptyString)%string s'
      | EmptyString => [(acc ++ String c EmptyString)%string]
      end
  end.

Definition split_to (s : string) : list string := split_to_aux EmptyString s.

(** ** The regular expression [PARAM_RE]

    A pattern is a sequence of character classes, each under a quantifier
    and possibly captured.  This is all [PARAM_RE] uses.  Matching is the
    backtracking search of Python's [re]: a greedy quantifier tries the
    longest repetition first, a lazy one the shortest, and the first
    complete match wins.  [re.match] anchors the pattern at the start; the
    pattern ends in [$]. *)

Inductive quant : Type :=
| One      (* x   *)
| StarG    (* x*  *)
| PlusG    (* x+  *)
| PlusL.   (* x+? *)

Record tok : Type := Tok {
  tok_class : ascii -> bool;
  tok_quant : quant;
  tok_group : bool
}.

Definition snoc (s : string) (c : ascii) : string :=
  (s ++ String c EmptyString)%string.

Section Repetition.
Context {R : Type}.
Variable p : ascii -> bool.
Variable k : string -> string -> option R.

Fixpoint greedy (acc s : string) : option R :=
  match s with
  | String c s' =>
      if p c then
        match greedy (snoc acc c) s' with
        | Some r => Some r
        | None => k acc s
        end
      else k acc s
  | EmptyString => k acc s
  end.

Fixpoint lazy (acc s : string) : option R :=
  match k acc s with
  | Some r => Some r
  | None =>
      match s with
      | String c s' => if p c then lazy (snoc acc c) s' else None
      | EmptyString => None
      end
  end.
End Repetition.

(** [$] without [re.M]: the end of the text, or just before a final LF. *)
Definition at_end (s : string) : bool :=
  match s with
  | EmptyString => true
  | String c EmptyString => Ascii.eqb c "010"
  | _ => false
  end.

Fixpoint re_run (toks : list tok) (s : string) : option (list string) :=
  match toks with
  | [] => if at_end s then Some [] else None
  | t :: rest =>
      let k := fun (cap s' : string) =>
        match re_run rest s' with
        | Some caps => Some (if tok_group t then cap :: caps else caps)
        | None => None
        end in
      match tok_quant t with
      | One =>
          match s with
          | String c s' =>
              if tok_class t c then k (String c EmptyString) s' else None
          | EmptyString => None
          end
      | StarG => greedy (tok_class t) k EmptyString s
      | PlusG =>
          match s with
          | String c s' =>
              if tok_class t c
              then greedy (tok_class t) k (String c EmptyString) s'
              else None
          | EmptyString => None
          end
      | PlusL =>
          match s with
          | String c s' =>
              if tok_class t c
              then lazy (tok_class t) k (String c EmptyString) s'
              else None
          | EmptyString => None
          end
      end
  end.

Definition ws_star : tok := Tok is_space StarG false.

(** A literal character under [re.I]. *)
Definition lit_char (c : ascii) : tok :=
  Tok (fun a => Ascii.eqb (lower_char a) (lower_char c)) One false.

Fixpoint lit (s : string) : list tok :=
  match s with
  | EmptyString => []
  | String c s' => lit_char c :: lit s'
  end.

(** [.] matches everything but LF. *)
Definition any_char (c : ascii) : bool := negb (Ascii.eqb c "010").
Definition not_rparen (c : ascii) : bool := negb (Ascii.eqb c ")").

(** [^\s*\d+\.\s*(.+?)\s*,\s*Safe Range:\s*\(([^)]+)\)\s*$], [re.I] *)
Definition PARAM_RE : list tok :=
  [ws_star; Tok is_digit PlusG false] ++ lit "." ++
  [ws_star; Tok any_char PlusL true; ws_star] ++ lit "," ++
  [ws_star] ++ lit "Safe Range:" ++
  [ws_star] ++ lit "(" ++ [Tok not_rparen PlusG true] ++ lit ")" ++
  [ws_star].

(** [PARAM_RE.match(text)]: groups 1 and 2 of the match, if any. *)
Definition PARAM_RE_match (text : string) : option (string * string) :=
  match re_run PARAM_RE text with
  | Some [g1; g2] => Some (g1, g2)
  | _ => None
  end.

(** ** Data model *)

Inductive exn : Type := IndexError | ValueError | AttributeError | TypeError.

Inductive result (A : Type) : Type :=
| Ok (a : A)
| Raise (e : exn).
Arguments Ok {A} a.
Arguments Raise {A} e.

(** A DataFrame: its column names, its rows, and the columns that have
    dtype [object] for want of data: every column of a frame built without
    data, and a column all of whose cells are [None].  (Columns of text and
    of dates are not listed.)  The other columns are datetime, float64,
    integer or bool columns.  Where a listed column has cells they are
    [None]; the row record shows [NaN] in their place. *)
Record Frame (A : Type) : Type := mkFrame {
  columns : list string;
  object_columns : list string;
  rows : list A
}.
Arguments mkFrame {A} columns object_columns rows.
Arguments columns {A} f.
Arguments object_columns {A} f.
Arguments rows {A} f.

(** [pd.DataFrame(columns=cols)]: no row, every column of dtype [object]. *)
Definition no_data {A : Type} (cols : list string) : Frame A :=
  mkFrame cols cols [].

(** The dtype [pd.to_numeric] gives a column of numbers. *)
Inductive dtype : Type := float64 | int64 | uint64.

(** The table read from the CSV file, every cell a text. *)
Record RawTable : Type := mkRaw {
  ncols : nat;
  raw_rows : list (list string)
}.

Record FlowReading : Type := mkFlow {
  timestamp : Z;
  totalizer : float;
  consumption : float
}.

Record QualityReading : Type := mkQuality {
  q_timestamp : Z;
  parameter : string;
  value : float;
  safe_min : float;
  safe_max : float
}.

(** [TZ = "Asia/Kolkata"]: UTC+05:30 at every instant since 15 October
    1945, with no daylight saving since.  For the wall times of that
    period none is ambiguous or missing, so that localisation only
    subtracts the offset.  [NaT] stays [NaT]. *)
Definition TZ_offset : Z := 19800 * 1000000000.

Definition tz_localize (naive : option Z) : option Z :=
  match naive with
  | Some t => Some (t - TZ_offset)%Z
  | None => None
  end.

Definition cell (r : list string) (j : nat) : string := nth j r EmptyString.

Definition flow_columns : list string :=
  ["timestamp"; "totalizer"; "consumption"]%string.

Definition quality_columns : list string :=
  ["timestamp"; "parameter"; "value"; "safe_min"; "safe_max"]%string.

(** ** [src/parsers.py] *)

Definition ts_leb (a b : Z * float) : bool := (fst a <=? fst b)%Z.

(** The 64-bit integers: unsigned, and signed in two's complement. *)
Definition wrap_uint64 (z : Z) : Z := (z mod 2 ^ 64)%Z.
Definition wrap_int64 (z : Z) : Z := ((z + 2 ^ 63) mod 2 ^ 64 - 2 ^ 63)%Z.

(** One difference [x - prev] of [Series.diff()].  On a float column it is
    the difference of the two floats.  On an integer column the cells are
    integers and the subtraction is that of the column's dtype, with its
    wrap-around; the result is then stored as a float. *)
Definition diff_cell (dt : dtype) (x prev : float) : float :=
  match dt with
  | float64 => fsub x prev
  | int64 =>
      match x, prev with
      | Fin a, Fin b => Fin (inject_Z (wrap_int64 (Qfloor a - Qfloor b)))
      | _, _ => NaN
      end
  | uint64 =>
      match x, prev with
      | Fin a, Fin b => Fin (inject_Z (wrap_uint64 (Qfloor a - Qfloor b)))
      | _, _ => NaN
      end
  end.

(** [df["totalizer"].diff()] on a column of dtype [dt] *)
Fixpoint diff_from (dt : dtype) (prev : float) (l : list float) : list float :=
  match l with
  | [] => []
  | x :: xs => diff_cell dt x prev :: diff_from dt x xs
  end.

Definition diff (dt : dtype) (l : list float) : list float :=
  match l with
  | [] => []
  | x :: xs => NaN :: diff_from dt x xs
  end.

(** [df.loc[df["consumption"] < 0, "consumption"] = 0.0] *)
Definition clamp_negative (c : float) : float :=
  if flt c (Fin 0) then Fin 0 else c.

(** [fillna(0.0)] *)
Definition fillna0 (c : float) : float :=
  if isna c then Fin 0 else c.

Definition add_consumption (dt : dtype) (df : list (Z * float))
  : list FlowReading :=
  let cons := map fillna0 (map clamp_negative (diff dt (map snd df))) in
  map (fun rc => mkFlow (fst (fst rc)) (snd (fst rc)) (snd rc))
      (combine df cons).

Definition is_header (r : list string) : bool :=
  String.eqb (lower (strip (cell r 0))) "date" &&
  String.eqb (lower (strip (cell r 1))) "time" &&
  contains "totalizer" (lower (strip (cell r 2))).

(** [list(raw[is_header].index)] *)
Fixpoint header_positions (i : nat) (rs : list (list string)) : list nat :=
  match rs with
  | [] => []
  | r :: rs' =>
      if is_header r then i :: header_positions (S i) rs'
      else header_positions (S i) rs'
  end.

Definition header_idxs (raw : RawTable) : list nat :=
  header_positions 0 (raw_rows raw) ++ [List.length (raw_rows raw)].

Definition has_all_fields (r : list string) : bool :=
  negb (String.eqb (strip (cell r 0)) "") &&
  negb (String.eqb (strip (cell r 1)) "") &&
  negb (String.eqb (strip (cell r 2)) "").

Definition drop_missing (r : option Z * float) : list (Z * float) :=
  match r with
  | (Some t, Fin q) => [(t, Fin q)]
  | _ => []
  end.

(** The order of [sort_values(["parameter", "timestamp"])]. *)
Definition quality_leb (a b : QualityReading) : bool :=
  match String.compare (parameter a) (parameter b) with
  | Lt => true
  | Eq => (q_timestamp a <=? q_timestamp b)%Z
  | Gt => false
  end.

Section Parsers.
(** [pd.to_datetime(text, dayfirst=True, errors="coerce")] of one text: the
    naive wall time in nanoseconds, [None] for [NaT]. *)
Variable to_datetime : string -> option Z.
(** The same call on a whole column.  pandas may settle on one format for
    the column, so the result for a cell is not assumed to be that of the
    cell alone. *)
Variable to_datetime_series : list string -> list (option Z).
(** [pd.to_numeric(text, errors="coerce")]: [NaN] when the text is no
    number. *)
Variable to_numeric : string -> float.
(** The builtin [float(text)]: [None] when it raises. *)
Variable py_float : string -> option float.
(** The dtype [pd.to_numeric(column, errors="coerce")] settles on for a
    column of texts: int64 or uint64 when every text is an integer,
    float64 otherwise. *)
Variable to_numeric_dtype : list string -> dtype.
(** The dtype of the totalizer column of [pd.concat(blocks)], given the
    dtype and the rows of every block: the blocks' own dtype when they
    agree, and pandas' common dtype otherwise. *)
Variable concat_dtype : list (dtype * list (Z * float)) -> dtype.

(** The body of the loop over header blocks, for one block of raw rows. *)
Definition parse_block (block : list (list string)) : list (Z * float) :=
  let kept := filter has_all_fields block in
  let ts :=
    map tz_localize
        (to_datetime_series
           (map (fun r => (strip (cell r 0) ++ " " ++ strip (cell r 1))%string)
                kept)) in
  let tot := map (fun r => to_numeric (remove_commas (cell r 2))) kept in
  sort_by ts_leb (flat_map drop_missing (combine ts tot)).

(** The dtype of the totalizer column of a block, as [pd.to_numeric]
    leaves it. *)
Definition block_dtype (block : list (list string)) : dtype :=
  to_numeric_dtype
    (map (fun r => remove_commas (cell r 2)) (filter has_all_fields block)).

(** The loop [for i in range(len(header_idxs) - 1)]: every block with the
    dtype of its totalizer column. *)
Fixpoint collect_blocks (idxs : list nat) (rs : list (list string))
  : list (dtype * list (Z * float)) :=
  match idxs with
  | a :: tl =>
      match tl with
      | b :: _ =>
          let start := S a in
          if b <=? start then collect_blocks tl rs
          else
            let block := slice start b rs in
            (block_dtype block, parse_block block) :: collect_blocks tl rs
      | [] => []
      end
  | [] => []
  end.

Definition load_flow_csv (raw : RawTable) : result (Frame FlowReading) :=
  (* raw.iloc[:, 2] *)
  if ncols raw <? 3 then Raise IndexError
  else
    let blocks := collect_blocks (header_idxs raw) (raw_rows raw) in
    match blocks with
    | [] => Ok (no_data flow_columns)
    | _ =>
        let df :=
          sort_by ts_leb
                  (drop_duplicates fst (List.concat (map snd blocks))) in
        Ok (mkFrame flow_columns []
                    (add_consumption (concat_dtype blocks) df))
    end.

Definition parse_safe_range (text : string)
  : option float * option float :=
  match split_to text with
  | [a; b] =>
      match py_float (strip a), py_float (strip b) with
      | Some x, Some y => (Some x, Some y)
      | _, _ => (None, None)
      end
  | _ => (None, None)
  end.

(** One dictionary appended to [out]. *)
Record OutRow : Type := mkOut {
  o_timestamp : option Z;
  o_parameter : string;
  o_value : float;
  o_safe_min : option float;
  o_safe_max : option float
}.

(** The variables the scan of [load_quality_csv] carries from row to
    row. *)
Record Scan : Type := mkScan {
  current_param : option string;
  cur_safe_min : option float;
  cur_safe_max : option float;
  in_table : bool;
  out : list OutRow
}.

Definition scan_init : Scan := mkScan None None None false [].

(** Truth value of [current_param]: [None] and [""] are false. *)
Definition active (st : Scan) : bool :=
  match current_param st with
  | Some p => negb (String.eqb p "")
  | None => false
  end.

Definition nonempty_cells (r : list string) : list string :=
  filter (fun c => negb (String.eqb c "")) (map strip r).

(** The body of [for r in rows]. *)
Definition scan_row (st : Scan) (r : list string) : Scan :=
  let cells := nonempty_cells r in
  match cells with
  | [] => st
  | c0 :: _ =>
      match PARAM_RE_match c0 with
      | Some (g1, g2) =>
          let '(lo, hi) := parse_safe_range (strip g2) in
          mkScan (Some (strip g1)) lo hi false (out st)
      | None =>
          if active st && (3 <=? List.length cells) &&
             String.eqb (lower (cell cells 0)) "date" &&
             String.eqb (lower (cell cells 1)) "time"
          then mkScan (current_param st) (cur_safe_min st)
                      (cur_safe_max st) true (out st)
          else if in_table st && active st then
            if List.length cells <? 3 then st
            else
              match
                to_datetime (cell cells 0 ++ " " ++ cell cells 1)%string
              with
              | None => st
              | Some t =>
                  let row :=
                    mkOut (tz_localize (Some t))
                          (match current_param st with
                           | Some p => p
                           | None => EmptyString
                           end)
                          (to_numeric (remove_commas (cell cells 2)))
                          (cur_safe_min st) (cur_safe_max st) in
                  mkScan (current_param st) (cur_safe_min st)
                         (cur_safe_max st) (in_table st) (out st ++ [row])
              end
          else st
      end
  end.

Definition scan (rs : list (list string)) : Scan :=
  fold_left scan_row rs scan_init.

(** Whether column [f] of [pd.DataFrame(out)] holds [None] in every row:
    pandas then gives it dtype [object] and keeps the [None]s; as soon as
    one row holds a number the column is a float64 column, in which [None]
    has become [NaN]. *)
Definition all_none (f : OutRow -> option float) (o : list OutRow) : bool :=
  forallb (fun r => match f r with None => true | Some _ => false end) o.

Definition null_bound_columns (o : list OutRow) : list string :=
  ((if all_none o_safe_min o then ["safe_min"%string] else []) ++
   (if all_none o_safe_max o then ["safe_max"%string] else []))%list.

(** A row of [pd.DataFrame(out).dropna(subset=["timestamp"])].  A bound
    that is [None] in [out] is [NaN] in a float64 column; in an object
    column, which [null_bound_columns] lists, the cell is [None] and the
    [NaN] of the record stands for it. *)
Definition to_reading (o : OutRow) : list QualityReading :=
  match o_timestamp o with
  | Some t =>
      [mkQuality t (o_parameter o) (o_value o)
                 (of_option (o_safe_min o)) (of_option (o_safe_max o))]
  | None => []
  end.

Definition load_quality_csv (raw : RawTable) : Frame QualityReading :=
  match out (scan (raw_rows raw)) with
  | [] => no_data quality_columns
  | o =>
      mkFrame quality_columns (null_bound_columns o)
              (sort_by quality_leb (flat_map to_reading o))
  end.
End Parsers.

(** ** Grouping and reductions *)

Section GroupBy.
Context {A K : Type}.
Variable cmp : K -> K -> comparison.
Variable key : A -> K.

Fixpoint insert_key (k : K) (ks : list K) : list K :=
  match ks with
  | [] => [k]
  | k' :: t =>
      match cmp k k' with
      | Lt => k :: ks
      | Eq => ks
      | Gt => k' :: insert_key k t
      end
  end.

(** The distinct keys, ascending. *)
Definition group_keys (l : list A) : list K :=
  fold_right (fun x acc => insert_key (key x) acc) [] l.

Definition same_key (k : K) (x : A) : bool :=
  match cmp (key x) k with Eq => true | _ => false end.

(** [df.groupby(key)]: one group per distinct key, keys ascending, the rows
    of a group in their order in [df]. *)
Definition groupby (l : list A) : list (K * list A) :=
  map (fun k => (k, filter (same_key k) l)) (group_keys l).
End GroupBy.

Definition observed (l : list float) : list float := filter notna l.

(** [Series.sum()], which skips missing values. *)
Definition fsum (l : list float) : float :=
  fold_left fadd (observed l) (Fin 0).

(** [Series.mean()]: the mean of the values present, [NaN] if none is. *)
Definition fmean (l : list float) : float :=
  match observed l with
  | [] => NaN
  | o => fdiv (fsum l) (of_nat (List.length o))
  end.

Definition fmin2 (x y : float) : float := if fle y x then y else x.
Definition fmax2 (x y : float) : float := if fle x y then y else x.

(** [Series.min()] and [Series.max()], skipping missing values. *)
Definition fmin (l : list float) : float :=
  match observed l with
  | [] => NaN
  | x :: xs => fold_left fmin2 xs x
  end.

Definition fmax (l : list float) : float :=
  match observed l with
  | [] => NaN
  | x :: xs => fold_left fmax2 xs x
  end.

(** [np.nanpercentile(s, 95)], linear interpolation between the two
    nearest ranks. *)
Definition nanpercentile95 (l : list float) : float :=
  let v := sort_by fle (observed l) in
  match v with
  | [] => NaN
  | _ =>
      let pos := (95 * Z.of_nat (List.length v - 1))%Z in
      let lo := Z.to_nat (pos / 100) in
      let frac := Fin (inject_Z (pos mod 100) / inject_Z 100)%Q in
      let a := nth lo v NaN in
      let b := nth (S lo) v a in
      fadd a (fmul frac (fsub b a))
  end.

(** ** [src/analytics.py] *)

Definition ns_per_day : Z := 86400 * 1000000000.

(** [timestamp.dt.date]: the local calendar day, as a day number. *)
Definition date_of (ts : Z) : Z := ((ts + TZ_offset) / ns_per_day)%Z.

Record DailyRow : Type := mkDaily {
  d_date : Z;
  total_consumption : float;
  mean_interval : float;
  p95_interval : float;
  d_readings : nat
}.

Definition flow_date (r : FlowReading) : Z := date_of (timestamp r).

Definition daily_leb (a b : DailyRow) : bool := (d_date a <=? d_date b)%Z.

Definition flow_daily (flow : list FlowReading) : list DailyRow :=
  let g :=
    map (fun kg =>
           let s := map consumption (snd kg) in
           mkDaily (fst kg) (fsum s) (fmean s)
                   (match s with [] => NaN | _ => nanpercentile95 s end)
                   (List.length s))
        (groupby Z.compare flow_date flow) in
  sort_by daily_leb g.

Definition in_range (r : QualityReading) : bool :=
  fge (value r) (safe_min r) && fle (value r) (safe_max r).

Definition quality_date (r : QualityReading) : Z := date_of (q_timestamp r).

Definition pair_compare (a b : string * Z) : comparison :=
  match String.compare (fst a) (fst b) with
  | Eq => Z.compare (snd a) (snd b)
  | c => c
  end.

Definition compliance_key (r : QualityReading) : string * Z :=
  (parameter r, quality_date r).

Record ComplianceRow : Type := mkCompliance {
  c_parameter : string;
  c_date : Z;
  pct_in_range : float;
  breaches : nat;
  c_readings : nat;
  avg_value : float;
  c_min_value : float;
  c_max_value : float
}.

Definition count_true (s : list bool) : nat := List.length (filter id s).
Definition count_false (s : list bool) : nat := List.length (filter negb s).

(** [s.mean()] of a boolean column: the fraction of [True]. *)
Definition bool_mean (s : list bool) : float :=
  fdiv (of_nat (count_true s)) (of_nat (List.length s)).

Definition compliance_row (kg : (string * Z) * list QualityReading)
  : ComplianceRow :=
  let s := map in_range (snd kg) in
  let v := map value (snd kg) in
  mkCompliance (fst (fst kg)) (snd (fst kg))
    (match s with [] => NaN | _ => fmul (Fin 100) (bool_mean s) end)
    (count_false s) (List.length s) (fmean v) (fmin v) (fmax v).

Definition compliance_leb (a b : ComplianceRow) : bool :=
  match pair_compare (c_parameter a, c_date a) (c_parameter b, c_date b) with
  | Gt => false
  | _ => true
  end.

Definition quality_daily_compliance (quality : list QualityReading)
  : list ComplianceRow :=
  sort_by compliance_leb
    (map compliance_row (groupby pair_compare compliance_key quality)).

(** *** Breach events *)

(** What the test [x is False] can tell apart: the two Python singletons
    [True] and [False], and the two NumPy scalars [np.True_] and
    [np.False_].  Indexing a boolean column with [.iloc[i]] yields a NumPy
    scalar. *)
Inductive pyobj : Type :=
| PyBool (b : bool)
| NpBool (b : bool).

(** Object identity [a is b]. *)
Definition py_is (a b : pyobj) : bool :=
  match a, b with
  | PyBool x, PyBool y => Bool.eqb x y
  | NpBool x, NpBool y => Bool.eqb x y
  | _, _ => false
  end.

(** [s.iloc[i]] on a column of dtype [bool]. *)
Definition iloc_bool (s : list bool) (i : nat) : option pyobj :=
  option_map NpBool (nth_error s i).

(** [s.shift(1)] *)
Definition shift1 (s : list bool) : list (option bool) :=
  match s with
  | [] => []
  | _ => None :: map Some (removelast s)
  end.

(** [x != y] of a boolean against a shifted cell; a missing cell differs
    from everything. *)
Definition differs (x : bool) (y : option bool) : bool :=
  match y with
  | Some b => negb (Bool.eqb x b)
  | None => true
  end.

Fixpoint cumsum (acc : nat) (l : list bool) : list nat :=
  match l with
  | [] => []
  | b :: t =>
      let acc' := if b then S acc else acc in
      acc' :: cumsum acc' t
  end.

(** [(g["in_range"] != g["in_range"].shift(1)).cumsum()] *)
Definition run_id (s : list bool) : list nat :=
  cumsum 0 (map (fun xy => differs (fst xy) (snd xy)) (combine s (shift1 s))).

(** [for _, seg in g.groupby(run_id)] *)
Definition segments (g : list QualityReading) : list (list QualityReading) :=
  map (fun kg => map fst (snd kg))
      (groupby Nat.compare snd
               (combine g (run_id (map in_range g)))).

Record BreachEvent : Type := mkBreach {
  b_parameter : string;
  b_start : Z;
  b_end : Z;
  duration_min : float;
  min_value : float;
  max_value : float;
  readings : nat
}.

(** Round half to even, the rule of the builtin [round]. *)
Definition round_half_even (q : Q) : Z :=
  let f := Qfloor q in
  let r := (q - inject_Z f)%Q in
  match Qcompare r (1 # 2) with
  | Lt => f
  | Gt => (f + 1)%Z
  | Eq => if Z.even f then f else (f + 1)%Z
  end.

(** [round(x, 2)] *)
Definition round2 (x : float) : float :=
  match x with
  | Fin q => Fin (inject_Z (round_half_even (q * 100)) / 100)%Q
  | NaN => NaN
  end.

(** [(end - start).total_seconds() / 60.0] *)
Definition minutes_between (t0 t1 : Z) : float :=
  fdiv (Fin (inject_Z (t1 - t0) / inject_Z 1000000000)%Q) (Fin 60).

(** The dictionary built for a segment whose first row is [first]. *)
Definition breach_row (param : string) (first : QualityReading)
  (seg : list QualityReading) : BreachEvent :=
  let start := q_timestamp first in
  let stop := q_timestamp (last seg first) in
  mkBreach param start stop
           (round2 (minutes_between start stop))
           (fmin (map value seg)) (fmax (map value seg))
           (List.length seg).

(** The body of [for _, seg in g.groupby(run_id)]: the rows it appends. *)
Definition segment_event (param : string) (seg : list QualityReading)
  : list BreachEvent :=
  match seg with
  | [] => []
  | first :: _ =>
      match iloc_bool (map in_range seg) 0 with
      | Some x =>
          if py_is x (PyBool false) then [breach_row param first seg] else []
      | None => []
      end
  end.

Definition breach_columns : list string :=
  ["parameter"; "start"; "end"; "duration_min"; "min_value"; "max_value";
   "readings"]%string.

Definition breach_leb (a b : BreachEvent) : bool :=
  match pair_compare (b_parameter a, b_start a) (b_parameter b, b_start b) with
  | Gt => false
  | _ => true
  end.

Definition quality_breach_events (quality : list QualityReading)
  : Frame BreachEvent :=
  let q := sort_by quality_leb quality in
  let rows :=
    flat_map
      (fun pg => flat_map (segment_event (fst pg)) (segments (snd pg)))
      (groupby String.compare parameter q) in
  match rows with
  | [] => no_data breach_columns
  | _ => mkFrame breach_columns [] (sort_by breach_leb rows)
  end.

(** *** Correlation of daily consumption with a quality parameter *)

Record JoinedRow : Type := mkJoined {
  j_date : Z;
  j_total_consumption : float;
  humidity : float
}.

Definition joined_columns : list string :=
  ["date"; "total_consumption"; "humidity"]%string.

(** [pd.merge(left, right, on="date", how="inner")] *)
Definition merge_inner (fd : list DailyRow) (hd : list (Z * float))
  : list JoinedRow :=
  flat_map
    (fun d =>
       map (fun h => mkJoined (d_date d) (total_consumption d) (snd h))
           (filter (fun h => (fst h =? d_date d)%Z) hd))
    fd.

Section Correlation.
(** [Series.corr]: Pearson's coefficient of two columns of equal length. *)
Variable series_corr : list float -> list float -> float.

(** The function on the rows of two frames whose time stamps are datetime
    columns; on frames as they come, see [OnFrame.humidity_vs_flow_daily]. *)
Definition humidity_vs_flow_daily (flow : list FlowReading)
  (quality : list QualityReading) (humidity_name : string)
  : Frame JoinedRow * option float :=
  let fd := flow_daily flow in
  let h := filter (fun r => String.eqb (parameter r) humidity_name) quality in
  match h with
  | [] => (no_data joined_columns, None)
  | _ =>
      let hd :=
        map (fun kg => (fst kg, fmean (map value (snd kg))))
            (groupby Z.compare quality_date h) in
      let merged := merge_inner fd hd in
      let corr :=
        if (2 <=? List.length merged) &&
           existsb notna (map humidity merged)
        then Some (series_corr (map j_total_consumption merged)
                               (map humidity merged))
        else None in
      (mkFrame joined_columns [] merged, corr)
  end.
End Correlation.

(** ** [src/src/alerts.py] *)

(** The rows a trailing window of [w] readings ending at position [i]
    covers. *)
Definition window_at (w i : nat) (l : list float) : list float :=
  skipn (S i - w) (firstn (S i) l).

(** The median of the values present, already sorted: the middle one, or
    the mean of the two middle ones. *)
Definition median_sorted (v : list float) : float :=
  let n := List.length v in
  let mid := n / 2 in
  if Nat.odd n then nth mid v NaN
  else fdiv (fadd (nth mid v NaN) (nth (mid - 1) v NaN)) (Fin 2).

(** [s.rolling(w, min_periods=mp).median()] *)
Definition rolling_median (w mp : nat) (l : list float) : list float :=
  map (fun i =>
         let obs := observed (window_at w i l) in
         if List.length obs <? mp then NaN
         else median_sorted (sort_by fle obs))
      (seq 0 (List.length l)).

Definition min_periods (window : nat) : nat := Nat.max 6 (window / 4).

(** [mad.replace(0, np.nan)] *)
Definition zero_to_nan (x : float) : float :=
  if feqb x (Fin 0) then NaN else x.

Record AnomalyRecord : Type := mkAnomaly {
  a_timestamp : Z;
  a_consumption : float;
  roll_med : float;
  threshold : float;
  anomaly : bool
}.

Definition flow_leb (a b : FlowReading) : bool :=
  (timestamp a <=? timestamp b)%Z.

(** The column [mad] of [flow_anomalies]. *)
Definition rolling_mad (window : nat) (cons : list float) : list float :=
  let mp := min_periods window in
  let med := rolling_median window mp cons in
  rolling_median window mp
    (map (fun cm => fabs (fsub (fst cm) (snd cm))) (combine cons med)).

Definition flow_anomalies (flow : list FlowReading) (window : nat)
  : result (list AnomalyRecord) :=
  (* rolling() refuses min_periods > window *)
  if window <? min_periods window then Raise ValueError
  else
    let z := sort_by flow_leb flow in
    let cons := map consumption z in
    let med := rolling_median window (min_periods window) cons in
    let mad := rolling_mad window cons in
    let thr :=
      map (fun mm => fadd (fst mm) (fmul (Fin 3) (zero_to_nan (snd mm))))
          (combine med mad) in
    Ok (map (fun rmt =>
               let r := fst (fst rmt) in
               let m := snd (fst rmt) in
               let t := snd rmt in
               mkAnomaly (timestamp r) (consumption r) m t
                         (fgt (consumption r) t))
            (combine (combine z med) thr)).

(** ** Inputs for the examples

    Fragments of the library parsers, enough to run the parsers on plain
    inputs: unsigned or signed decimal numerals, and time stamps written
    [DD/MM/YYYY HH:MM].  On these texts pandas computes the same values. *)

Definition digit_value (c : ascii) : option Z :=
  if is_digit c then Some (Z.of_nat (nat_of_ascii c) - 48)%Z else None.

Fixpoint digits_value (acc : Z) (s : string) : option Z :=
  match s with
  | EmptyString => Some acc
  | String c s' =>
      match digit_value c with
      | Some d => digits_value (10 * acc + d)%Z s'
      | None => None
      end
  end.

Definition number_value (s : string) : option Z :=
  match s with
  | EmptyString => None
  | _ => digits_value 0 s
  end.

Fixpoint split_at_char (sep : ascii) (acc s : string) : string * option string :=
  match s with
  | EmptyString => (acc, None)
  | String c s' =>
      if Ascii.eqb c sep then (acc, Some s')
      else split_at_char sep (snoc acc c) s'
  end.

Definition unsigned_decimal (s : string) : option Q :=
  match split_at_char "." EmptyString s with
  | (i, None) => option_map inject_Z (number_value i)
  | (i, Some f) =>
      match number_value i, number_value f with
      | Some a, Some b =>
          Some (inject_Z a + inject_Z b / inject_Z (10 ^ Z.of_nat (String.length f)))%Q
      | _, _ => None
      end
  end.

Definition decimal_value (s : string) : option Q :=
  match s with
  | String "-" s' => option_map Qopp (unsigned_decimal s')
  | _ => unsigned_decimal s
  end.

Definition decimal_to_numeric (s : string) : float :=
  match decimal_value s with
  | Some q => Fin q
  | None => NaN
  end.

Definition decimal_float (s : string) : option float :=
  option_map Fin (decimal_value s).

(** Days since 1970-01-01 of a proleptic Gregorian date. *)
Definition days_from_civil (y m d : Z) : Z :=
  let y' := (if m <=? 2 then y - 1 else y)%Z in
  let era := (y' / 400)%Z in
  let yoe := (y' - era * 400)%Z in
  let mp := ((m + 9) mod 12)%Z in
  let doy := ((153 * mp + 2) / 5 + d - 1)%Z in
  let doe := (yoe * 365 + yoe / 4 - yoe / 100 + doy)%Z in
  (era * 146097 + doe - 719468)%Z.

Definition dmy_to_datetime (s : string) : option Z :=
  match split_at_char " " EmptyString s with
  | (date, Some time) =>
      match split_at_char "/" EmptyString date with
      | (dd, Some rest) =>
          match split_at_char "/" EmptyString rest,
                split_at_char ":" EmptyString time with
          | (mm, Some yyyy), (hh, Some mi) =>
              match number_value dd, number_value mm, number_value yyyy,
                    number_value hh, number_value mi with
              | Some d, Some m, Some y, Some h, Some n =>
                  if ((1 <=? d) && (d <=? 31) && (1 <=? m) && (m <=? 12) &&
                      (h <? 24) && (n <? 60))%Z
                  then Some (((days_from_civil y m d * 24 + h) * 60 + n)
                             * 60 * 1000000000)%Z
                  else None
              | _, _, _, _, _ => None
              end
          | _, _ => None
          end
      | _ => None
      end
  | _ => None
  end.

Definition integer_value (s : string) : option Z :=
  match s with
  | String "-" s' => option_map Z.opp (number_value s')
  | _ => number_value s
  end.

Fixpoint all_some {A : Type} (l : list (option A)) : option (list A) :=
  match l with
  | [] => Some []
  | Some x :: l' => option_map (cons x) (all_some l')
  | None :: _ => None
  end.

(** The dtype of a column of numerals: int64 when all are integers of 64
    bits, uint64 when all are integers below 2^64, none negative, and one
    is 2^63 or more, float64 in every other case. *)
Definition decimal_dtype (texts : list string) : dtype :=
  match all_some (map integer_value texts) with
  | Some zs =>
      if forallb (fun z => (- 2 ^ 63 <=? z) && (z <? 2 ^ 63))%Z zs then int64
      else if forallb (fun z => (0 <=? z) && (z <? 2 ^ 64))%Z zs then uint64
      else float64
  | None => float64
  end.

Definition dtype_eqb (a b : dtype) : bool :=
  match a, b with
  | float64, float64 | int64, int64 | uint64, uint64 => true
  | _, _ => false
  end.

(** The dtype of the concatenation of blocks of one dtype. *)
Definition same_dtype (blocks : list (dtype * list (Z * float))) : dtype :=
  match blocks with
  | [] => float64
  | (d, _) :: rest =>
      if forallb (fun b => dtype_eqb (fst b) d) rest then d else float64
  end.

Definition demo_load_flow_csv :=
  load_flow_csv (map dmy_to_datetime) decimal_to_numeric decimal_dtype
                same_dtype.
Definition demo_load_quality_csv :=
  load_quality_csv dmy_to_datetime decimal_to_numeric decimal_float.

(** A flow table with one header block: totalizer 100, 105, 103, 110 at
    five-minute intervals. *)
Definition sample_flow_table : RawTable :=
  mkRaw 3
    [["Date"; "Time"; "Totalizer (L)"];
     ["01/01/2024"; "00:00"; "100"];
     ["01/01/2024"; "00:05"; "105"];
     ["01/01/2024"; "00:10"; "103"];
     ["01/01/2024"; "00:15"; "110"]]%string.

(** A flow table whose totalizer falls from 2^63 to 5. *)
Definition wrapping_flow_table : RawTable :=
  mkRaw 3
    [["Date"; "Time"; "Totalizer (L)"];
     ["01/01/2024"; "00:00"; "9223372036854775808"];
     ["01/01/2024"; "00:05"; "5"]]%string.

(** A table of two columns, none of whose rows is a header. *)
Definition narrow_table : RawTable :=
  mkRaw 2 [["01/01/2024"; "00:00"]]%string.

(** A table of three columns without any header row. *)
Definition headerless_table : RawTable :=
  mkRaw 3 [["01/01/2024"; "00:00"; "100"]]%string.

Definition humidity_header : list string :=
  ["1. HUMIDITY (HUMIDITY), Safe Range: (30 to 70)"; ""; ""]%string.


(** A quality table whose only safe range is written with [TO] in capital
    letters, which [_parse_safe_range] does not split. *)
Definition unparsed_range_table : RawTable :=
  mkRaw 3
    [["1. HUMIDITY (HUMIDITY), Safe Range: (30 TO 70)"; ""; ""];
     ["Date"; "Time"; "Value"];
     ["01/01/2024"; "00:00"; "50"];
     ["01/01/2024"; "00:05"; "80"]]%string.

(** The same readings after a parameter whose safe range parses. *)
Definition one_parsed_range_table : RawTable :=
  mkRaw 3
    [["1. TDS (TDS), Safe Range: (0 to 500)"; ""; ""];
     ["Date"; "Time"; "Value"];
     ["01/01/2024"; "00:00"; "100"];
     ["2. HUMIDITY (HUMIDITY), Safe Range: (30 TO 70)"; ""; ""];
     ["Date"; "Time"; "Value"];
     ["01/01/2024"; "00:00"; "50"];
     ["01/01/2024"; "00:05"; "80"]]%string.


(** A quality table whose column header has only two cells filled in. *)
Definition two_cell_header_table : RawTable :=
  mkRaw 3
    [humidity_header;
     ["Date"; "Time"; ""];
     ["01/01/2024"; "00:00"; "50"]]%string.

Definition demo_scan := scan dmy_to_datetime decimal_to_numeric decimal_float.
Definition demo_scan_row :=
  scan_row dmy_to_datetime decimal_to_numeric decimal_float.

(** Membership of a reading in the group of a parameter and a day. *)
Definition in_group (p : string) (d : Z) (r : QualityReading) : bool :=
  String.eqb (parameter r) p && (quality_date r =? d)%Z.

(** Readings of one parameter on 1 January 2024 (local time), five minutes
    apart, with the safe range 20 to 40. *)
Definition reading_at (minute : Z) (v : float) : QualityReading :=
  mkQuality (1704047400000000000 + minute * 60000000000)%Z "TDS (TDS)"
            v (Fin 20) (Fin 40).

Definition sample_quality : list QualityReading :=
  [reading_at 0 (Fin 10); reading_at 5 (Fin 25); reading_at 10 (Fin 30)].


(** A series with a single reading, below its safe range. *)
Definition single_breach : list QualityReading := [reading_at 0 (Fin 10)].

(** Pearson's coefficient where it is a rational number: the pairs with a
    missing member are left out, and the quotient of the co-moment by the
    root of the product of the two second moments is returned when that
    root is rational and not zero.  On such columns [Series.corr] computes
    the same number. *)
Definition exact_sqrt (q : Q) : option Q :=
  let r := Qred q in
  let n := Qnum r in
  let d := Zpos (Qden r) in
  let sn := Z.sqrt n in
  let sd := Z.sqrt d in
  if ((sn * sn =? n) && (sd * sd =? d))%Z
  then Some (Qmake sn (Z.to_pos sd)) else None.

Definition qsum (l : list Q) : Q := fold_left Qplus l 0%Q.

Definition numbers (xy : float * float) : list (Q * Q) :=
  match xy with
  | (Fin x, Fin y) => [(x, y)]
  | _ => []
  end.

Definition pearson_exact (xs ys : list float) : float :=
  let pairs := flat_map numbers (combine xs ys) in
  match pairs with
  | [] => NaN
  | _ =>
      let n := inject_Z (Z.of_nat (List.length pairs)) in
      let mx := (qsum (map fst pairs) / n)%Q in
      let my := (qsum (map snd pairs) / n)%Q in
      let sxy := qsum (map (fun p => (fst p - mx) * (snd p - my))%Q pairs) in
      let sxx := qsum (map (fun p => (fst p - mx) * (fst p - mx))%Q pairs) in
      let syy := qsum (map (fun p => (snd p - my) * (snd p - my))%Q pairs) in
      match exact_sqrt (sxx * syy) with
      | Some d => if Qeq_bool d 0%Q then NaN else Fin (Qred (sxy / d))
      | None => NaN
      end
  end.


Definition humidity_name : string := "HUMIDITY (HUMIDITY)".

(** One flow reading and one humidity reading per day, on consecutive
    days starting 1 January 2024 (local time). *)
Definition flow_on_day (day : Z) (c : float) : FlowReading :=
  mkFlow (1704047400000000000 + day * ns_per_day)%Z (Fin 0) c.

Definition humidity_on_day (day : Z) (v : float) : QualityReading :=
  mkQuality (1704047400000000000 + day * ns_per_day)%Z humidity_name v
            (Fin 30) (Fin 70).

Definition flow_three_days : list FlowReading :=
  [flow_on_day 0 (Fin 10); flow_on_day 1 (Fin 20); flow_on_day 2 (Fin 30)].

Definition humidity_three_days : list QualityReading :=
  [humidity_on_day 0 (Fin 40); humidity_on_day 1 (Fin 50);
   humidity_on_day 2 (Fin 60)].

(** A cell that is missing or holds a number satisfying [P]. *)
Definition nan_or (P : Q -> Prop) (x : float) : Prop :=
  match x with
  | NaN => True
  | Fin q => P q
  end.

(** Flow readings five minutes apart from midnight of 1 January 2024 (local
    time), with the consumptions listed. *)
Fixpoint flow_series (start : Z) (cs : list float) : list FlowReading :=
  match cs with
  | [] => []
  | c :: cs' =>
      mkFlow start (Fin 0) c :: flow_series (start + 300000000000)%Z cs'
  end.

(** Thirty readings of consumption 5. *)
Definition constant_flow : list FlowReading :=
  flow_series 1704047400000000000 (repeat (Fin 5) 30).

(** Five readings of consumption 5, then one of 1000. *)
Definition spike_during_warmup : list FlowReading :=
  flow_series 1704047400000000000 (repeat (Fin 5) 5 ++ [Fin 1000]).

(** ** Auxiliary definitions for the proofs *)

(** The run identifiers computed row by row: [acc] is the identifier of
    the row before and [prev] its flag. *)
Fixpoint ids_from (acc : nat) (prev : option bool) (s : list bool) : list nat :=
  match s with
  | [] => []
  | b :: s' =>
      let acc' := if differs b prev then S acc else acc in
      acc' :: ids_from acc' (Some b) s'
  end.

(** Cutting a list where the key of two neighbours differs. *)
Fixpoint chunk {A : Type} (key : A -> nat) (l : list A) : list (nat * list A) :=
  match l with
  | [] => []
  | x :: xs =>
      match chunk key xs with
      | (k, g) :: rest =>
          if key x =? k then (k, x :: g) :: rest
          else (key x, [x]) :: (k, g) :: rest
      | [] => [(key x, [x])]
      end
  end.

(** The maximal runs of readings with the same flag. *)
Fixpoint runs_by {A : Type} (f : A -> bool) (l : list A) : list (list A) :=
  match l with
  | [] => []
  | x :: xs =>
      match runs_by f xs with
      | [] => [[x]]
      | [] :: rest => [x] :: rest
      | (y :: g) :: rest =>
          if Bool.eqb (f x) (f y) then (x :: y :: g) :: rest
          else [x] :: (y :: g) :: rest
      end
  end.

(** ** More of [src/analytics.py]: time parts, shifts, heat map, months *)

Definition SHIFT_DEF : list (string * Z * Z) :=
  [("Shift A"%string, 6, 14); ("Shift B"%string, 14, 22);
   ("Shift C"%string, 22, 6)]%Z.

(** The loop [for name, start, end in SHIFT_DEF] of [_hour_to_shift], over
    the shifts still to be tried. *)
Fixpoint shift_among (defs : list (string * Z * Z)) (h : Z) : string :=
  match defs with
  | [] => "Unknown"%string
  | (name, start, stop) :: rest =>
      if (start <? stop)%Z then
        if ((start <=? h) && (h <? stop))%Z then name
        else shift_among rest h
      else
        (* overnight window *)
        if ((start <=? h) || (h <? stop))%Z then name
        else shift_among rest h
  end.

Definition _hour_to_shift (h : Z) : string := shift_among SHIFT_DEF h.

Definition ns_per_hour : Z := 3600 * 1000000000.

(** [timestamp.dt.hour], the hour of the local wall time. *)
Definition hour_of (ts : Z) : Z :=
  (((ts + TZ_offset) mod ns_per_day) / ns_per_hour)%Z.

(** [timestamp.dt.dayofweek], Monday being 0; day 0 was a Thursday. *)
Definition dow_of (ts : Z) : Z := ((date_of ts + 3) mod 7)%Z.

(** [timestamp.dt.month]: the month of the proleptic Gregorian date of a
    day number. *)
Definition month_of_day (day : Z) : Z :=
  let z := (day + 719468)%Z in
  let era := (z / 146097)%Z in
  let doe := (z - era * 146097)%Z in
  let yoe := ((doe - doe / 1460 + doe / 36524 - doe / 146096) / 365)%Z in
  let doy := (doe - (365 * yoe + yoe / 4 - yoe / 100))%Z in
  let mp := ((5 * doy + 2) / 153)%Z in
  (if mp <? 10 then mp + 3 else mp - 9)%Z.

Definition month_of (ts : Z) : Z := month_of_day (date_of ts).

(** A flow reading with the columns [_add_time_parts] adds. *)
Record TimedFlow : Type := mkTimed {
  tf_reading : FlowReading;
  tf_date : Z;
  tf_hour : Z;
  tf_dow : Z;
  tf_month : Z
}.

Definition _add_time_parts (df : list FlowReading) : list TimedFlow :=
  map (fun r =>
         mkTimed r (date_of (timestamp r)) (hour_of (timestamp r))
                 (dow_of (timestamp r)) (month_of (timestamp r)))
      df.

Record ShiftRow : Type := mkShiftRow {
  sh_date : Z;
  shift : string;
  sh_total_consumption : float;
  sh_readings : nat
}.

Definition date_shift_compare (a b : Z * string) : comparison :=
  match Z.compare (fst a) (fst b) with
  | Eq => String.compare (snd a) (snd b)
  | c => c
  end.

Definition shift_key (x : TimedFlow * string) : Z * string :=
  (tf_date (fst x), snd x).

Definition shift_leb (a b : ShiftRow) : bool :=
  match date_shift_compare (sh_date a, shift a) (sh_date b, shift b) with
  | Gt => false
  | _ => true
  end.

Definition flow_shift_aggregates (flow : list FlowReading) : list ShiftRow :=
  let z :=
    map (fun t => (t, _hour_to_shift (tf_hour t))) (_add_time_parts flow) in
  let g :=
    map (fun kg =>
           let s := map (fun x => consumption (tf_reading (fst x))) (snd kg) in
           mkShiftRow (fst (fst kg)) (snd (fst kg)) (fsum s) (List.length s))
        (groupby date_shift_compare shift_key z) in
  sort_by shift_leb g.

Definition zz_compare (a b : Z * Z) : comparison :=
  match Z.compare (fst a) (fst b) with
  | Eq => Z.compare (snd a) (snd b)
  | c => c
  end.

(** The result of [pivot]: the index labels, the column labels and one row
    of cells per index label. *)
Record Pivot : Type := mkPivot {
  pv_index : list Z;
  pv_columns : list Z;
  pv_values : list (list float)
}.

(** [heat.pivot(index="dow", columns="hour", values="consumption")] followed
    by [sort_index()]: labels ascending, a cell without an entry missing.
    The entries come from a [groupby], so no (index, column) pair occurs
    twice and [pivot] does not refuse them. *)
Definition pivot (heat : list ((Z * Z) * float)) : Pivot :=
  let idx := group_keys Z.compare (fun e => fst (fst e)) heat in
  let cols := group_keys Z.compare (fun e => snd (fst e)) heat in
  mkPivot idx cols
    (map (fun d =>
            map (fun h =>
                   match
                     find (fun e => (fst (fst e) =? d)%Z &&
                                    (snd (fst e) =? h)%Z) heat
                   with
                   | Some e => snd e
                   | None => NaN
                   end)
                cols)
         idx).

Definition dow_hour (t : TimedFlow) : Z * Z := (tf_dow t, tf_hour t).

Definition flow_heatmap_hour_dow (flow : list FlowReading) : Pivot :=
  let z := _add_time_parts flow in
  let heat :=
    map (fun kg =>
           (fst kg, fmean (map (fun t => consumption (tf_reading t)) (snd kg))))
        (groupby zz_compare dow_hour z) in
  pivot heat.

Record SeasonalRollups : Type := mkSeasonal {
  flow_month : list (Z * float);
  quality_month : list (string * Z * float)
}.

Definition flow_month_of (r : FlowReading) : Z := month_of (timestamp r).

Definition quality_month_key (r : QualityReading) : string * Z :=
  (parameter r, month_of (q_timestamp r)).

Definition seasonal_rollups (flow : list FlowReading)
  (quality : list QualityReading) : SeasonalRollups :=
  let flow_month :=
    map (fun kg => (fst kg, fsum (map consumption (snd kg))))
        (groupby Z.compare flow_month_of flow) in
  let qual_month :=
    map (fun kg =>
           (fst (fst kg), snd (fst kg),
            fmul (Fin 100) (bool_mean (map in_range (snd kg)))))
        (groupby pair_compare quality_month_key quality) in
  mkSeasonal flow_month qual_month.

(** ** More of [src/src/alerts.py] *)

(** [quality["timestamp"].max()] of a frame with first row [r]. *)
Definition latest (r : QualityReading) (rest : list QualityReading) : Z :=
  fold_left Z.max (map q_timestamp rest) (q_timestamp r).

Definition quality_latest_breaches (quality : list QualityReading)
  : list QualityReading :=
  match quality with
  | [] => []
  | r :: rest =>
      let stop := latest r rest in
      (* pd.Timedelta(hours=24) *)
      let start := (stop - 24 * ns_per_hour)%Z in
      let q :=
        filter (fun x => ((start <=? q_timestamp x) &&
                          (q_timestamp x <=? stop))%Z)
               quality in
      sort_by quality_leb (filter (fun x => negb (in_range x)) q)
  end.

(** [p.endswith(suffix)] *)
Definition ends_with (suffix p : string) : bool :=
  let n := String.length p in
  let m := String.length suffix in
  (m <=? n) && String.eqb (substring (n - m) m p) suffix.

Definition all_clear : string :=
  "All parameters within safe ranges in the last 24h.".

Definition tip_tds : string :=
  "High TDS detected → check RO/softener status, resin condition, and source blend.".

Definition tip_ph : string :=
  "pH out of range → verify dosing pumps (alkali/acid), probe calibration, and tank mixing.".

Definition tip_solids : string :=
  "Suspended solids/turbidity ↑ → inspect filters/backwash cycles and upstream settling.".

Definition tip_bod : string :=
  "BOD/COD breaches → check biological treatment load, aeration, and recycle ratios.".

Definition tip_humidity : string :=
  "Humidity spikes → consider ventilation/conditioning; correlate with usage peaks.".

Definition is_ph (p : string) : bool :=
  contains "(pH" p || contains "pH)" p || ends_with "(pH)" p.

Definition is_solids (p : string) : bool :=
  contains "TSS" p || contains "Turb" p.

Definition is_bod (p : string) : bool :=
  contains "BOD" p || contains "COD" p.

(** [tips.append(text)] under [if any(test(p) for p in params)]. *)
Definition tip_if (test : string -> bool) (params : list string)
  (text : string) : list string :=
  if existsb test params then [text] else [].

Definition simple_recommendations (quality_breaches : list QualityReading)
  : list string :=
  match quality_breaches with
  | [] => [all_clear]
  | _ =>
      (* set(quality_breaches["parameter"].unique()) *)
      let params := nodup string_dec (map parameter quality_breaches) in
      tip_if (contains "TDS") params tip_tds ++
      tip_if is_ph params tip_ph ++
      tip_if is_solids params tip_solids ++
      tip_if is_bod params tip_bod ++
      tip_if (contains "HUMIDITY") params tip_humidity
  end.

(** ** Auxiliary definitions for the proofs about grouping *)

(** A three-way comparison that decides a strict total order. *)
Class StrictCmp {K : Type} (cmp : K -> K -> comparison) : Prop := {
  cmp_eq_iff : forall a b, cmp a b = Eq <-> a = b;
  cmp_antisym : forall a b, cmp b a = CompOpp (cmp a b);
  cmp_lt_trans : forall a b c, cmp a b = Lt -> cmp b c = Lt -> cmp a c = Lt
}.

(** Lexicographic comparison of pairs. *)
Definition lex_compare {A B : Type} (ca : A -> A -> comparison)
  (cb : B -> B -> comparison) (x y : A * B) : comparison :=
  match ca (fst x) (fst y) with
  | Eq => cb (snd x) (snd y)
  | c => c
  end.

(** The sum of the numbers of a column, missing values left out. *)
Fixpoint total_of (l : list float) : Q :=
  match l with
  | [] => 0%Q
  | Fin q :: l' => (q + total_of l')%Q
  | NaN :: l' => total_of l'
  end.

(** Equality of cells up to the representation of a rational. *)
Definition feq (x y : float) : Prop :=
  match x, y with
  | Fin a, Fin b => (a == b)%Q
  | NaN, NaN => True
  | _, _ => False
  end.

(** Membership of a flow reading in the group of a day and a shift. *)
Definition in_shift (d : Z) (s : string) (r : FlowReading) : bool :=
  (date_of (timestamp r) =? d)%Z &&
  String.eqb (_hour_to_shift (hour_of (timestamp r))) s.

(** The sum of a list of rationals. *)
Definition Qsum (l : list Q) : Q := fold_right Qplus 0%Q l.

Definition on_day (d : Z) (r : FlowReading) : bool :=
  (date_of (timestamp r) =? d)%Z.

(** The series parsed from [sample_flow_table]. *)
Definition sample_flow_frame : Frame FlowReading :=
  mkFrame flow_columns []
    [mkFlow 1704047400000000000 (Fin 100) (Fin 0);
     mkFlow 1704047700000000000 (Fin 105) (Fin 5);
     mkFlow 1704048000000000000 (Fin 103) (Fin 0);
     mkFlow 1704048300000000000 (Fin 110) (Fin 7)].

(** The order "not greater" of a three-way comparison. *)
Definition cmp_leb {K : Type} (cmp : K -> K -> comparison) (a b : K) : bool :=
  match cmp a b with
  | Gt => false
  | _ => true
  end.

(** A row of a quality table that is no parameter header and has fewer
    than three non-empty cells. *)
Definition short_row (r : list string) : bool :=
  match nonempty_cells r with
  | [] => true
  | c0 :: rest =>
      (List.length rest <? 2) &&
      match PARAM_RE_match c0 with
      | Some _ => false
      | None => true
      end
  end.

Definition quality_key (r : QualityReading) : string * Z :=
  (parameter r, q_timestamp r).

(** The name [p] and the bounds [lo], [hi] are those a parameter header
    row of [rs] announces. *)
Definition from_header (py_float : string -> option float)
  (rs : list (list string)) (p : string) (lo hi : option float) : Prop :=
  exists r c0 rest g1 g2,
    In r rs /\ nonempty_cells r = c0 :: rest /\
    PARAM_RE_match c0 = Some (g1, g2) /\
    p = strip g1 /\ (lo, hi) = parse_safe_range py_float (strip g2).

(** What the scan of a quality table keeps true of its state. *)
Definition scan_invariant (py_float : string -> option float)
  (rs : list (list string)) (st : Scan) : Prop :=
  (forall p, current_param st = Some p ->
             from_header py_float rs p (cur_safe_min st) (cur_safe_max st)) /\
  Forall (fun o =>
            o_parameter o <> EmptyString /\
            from_header py_float rs (o_parameter o)
                        (o_safe_min o) (o_safe_max o))
         (out st).

(** ["to".join(parts)] *)
Fixpoint join_to (parts : list string) : string :=
  match parts with
  | [] => EmptyString
  | a :: rest =>
      match rest with
      | [] => a
      | _ => (a ++ "to" ++ join_to rest)%string
      end
  end.

(** Membership of a flow reading in the cell of a day of the week and an
    hour. *)
Definition in_cell (d h : Z) (r : FlowReading) : bool :=
  (dow_of (timestamp r) =? d)%Z && (hour_of (timestamp r) =? h)%Z.

(** ** Auxiliary definitions for the proofs about [PARAM_RE] *)

(** Every character of [s] is in the class [p]. *)
Fixpoint all_chars (p : ascii -> bool) (s : string) : bool :=
  match s with
  | EmptyString => true
  | String c s' => p c && all_chars p s'
  end.

(** The piece of text a token may consume. *)
Definition piece_ok (t : tok) (p : string) : Prop :=
  all_chars (tok_class t) p = true /\
  match tok_quant t with
  | One => String.length p = 1
  | StarG => True
  | PlusG | PlusL => 1 <= String.length p
  end.

(** The pieces of the capturing tokens. *)
Fixpoint captured (toks : list tok) (pieces : list string) : list string :=
  match toks, pieces with
  | t :: ts, p :: ps =>
      if tok_group t then p :: captured ts ps else captured ts ps
  | _, _ => []
  end.

Fixpoint join_pieces (pieces : list string) : string :=
  match pieces with
  | [] => EmptyString
  | p :: ps => (p ++ join_pieces ps)%string
  end.

(** ** The analytics on frames as the parsers return them *)

Module OnFrame.

(** [df["timestamp"].dt]: the accessor raises [AttributeError] on a column
    of dtype [object]. *)
Definition dt {A : Type} (df : Frame A) : result unit :=
  if existsb (String.eqb "timestamp") (object_columns df)
  then Raise AttributeError else Ok tt.

(** [q["value"] >= q["safe_min"]] and [q["value"] <= q["safe_max"]]: the
    comparison of a number with [None] raises [TypeError]. *)
Definition compare_bounds (q : Frame QualityReading) : result unit :=
  match rows q with
  | [] => Ok tt
  | _ =>
      if existsb (fun c => String.eqb c "safe_min" || String.eqb c "safe_max")
                 (object_columns q)
      then Raise TypeError else Ok tt
  end.

Definition _add_time_parts (df : Frame FlowReading)
  : result (list TimedFlow) :=
  match dt df with
  | Raise e => Raise e
  | Ok _ => Ok (_add_time_parts (rows df))
  end.

Definition flow_daily (flow : Frame FlowReading) : result (list DailyRow) :=
  match _add_time_parts flow with
  | Raise e => Raise e
  | Ok _ => Ok (flow_daily (rows flow))
  end.

Definition quality_daily_compliance (quality : Frame QualityReading)
  : result (list ComplianceRow) :=
  match compare_bounds quality with
  | Raise e => Raise e
  | Ok _ =>
      match dt quality with
      | Raise e => Raise e
      | Ok _ => Ok (quality_daily_compliance (rows quality))
      end
  end.

Definition humidity_vs_flow_daily
  (series_corr : list float -> list float -> float)
  (flow : Frame FlowReading) (quality : Frame QualityReading)
  (humidity_name : string) : result (Frame JoinedRow * option float) :=
  match flow_daily flow with
  | Raise e => Raise e
  | Ok _ =>
      let h :=
        filter (fun r => String.eqb (parameter r) humidity_name)
               (rows quality) in
      match h with
      | [] => Ok (no_data joined_columns, None)
      | _ =>
          (* h["timestamp"].dt.date *)
          match dt quality with
          | Raise e => Raise e
          | Ok _ =>
              Ok (humidity_vs_flow_daily series_corr (rows flow)
                                         (rows quality) humidity_name)
          end
      end
  end.

End OnFrame.

(** ** Auxiliary definitions for the proofs about integer columns *)

(** What pandas guarantees of a cell of a column of dtype [dt] that holds a
    number: on an integer column it is an integer of that dtype. *)
Definition fits (dt : dtype) (x : float) : Prop :=
  match dt with
  | float64 => True
  | int64 =>
      exists q z, x = Fin q /\ (q == inject_Z z)%Q /\
                  (- 2 ^ 63 <= z < 2 ^ 63)%Z
  | uint64 =>
      exists q z, x = Fin q /\ (q == inject_Z z)%Q /\ (0 <= z < 2 ^ 64)%Z
  end.

(** * Properties *)

(** ** Lists *)

Section SortFacts.
Context {A : Type}.
Variable leb : A -> A -> bool.

Lemma insert_by_perm (x : A) (l : list A) :
  Permutation (insert_by leb x l) (x :: l).
Proof.
  induction l as [|y ys IH]; simpl.
  - apply Permutation_refl.
  - destruct (leb x y).
    + apply Permutation_refl.
    + eapply perm_trans; [apply perm_skip, IH | apply perm_swap].
Qed.

Lemma sort_by_perm (l : list A) : Permutation (sort_by leb l) l.
Proof.
  induction l as [|x xs IH]; simpl.
  - constructor.
  - eapply perm_trans; [apply insert_by_perm | now apply perm_skip].
Qed.

Lemma sort_by_In (l : list A) (x : A) : In x (sort_by leb l) <-> In x l.
Proof.
  split; apply Permutation_in;
    [apply sort_by_perm | apply Permutation_sym, sort_by_perm].
Qed.

Lemma sort_by_length (l : list A) : List.length (sort_by leb l) = List.length l.
Proof. apply Permutation_length, sort_by_perm. Qed.

Hypothesis leb_total : forall a b, leb a b = true \/ leb b a = true.
Hypothesis leb_trans :
  forall a b c, leb a b = true -> leb b c = true -> leb a c = true.

Lemma insert_by_sorted (x : A) (l : list A) :
  StronglySorted (fun a b => leb a b = true) l ->
  StronglySorted (fun a b => leb a b = true) (insert_by leb x l).
Proof.
  induction 1 as [|y ys Hs IH Hy]; simpl.
  - repeat constructor.
  - destruct (leb x y) eqn:E.
    + constructor; [now constructor|].
      constructor; [exact E|].
      eapply Forall_impl; [|exact Hy].
      intros z Hz. now apply leb_trans with y.
    + constructor; [exact IH|].
      apply Forall_forall. intros z Hz.
      apply (Permutation_in _ (insert_by_perm x ys)) in Hz.
      destruct Hz as [<-|Hz].
      * destruct (leb_total x y) as [H|H]; [congruence | exact H].
      * rewrite Forall_forall in Hy. now apply Hy.
Qed.

Lemma sort_by_sorted (l : list A) :
  StronglySorted (fun a b => leb a b = true) (sort_by leb l).
Proof.
  induction l as [|x xs IH]; simpl.
  - constructor.
  - now apply insert_by_sorted.
Qed.
End SortFacts.

Section DedupFacts.
Context {A : Type}.
Variable key : A -> Z.

Lemma drop_duplicates_aux_spec (l : list A) :
  forall seen,
    NoDup (map key (drop_duplicates_aux key seen l)) /\
    (forall x, In x (drop_duplicates_aux key seen l) ->
               In x l /\ ~ In (key x) seen).
Proof.
  induction l as [|x xs IH]; intros seen; simpl.
  - split; [constructor | contradiction].
  - destruct (existsb (Z.eqb (key x)) seen) eqn:E.
    + destruct (IH seen) as [Hn Hi]. split; [exact Hn|].
      intros y Hy. destruct (Hi y Hy). auto.
    + destruct (IH (key x :: seen)) as [Hn Hi]. split.
      * simpl. constructor; [|exact Hn].
        intros Hin. apply in_map_iff in Hin as [y [Hk Hy]].
        destruct (Hi y Hy) as [_ Hns]. apply Hns. left. now symmetry.
      * intros y [<-|Hy].
        -- split; [now left|].
           intros Hin.
           assert (existsb (Z.eqb (key x)) seen = true) as Ht
               by (apply existsb_exists; exists (key x); split;
                   [exact Hin | apply Z.eqb_refl]).
           congruence.
        -- destruct (Hi y Hy) as [Hl Hns]. split; [now right|].
           intros Hin. apply Hns. now right.
Qed.

Lemma drop_duplicates_NoDup (l : list A) :
  NoDup (map key (drop_duplicates key l)).
Proof. apply (drop_duplicates_aux_spec l []). Qed.

Lemma drop_duplicates_incl (l : list A) (x : A) :
  In x (drop_duplicates key l) -> In x l.
Proof. intros H. now apply (drop_duplicates_aux_spec l []) in H. Qed.
End DedupFacts.

Lemma nth_error_combine {A B : Type} (l : list A) (l' : list B) :
  forall i,
    nth_error (combine l l') i =
    match nth_error l i, nth_error l' i with
    | Some a, Some b => Some (a, b)
    | _, _ => None
    end.
Proof.
  revert l'. induction l as [|a l IH]; intros [|b l'] [|i]; simpl; try reflexivity.
  - now destruct (nth_error l i).
  - apply IH.
Qed.

(** ** Floats *)

Lemma fillna0_clamp_nonneg (x : float) :
  fge (fillna0 (clamp_negative x)) (Fin 0) = true.
Proof.
  destruct x as [|q]; [reflexivity|].
  unfold clamp_negative, flt, Qlt_bool.
  destruct (Qle_bool 0 q) eqn:E; simpl; [exact E | reflexivity].
Qed.

(** ** The flow parser *)

Lemma diff_length (dt : dtype) (l : list float) :
  List.length (diff dt l) = List.length l.
Proof.
  destruct l as [|x xs]; [reflexivity|]. simpl. f_equal.
  revert x. induction xs as [|y ys IH]; intros x; simpl; [reflexivity|].
  f_equal. apply IH.
Qed.

Lemma diff_from_nth (dt : dtype) (xs : list float) :
  forall prev i a b,
    nth_error (prev :: xs) i = Some a ->
    nth_error xs i = Some b ->
    nth_error (diff_from dt prev xs) i = Some (diff_cell dt b a).
Proof.
  induction xs as [|x xs IH]; intros prev [|i] a b Ha Hb; simpl in *;
    try discriminate.
  - now inversion Ha; inversion Hb.
  - now apply IH.
Qed.

Lemma diff_nth (dt : dtype) (l : list float) (i : nat) (a b : float) :
  nth_error l i = Some a ->
  nth_error l (S i) = Some b ->
  nth_error (diff dt l) (S i) = Some (diff_cell dt b a).
Proof.
  destruct l as [|x xs]; [destruct i; discriminate|].
  intros Ha Hb. simpl. now apply diff_from_nth.
Qed.

Lemma add_consumption_timestamps (dt : dtype) (df : list (Z * float)) :
  map timestamp (add_consumption dt df) = map fst df.
Proof.
  unfold add_consumption. rewrite map_map. simpl.
  assert (H : List.length
                (map fillna0 (map clamp_negative (diff dt (map snd df))))
              = List.length df)
    by now rewrite !length_map, diff_length, length_map.
  revert H.
  generalize (map fillna0 (map clamp_negative (diff dt (map snd df)))).
  induction df as [|r df IH]; intros [|c cs] H; simpl in *;
    try discriminate; [reflexivity|].
  f_equal. apply IH. now inversion H.
Qed.

Lemma add_consumption_nth (dt : dtype) (df : list (Z * float)) (i : nat)
      (r : FlowReading) :
  nth_error (add_consumption dt df) i = Some r ->
  exists t x c,
    nth_error df i = Some (t, x) /\
    nth_error (diff dt (map snd df)) i = Some c /\
    r = mkFlow t x (fillna0 (clamp_negative c)).
Proof.
  unfold add_consumption. rewrite nth_error_map, nth_error_combine.
  rewrite !nth_error_map.
  destruct (nth_error df i) as [[t x]|]; [|discriminate].
  destruct (nth_error (diff dt (map snd df)) i) as [c|]; [|discriminate].
  simpl. intros [= <-]. now exists t, x, c.
Qed.

Lemma strictly_sorted_of_NoDup (l : list (Z * float)) :
  StronglySorted (fun a b => ts_leb a b = true) l ->
  NoDup (map fst l) ->
  StronglySorted Z.lt (map fst l).
Proof.
  induction 1 as [|a l Hs IH Ha]; simpl; intros Hn.
  - constructor.
  - inversion Hn as [|? ? Hnotin Hn']; subst.
    constructor; [now apply IH|].
    apply Forall_forall. intros t Ht.
    apply in_map_iff in Ht as [b [<- Hb]].
    rewrite Forall_forall in Ha. specialize (Ha b Hb).
    unfold ts_leb in Ha. apply Z.leb_le in Ha.
    assert (fst a <> fst b) by (intros E; apply Hnotin; rewrite E; now apply in_map).
    lia.
Qed.

Lemma ts_leb_total (a b : Z * float) : ts_leb a b = true \/ ts_leb b a = true.
Proof. unfold ts_leb. rewrite !Z.leb_le. lia. Qed.

Lemma ts_leb_trans (a b c : Z * float) :
  ts_leb a b = true -> ts_leb b c = true -> ts_leb a c = true.
Proof. unfold ts_leb. rewrite !Z.leb_le. lia. Qed.

Lemma header_positions_none (rs : list (list string)) :
  (forall r, In r rs -> is_header r = false) ->
  forall i, header_positions i rs = [].
Proof.
  induction rs as [|r rs IH]; intros H i; simpl; [reflexivity|].
  rewrite (H r (or_introl eq_refl)). apply IH. intros r' Hr'. apply H. now right.
Qed.

Section ParserFacts.
Variable to_datetime : string -> option Z.
Variable to_datetime_series : list string -> list (option Z).
Variable to_numeric : string -> float.
Variable py_float : string -> option float.
Variable to_numeric_dtype : list string -> dtype.
Variable concat_dtype : list (dtype * list (Z * float)) -> dtype.

Let load_flow :=
  load_flow_csv to_datetime_series to_numeric to_numeric_dtype concat_dtype.
Let load_quality := load_quality_csv to_datetime to_numeric py_float.
Let step := scan_row to_datetime to_numeric py_float.

Lemma parse_block_numbers (blk : list (list string)) (r : Z * float) :
  In r (parse_block to_datetime_series to_numeric blk) -> isna (snd r) = false.
Proof.
  unfold parse_block. rewrite sort_by_In, in_flat_map.
  intros [[o x] [_ Hin]]. destruct o as [t|], x as [|q]; simpl in Hin;
    try contradiction.
  destruct Hin as [<-|[]]. reflexivity.
Qed.

Lemma collect_blocks_In (rs : list (list string)) (idxs : list nat)
      (b : list (Z * float)) :
  In b (map snd (collect_blocks to_datetime_series to_numeric
                                to_numeric_dtype idxs rs)) ->
  exists blk, b = parse_block to_datetime_series to_numeric blk.
Proof.
  induction idxs as [|a tl IH]; simpl; [contradiction|].
  destruct tl as [|b' tl']; [contradiction|].
  destruct (b' <=? S a); [exact IH|].
  intros [<-|H]; [eexists; reflexivity | now apply IH].
Qed.

(** Whatever branch returns, the rows are the deduplicated, sorted
    concatenation of the blocks with the consumption column added. *)
Lemma load_flow_csv_rows (raw : RawTable) (df : Frame FlowReading) :
  load_flow raw = Ok df ->
  let blocks :=
    collect_blocks to_datetime_series to_numeric to_numeric_dtype
                   (header_idxs raw) (raw_rows raw) in
  columns df = flow_columns /\
  rows df =
    add_consumption (concat_dtype blocks)
      (sort_by ts_leb (drop_duplicates fst (List.concat (map snd blocks)))).
Proof.
  unfold load_flow, load_flow_csv.
  destruct (ncols raw <? 3); [discriminate|].
  destruct (collect_blocks _ _ _ _ _) as [|b bs]; intros [= <-]; split;
    reflexivity.
Qed.

Lemma load_flow_csv_numbers (raw : RawTable) (df : Frame FlowReading)
      (r : FlowReading) :
  load_flow raw = Ok df -> In r (rows df) -> isna (totalizer r) = false.
Proof.
  intros H Hin. apply load_flow_csv_rows in H as [_ Hr]. rewrite Hr in Hin.
  apply In_nth_error in Hin as [i Hi].
  apply add_consumption_nth in Hi as (t & x & c & Hd & _ & ->). simpl.
  apply nth_error_In in Hd. rewrite sort_by_In in Hd.
  apply drop_duplicates_incl in Hd. apply in_concat in Hd as [b [Hb Hin]].
  apply collect_blocks_In in Hb as [blk ->].
  now apply parse_block_numbers in Hin.
Qed.

(** No state changes while no parameter header has been seen. *)
Lemma scan_stuck (rs : list (list string)) (st : Scan) :
  (forall r c0 rest,
      In r rs -> nonempty_cells r = c0 :: rest -> PARAM_RE_match c0 = None) ->
  current_param st = None ->
  fold_left step rs st = st.
Proof.
  revert st. induction rs as [|r rs IH]; intros st H Hp; simpl; [reflexivity|].
  assert (E : step st r = st).
  { unfold step, scan_row.
    destruct (nonempty_cells r) as [|c0 rest] eqn:Ec; [reflexivity|].
    rewrite (H r c0 rest (or_introl eq_refl) Ec).
    unfold active. rewrite Hp. simpl. rewrite andb_false_r. reflexivity. }
  rewrite E. apply IH; [|exact Hp].
  intros r' c0 rest Hr'. apply H. now right.
Qed.
End ParserFacts.

(** ** Claims about the flow parser *)

(** C2. Whenever [load_flow_csv] returns a series, its time stamps are
    strictly increasing and pairwise distinct, every consumption is at
    least 0, and the consumption of the first reading is exactly 0. *)
Theorem load_flow_csv_invariants
        (to_datetime_series : list string -> list (option Z))
        (to_numeric : string -> float)
        (to_numeric_dtype : list string -> dtype)
        (concat_dtype : list (dtype * list (Z * float)) -> dtype)
        (raw : RawTable) (df : Frame FlowReading) :
  load_flow_csv to_datetime_series to_numeric to_numeric_dtype concat_dtype
                raw = Ok df ->
  StronglySorted Z.lt (map timestamp (rows df)) /\
  NoDup (map timestamp (rows df)) /\
  Forall (fun r => fge (consumption r) (Fin 0) = true) (rows df) /\
  (forall r, hd_error (rows df) = Some r -> consumption r = Fin 0).
Proof.
  intros H. apply load_flow_csv_rows in H as [_ Hr]. rewrite Hr.
  set (dt := concat_dtype _). set (blocks := List.concat _).
  assert (Hn : NoDup (map fst (sort_by ts_leb (drop_duplicates fst blocks)))).
  { eapply Permutation_NoDup; [|apply (drop_duplicates_NoDup fst blocks)].
    apply Permutation_map, Permutation_sym, sort_by_perm. }
  rewrite add_consumption_timestamps. repeat split.
  - apply strictly_sorted_of_NoDup; [|exact Hn].
    apply sort_by_sorted; [apply ts_leb_total | apply ts_leb_trans].
  - exact Hn.
  - apply Forall_forall. intros r Hin.
    apply In_nth_error in Hin as [i Hi].
    apply add_consumption_nth in Hi as (t & x & c & _ & _ & ->).
    apply fillna0_clamp_nonneg.
  - intros r Hh.
    assert (Hi : nth_error
                   (add_consumption dt
                      (sort_by ts_leb (drop_duplicates fst blocks)))
                   0 = Some r).
    { destruct (add_consumption _); [discriminate | exact Hh]. }
    apply add_consumption_nth in Hi as (t & x & c & Hd & Hc & ->). simpl.
    destruct (sort_by ts_leb (drop_duplicates fst blocks)); [discriminate|].
    simpl in Hc. now inversion Hc.
Qed.

Lemma load_flow_csv_invariants_witness :
  exists df,
    demo_load_flow_csv sample_flow_table = Ok df /\
    StronglySorted Z.lt (map timestamp (rows df)) /\
    NoDup (map timestamp (rows df)) /\
    Forall (fun r => fge (consumption r) (Fin 0) = true) (rows df) /\
    (forall r, hd_error (rows df) = Some r -> consumption r = Fin 0).
Proof.
  eexists. split; [vm_compute; reflexivity|].
  apply (load_flow_csv_invariants (map dmy_to_datetime) decimal_to_numeric
                                  decimal_dtype same_dtype sample_flow_table).
  vm_compute. reflexivity.
Defined.

(** In the series the flow parser returns, every totalizer is a number
    and the consumption at each position after the first is the difference
    to the totalizer of the reading just before it, as [diff] computes it
    in the dtype of the column, with a negative result replaced by 0; the
    base of a difference is the preceding totalizer whether or not the
    preceding consumption was clamped. *)
Lemma load_flow_csv_consumption_cells
      (to_datetime_series : list string -> list (option Z))
      (to_numeric : string -> float)
      (to_numeric_dtype : list string -> dtype)
      (concat_dtype : list (dtype * list (Z * float)) -> dtype)
      (raw : RawTable) (df : Frame FlowReading) :
  load_flow_csv to_datetime_series to_numeric to_numeric_dtype concat_dtype
                raw = Ok df ->
  let dt :=
    concat_dtype
      (collect_blocks to_datetime_series to_numeric to_numeric_dtype
                      (header_idxs raw) (raw_rows raw)) in
  (forall r, In r (rows df) -> isna (totalizer r) = false) /\
  (forall i a b,
      nth_error (rows df) i = Some a ->
      nth_error (rows df) (S i) = Some b ->
      consumption b =
        clamp_negative (diff_cell dt (totalizer b) (totalizer a))).
Proof.
  intros H dt. split.
  - intros r. eapply load_flow_csv_numbers. exact H.
  - intros i a b Ha Hb.
    assert (Na : isna (totalizer a) = false)
      by (eapply load_flow_csv_numbers; [exact H | eapply nth_error_In, Ha]).
    assert (Nb : isna (totalizer b) = false)
      by (eapply load_flow_csv_numbers; [exact H | eapply nth_error_In, Hb]).
    apply load_flow_csv_rows in H as [_ Hr]. rewrite Hr in Ha, Hb.
    fold dt in Ha, Hb. set (d := sort_by ts_leb _) in *.
    apply add_consumption_nth in Ha as (ta & xa & ca & Hda & _ & ->).
    apply add_consumption_nth in Hb as (tb & xb & cb & Hdb & Hcb & ->).
    assert (Hx : nth_error (diff dt (map snd d)) (S i)
                 = Some (diff_cell dt xb xa)).
    { apply diff_nth; rewrite nth_error_map;
        [rewrite Hda | rewrite Hdb]; reflexivity. }
    rewrite Hx in Hcb. injection Hcb as <-.
    cbn [consumption totalizer] in *.
    destruct xa, xb; try discriminate.
    destruct dt; cbn [diff_cell fsub];
      unfold clamp_negative; destruct (flt _ _); reflexivity.
Qed.

(** C3.  On the totalizers 100, 105, 103, 110 the flow parser gives the
    consumptions 0, 5, 0, 7, as the claim says.  In every series it
    returns, a consumption after the first is the difference to the
    preceding totalizer as [diff] computes it in the dtype of the column,
    clamped below at 0: on a float64 column that is the clamped difference
    of the claim.  On the table whose totalizer falls from 2^63 to 5 the
    column is a uint64 column, the difference wraps around to 2^63 + 5,
    nothing is clamped and the consumption is 9223372036854775813, where
    the claim and the comment in the code announce 0. *)
Theorem load_flow_csv_consumption_wraps :
  (exists s,
      demo_load_flow_csv sample_flow_table = Ok s /\
      map totalizer (rows s) = [Fin 100; Fin 105; Fin 103; Fin 110] /\
      map consumption (rows s) = [Fin 0; Fin 5; Fin 0; Fin 7]) /\
  (forall to_datetime_series to_numeric to_numeric_dtype concat_dtype raw df,
      load_flow_csv to_datetime_series to_numeric to_numeric_dtype
                    concat_dtype raw = Ok df ->
      forall i a b,
        nth_error (rows df) i = Some a ->
        nth_error (rows df) (S i) = Some b ->
        let dt :=
          concat_dtype
            (collect_blocks to_datetime_series to_numeric to_numeric_dtype
                            (header_idxs raw) (raw_rows raw)) in
        consumption b =
          clamp_negative (diff_cell dt (totalizer b) (totalizer a)) /\
        (dt = float64 ->
         consumption b =
           clamp_negative (fsub (totalizer b) (totalizer a)))) /\
  (exists s,
      demo_load_flow_csv wrapping_flow_table = Ok s /\
      map totalizer (rows s) = [Fin 9223372036854775808; Fin 5] /\
      map consumption (rows s) = [Fin 0; Fin 9223372036854775813] /\
      clamp_negative (fsub (Fin 5) (Fin 9223372036854775808)) = Fin 0).
Proof.
  split; [|split].
  - eexists. split; [vm_compute; reflexivity|]. split; reflexivity.
  - intros tds tn tnd cd raw df H i a b Ha Hb dt.
    destruct (load_flow_csv_consumption_cells tds tn tnd cd raw df H)
      as [_ Hc].
    specialize (Hc i a b Ha Hb). fold dt in Hc.
    split; [exact Hc|]. intros E. rewrite E in Hc. exact Hc.
  - eexists. split; [vm_compute; reflexivity|].
    split; [reflexivity|]. split; reflexivity.
Qed.

(** ** Claims about the quality parser *)

Lemma lower_char_d (a : ascii) :
  lower_char a = "d"%char -> a = "d"%char \/ a = "D"%char.
Proof.
  destruct a as [[] [] [] [] [] [] [] []]; vm_compute; intros H;
    try discriminate H; auto.
Qed.

(** A cell spelling "date" in any case is no parameter header: the pattern
    wants a digit first. *)
Lemma date_cell_no_param (c : string) :
  lower c = "date"%string -> PARAM_RE_match c = None.
Proof.
  destruct c as [|a s]; simpl; [discriminate|].
  intros [= Ha _]. apply lower_char_d in Ha as [-> | ->]; reflexivity.
Qed.

Section ScanFacts.
Variable to_datetime : string -> option Z.
Variable to_numeric : string -> float.
Variable py_float : string -> option float.

Let step := scan_row to_datetime to_numeric py_float.

Lemma scan_row_table_header (st : Scan) (r : list string)
      (c0 c1 c2 : string) (rest : list string) :
  active st = true ->
  nonempty_cells r = c0 :: c1 :: c2 :: rest ->
  lower c0 = "date"%string ->
  lower c1 = "time"%string ->
  step st r =
    mkScan (current_param st) (cur_safe_min st) (cur_safe_max st) true (out st).
Proof.
  intros Ha Hc H0 H1. unfold step, scan_row. rewrite Hc.
  rewrite (date_cell_no_param c0 H0), Ha. cbn [cell nth List.length].
  rewrite H0, H1. reflexivity.
Qed.

Lemma scan_row_data (st : Scan) (r : list string) (p : string)
      (c0 c1 c2 : string) (rest : list string) (t : Z) :
  in_table st = true ->
  current_param st = Some p ->
  p <> EmptyString ->
  nonempty_cells r = c0 :: c1 :: c2 :: rest ->
  PARAM_RE_match c0 = None ->
  String.eqb (lower c0) "date" && String.eqb (lower c1) "time" = false ->
  to_datetime (c0 ++ " " ++ c1)%string = Some t ->
  step st r =
    mkScan (current_param st) (cur_safe_min st) (cur_safe_max st) true
           (out st ++
            [mkOut (Some (t - TZ_offset)%Z) p (to_numeric (remove_commas c2))
                   (cur_safe_min st) (cur_safe_max st)]).
Proof.
  intros Hi Hp Hne Hc Hm Hh Ht. unfold step, scan_row. rewrite Hc, Hm.
  assert (Ha : active st = true).
  { unfold active. rewrite Hp. apply negb_true_iff, String.eqb_neq, Hne. }
  rewrite Ha, Hi, Hp. cbn [cell nth List.length].
  cbn [andb Nat.leb Nat.ltb]. rewrite Hh, Ht. reflexivity.
Qed.




(** Closes a goal [exists ext, l = l ++ ext] when nothing was appended. *)
Ltac nothing_appended := exists []; now rewrite app_nil_r.

Lemma scan_row_out (st : Scan) (r : list string) :
  exists ext, out (step st r) = out st ++ ext.
Proof.
  unfold step, scan_row.
  destruct (nonempty_cells r) as [|c0 rest]; [nothing_appended|].
  destruct (PARAM_RE_match c0) as [[g1 g2]|].
  - destruct (parse_safe_range py_float (strip g2)). nothing_appended.
  - destruct (_ && _); [nothing_appended|].
    destruct (_ && _); [|nothing_appended].
    destruct (_ <? _); [nothing_appended|].
    destruct (to_datetime _); [|nothing_appended].
    eexists. reflexivity.
Qed.

Lemma fold_scan_out (rs : list (list string)) :
  forall st, exists ext, out (fold_left step rs st) = out st ++ ext.
Proof.
  induction rs as [|r rs IH]; intros st; simpl.
  - nothing_appended.
  - destruct (IH (step st r)) as [e1 H1].
    destruct (scan_row_out st r) as [e2 H2].
    exists (e2 ++ e1). now rewrite H1, H2, app_assoc.
Qed.

Lemma load_quality_csv_rows (raw : RawTable) :
  rows (load_quality_csv to_datetime to_numeric py_float raw) =
  sort_by quality_leb
    (flat_map to_reading
       (out (scan to_datetime to_numeric py_float (raw_rows raw)))).
Proof.
  unfold load_quality_csv. destruct (out _); reflexivity.
Qed.

Lemma load_quality_csv_columns (raw : RawTable) :
  columns (load_quality_csv to_datetime to_numeric py_float raw) =
  quality_columns.
Proof.
  unfold load_quality_csv. destruct (out _); reflexivity.
Qed.



End ScanFacts.

(** C9 as stated fails for the flow parser on a table with fewer than
    three columns: no row of it is a header, and selecting the third
    column raises. *)
Lemma flow_parser_raises_on_narrow_table :
  (forall r, In r (raw_rows narrow_table) -> is_header r = false) /\
  demo_load_flow_csv narrow_table = Raise IndexError.
Proof.
  split; [|reflexivity].
  intros r [<-|[]]. reflexivity.
Qed.

(** C9, amended. A table of at least three columns none of whose rows is a
    block header makes the flow parser return the empty frame with the
    columns timestamp, totalizer, consumption; a table of any width none of
    whose rows starts with a parameter header makes the quality parser
    return the empty frame with the columns timestamp, parameter, value,
    safe_min, safe_max.  Neither raises. *)
Theorem parsers_empty_without_headers
        (to_datetime : string -> option Z)
        (to_datetime_series : list string -> list (option Z))
        (to_numeric : string -> float)
        (py_float : string -> option float)
        (to_numeric_dtype : list string -> dtype)
        (concat_dtype : list (dtype * list (Z * float)) -> dtype)
        (raw : RawTable) :
  (3 <= ncols raw ->
   (forall r, In r (raw_rows raw) -> is_header r = false) ->
   load_flow_csv to_datetime_series to_numeric to_numeric_dtype concat_dtype
                 raw =
     Ok (no_data flow_columns)) /\
  ((forall r c0 rest,
       In r (raw_rows raw) -> nonempty_cells r = c0 :: rest ->
       PARAM_RE_match c0 = None) ->
   load_quality_csv to_datetime to_numeric py_float raw =
     no_data quality_columns).
Proof.
  split.
  - intros Hw Hh. unfold load_flow_csv, header_idxs.
    destruct (Nat.ltb_spec (ncols raw) 3) as [Hlt|_]; [lia|].
    rewrite (header_positions_none _ Hh). reflexivity.
  - intros Hh. unfold load_quality_csv, scan.
    rewrite (scan_stuck to_datetime to_numeric py_float _ scan_init Hh eq_refl).
    reflexivity.
Qed.

Lemma parsers_empty_without_headers_witness :
  demo_load_flow_csv headerless_table = Ok (no_data flow_columns) /\
  demo_load_quality_csv headerless_table = no_data quality_columns.
Proof.
  destruct (parsers_empty_without_headers
              dmy_to_datetime (map dmy_to_datetime) decimal_to_numeric
              decimal_float decimal_dtype same_dtype headerless_table)
    as [Hf Hq].
  split.
  - apply Hf; [simpl; lia|]. intros r [<-|[]]. reflexivity.
  - apply Hq. intros r c0 rest [<-|[]] Hc. vm_compute in Hc.
    injection Hc as <- _. reflexivity.
Defined.




(** C7 as stated fails: a column-header row with only its two cells "Date"
    and "Time" filled in leaves [in_table] false, and the data row after it
    yields no reading. *)
Lemma two_cell_header_is_not_a_table_header :
  let st := demo_scan [humidity_header] in
  active st = true /\
  nonempty_cells ["Date"; "Time"; ""]%string = ["Date"; "Time"]%string /\
  in_table (demo_scan_row st ["Date"; "Time"; ""]%string) = false /\
  rows (demo_load_quality_csv two_cell_header_table) = [].
Proof. vm_compute. repeat split. Qed.

(** C7, amended. While a parameter is active, a row with at least three
    non-empty cells of which the first two spell "date" and "time" in any
    case sets [in_table] and adds no reading, and a data row right after it
    is appended as a reading of the active parameter; a row whose only two
    non-empty cells spell "date" and "time" changes nothing. *)
Theorem table_header_row_opens_table
        (to_datetime : string -> option Z) (to_numeric : string -> float)
        (py_float : string -> option float) (st : Scan) (p : string) :
  current_param st = Some p ->
  p <> EmptyString ->
  (forall r c0 c1 c2 rest,
      nonempty_cells r = c0 :: c1 :: c2 :: rest ->
      lower c0 = "date"%string ->
      lower c1 = "time"%string ->
      let st' := scan_row to_datetime to_numeric py_float st r in
      st' = mkScan (Some p) (cur_safe_min st) (cur_safe_max st) true (out st) /\
      (forall d e0 e1 e2 more t,
          nonempty_cells d = e0 :: e1 :: e2 :: more ->
          PARAM_RE_match e0 = None ->
          String.eqb (lower e0) "date" && String.eqb (lower e1) "time"
            = false ->
          to_datetime (e0 ++ " " ++ e1)%string = Some t ->
          out (scan_row to_datetime to_numeric py_float st' d) =
            out st ++
            [mkOut (Some (t - TZ_offset)%Z) p (to_numeric (remove_commas e2))
                   (cur_safe_min st) (cur_safe_max st)])) /\
  (forall r c0 c1,
      nonempty_cells r = [c0; c1] ->
      lower c0 = "date"%string ->
      lower c1 = "time"%string ->
      scan_row to_datetime to_numeric py_float st r = st).
Proof.
  intros Hp Hne.
  assert (Ha : active st = true).
  { unfold active. rewrite Hp. apply negb_true_iff, String.eqb_neq, Hne. }
  split.
  - intros r c0 c1 c2 rest Hc H0 H1 st'.
    assert (E : st' = mkScan (Some p) (cur_safe_min st) (cur_safe_max st) true
                             (out st)).
    { unfold st'.
      rewrite (scan_row_table_header _ _ _ st r c0 c1 c2 rest Ha Hc H0 H1).
      now rewrite Hp. }
    split; [exact E|].
    intros d e0 e1 e2 more t Hd Hm Hh Ht. rewrite E.
    rewrite (scan_row_data to_datetime to_numeric py_float
               (mkScan (Some p) (cur_safe_min st) (cur_safe_max st) true
                       (out st))
               d p e0 e1 e2 more t eq_refl eq_refl Hne Hd Hm Hh Ht).
    reflexivity.
  - intros r c0 c1 Hc H0 H1. unfold scan_row. rewrite Hc.
    rewrite (date_cell_no_param c0 H0). cbn [List.length Nat.leb Nat.ltb].
    rewrite andb_false_r. cbn [andb].
    destruct (in_table st && active st); reflexivity.
Qed.

Lemma table_header_row_opens_table_witness :
  demo_scan_row (demo_scan [humidity_header]) ["Date"; "Time"; "Value"]%string
  = mkScan (Some "HUMIDITY (HUMIDITY)"%string)
           (Some (Fin 30)) (Some (Fin 70)) true [].
Proof.
  pose proof (table_header_row_opens_table
            dmy_to_datetime decimal_to_numeric decimal_float
            (demo_scan [humidity_header]) "HUMIDITY (HUMIDITY)") as H.
  destruct H as [H _]; [vm_compute; reflexivity | discriminate |].
  specialize (H ["Date"; "Time"; "Value"]%string
                "Date"%string "Time"%string "Value"%string []
                eq_refl eq_refl eq_refl).
  cbv zeta in H. destruct H as [H _].
  vm_compute in H. vm_compute. exact H.
Defined.

(** ** Grouping *)

Section GroupFacts.
Context {A K : Type}.
Variable cmp : K -> K -> comparison.
Variable key : A -> K.
Hypothesis cmp_eq : forall a b, cmp a b = Eq <-> a = b.

Lemma insert_key_In (k k' : K) (ks : list K) :
  In k' (insert_key cmp k ks) <-> k' = k \/ In k' ks.
Proof.
  induction ks as [|h t IH]; simpl.
  - intuition.
  - destruct (cmp k h) eqn:E; simpl.
    + apply cmp_eq in E. subst h. intuition.
    + intuition.
    + rewrite IH. intuition.
Qed.

Lemma group_keys_In (l : list A) (k : K) :
  In k (group_keys cmp key l) <-> exists x, In x l /\ key x = k.
Proof.
  induction l as [|x xs IH]; simpl.
  - split; [contradiction | intros [? [[] _]]].
  - unfold group_keys in *. rewrite insert_key_In, IH. split.
    + intros [->|[y [Hy Hk]]]; [exists x; auto | exists y; auto].
    + intros [y [[<-|Hy] Hk]]; [now left | right; now exists y].
Qed.

Lemma groupby_In (l : list A) (k : K) (g : list A) :
  In (k, g) (groupby cmp key l) <->
  In k (group_keys cmp key l) /\ g = filter (same_key cmp key k) l.
Proof.
  unfold groupby. rewrite in_map_iff. split.
  - intros [k' [[= <- <-] Hk]]. auto.
  - intros [Hk ->]. now exists k.
Qed.

Lemma same_key_eq (k : K) (x : A) :
  same_key cmp key k x = true <-> key x = k.
Proof.
  unfold same_key. rewrite <- cmp_eq. destruct (cmp (key x) k); split;
    intros; congruence.
Qed.
End GroupFacts.

Lemma ascii_compare_refl (a : ascii) : Ascii.compare a a = Eq.
Proof. unfold Ascii.compare. apply N.compare_refl. Qed.

Lemma string_compare_eq (a b : string) : String.compare a b = Eq <-> a = b.
Proof.
  split; [apply String.compare_eq_iff|]. intros <-.
  induction a as [|c s IH]; simpl; [reflexivity|].
  now rewrite ascii_compare_refl.
Qed.

Lemma pair_compare_eq (a b : string * Z) : pair_compare a b = Eq <-> a = b.
Proof.
  destruct a as [s x], b as [t y]. unfold pair_compare. simpl. split.
  - destruct (String.compare s t) eqn:E; try discriminate.
    intros H. apply string_compare_eq in E. apply Z.compare_eq in H. congruence.
  - intros [= -> ->].
    rewrite (proj2 (string_compare_eq t t) eq_refl). apply Z.compare_refl.
Qed.

(** ** The compliance rollup *)

Lemma same_key_in_group (p : string) (d : Z) (r : QualityReading) :
  same_key pair_compare compliance_key (p, d) r = in_group p d r.
Proof.
  unfold in_group.
  destruct (same_key _ _ _ r) eqn:E.
  - apply (same_key_eq _ _ pair_compare_eq) in E. injection E as -> ->.
    now rewrite String.eqb_refl, Z.eqb_refl.
  - destruct (String.eqb_spec (parameter r) p) as [Hp|]; [|reflexivity].
    destruct (Z.eqb_spec (quality_date r) d) as [Hd|]; [|reflexivity].
    assert (H : same_key pair_compare compliance_key (p, d) r = true)
      by (apply (same_key_eq _ _ pair_compare_eq); unfold compliance_key;
          congruence).
    congruence.
Qed.

Lemma compliance_rows (q : list QualityReading) (row : ComplianceRow) :
  In row (quality_daily_compliance q) <->
  exists p d,
    (exists r, In r q /\ parameter r = p /\ quality_date r = d) /\
    row = compliance_row ((p, d), filter (in_group p d) q).
Proof.
  unfold quality_daily_compliance. rewrite sort_by_In, in_map_iff. split.
  - intros [[[p d] g] [<- Hin]].
    apply groupby_In in Hin as [Hk ->].
    apply (group_keys_In _ _ pair_compare_eq) in Hk as [r [Hr Hkey]].
    exists p, d. split.
    + exists r. unfold compliance_key in Hkey. injection Hkey as <- <-. auto.
    + f_equal. f_equal. apply filter_ext. intros x. apply same_key_in_group.
  - intros (p & d & (r & Hr & Hp & Hd) & ->).
    exists ((p, d), filter (same_key pair_compare compliance_key (p, d)) q).
    split.
    + f_equal. f_equal. apply filter_ext. intros x. apply same_key_in_group.
    + apply groupby_In. split; [|reflexivity].
      apply (group_keys_In _ _ pair_compare_eq). exists r. split; [exact Hr|].
      unfold compliance_key. congruence.
Qed.

Lemma count_false_filter {A : Type} (f : A -> bool) (l : list A) :
  count_false (map f l) = List.length (filter (fun x => negb (f x)) l).
Proof.
  unfold count_false. induction l as [|x xs IH]; simpl; [reflexivity|].
  destruct (f x); simpl; now rewrite IH.
Qed.

Lemma in_range_iff (r : QualityReading) :
  in_range r = true <->
  exists lo v hi,
    safe_min r = Fin lo /\ value r = Fin v /\ safe_max r = Fin hi /\
    (lo <= v)%Q /\ (v <= hi)%Q.
Proof.
  unfold in_range, fge, fle. rewrite andb_true_iff. split.
  - intros [H1 H2].
    destruct (value r) as [|v]; [discriminate|].
    destruct (safe_min r) as [|lo]; [discriminate|].
    destruct (safe_max r) as [|hi]; [discriminate|].
    apply Qle_bool_iff in H1, H2. exists lo, v, hi. auto.
  - intros (lo & v & hi & -> & -> & -> & H1 & H2).
    now rewrite !Qle_bool_iff.
Qed.

Lemma in_range_null_bound (r : QualityReading) :
  safe_min r = NaN \/ safe_max r = NaN -> in_range r = false.
Proof.
  unfold in_range, fge, fle.
  intros [-> | ->]; destruct (value r); simpl; try reflexivity;
    apply andb_false_r.
Qed.


(** On the rows of a frame whose bound columns are float columns: a reading
    is in range exactly when its value and both bounds are
    numbers with safe_min <= value <= safe_max; a reading with a null bound
    is never in range; and the breach count of every row of the rollup is
    the number of readings of that parameter and day that are not in
    range, every reading belonging to the row of its parameter and day. *)
Theorem compliance_in_range_and_breaches (q : list QualityReading) :
  (forall r,
      in_range r = true <->
      exists lo v hi,
        safe_min r = Fin lo /\ value r = Fin v /\ safe_max r = Fin hi /\
        (lo <= v)%Q /\ (v <= hi)%Q) /\
  (forall r, safe_min r = NaN \/ safe_max r = NaN -> in_range r = false) /\
  (forall row,
      In row (quality_daily_compliance q) ->
      breaches row =
        List.length
          (filter (fun r => negb (in_range r))
                  (filter (in_group (c_parameter row) (c_date row)) q)) /\
      c_readings row =
        List.length (filter (in_group (c_parameter row) (c_date row)) q)) /\
  (forall r,
      In r q ->
      exists row,
        In row (quality_daily_compliance q) /\
        c_parameter row = parameter r /\ c_date row = quality_date r).
Proof.
  split; [exact in_range_iff|]. split; [exact in_range_null_bound|]. split.
  - intros row Hin. apply compliance_rows in Hin as (p & d & _ & ->).
    cbn [compliance_row c_parameter c_date breaches c_readings fst snd].
    now rewrite count_false_filter, length_map.
  - intros r Hr. eexists. split.
    + apply compliance_rows. exists (parameter r), (quality_date r).
      split; [now exists r | reflexivity].
    + split; reflexivity.
Qed.

Lemma compliance_in_range_and_breaches_witness :
  exists row,
    In row (quality_daily_compliance sample_quality) /\
    c_parameter row = "TDS (TDS)"%string /\
    breaches row = 1 /\ c_readings row = 3.
Proof.
  destruct (compliance_in_range_and_breaches sample_quality)
    as (_ & _ & Hcount & Hrow).
  destruct (Hrow (reading_at 0 (Fin 10)) (or_introl eq_refl))
    as (row & Hin & Hp & Hd).
  exists row. destruct (Hcount row Hin) as [Hb Hn].
  rewrite Hb, Hn, Hp, Hd. repeat split; try assumption.
Defined.

(** Readings 10, 25, 30 with the safe range 20 to 40 on one day: two
    thirds in range, one breach. *)
Example compliance_of_sample :
  quality_daily_compliance sample_quality =
  [mkCompliance "TDS (TDS)" 19723 (Fin (200 # 3)) 1 3
                (Fin (65 # 3)) (Fin 10) (Fin 30)].
Proof. vm_compute. reflexivity. Qed.

(** On a frame whose bound columns are float columns and whose time stamps
    are a datetime column, the rollup is the one computed from the rows. *)
Lemma quality_daily_compliance_typed (q : Frame QualityReading) :
  OnFrame.compare_bounds q = Ok tt ->
  OnFrame.dt q = Ok tt ->
  OnFrame.quality_daily_compliance q = Ok (quality_daily_compliance (rows q)).
Proof.
  intros Hb Hd. unfold OnFrame.quality_daily_compliance. now rewrite Hb, Hd.
Qed.

(** C5. The rollup does not classify the readings of a file none of whose
    safe ranges parses.  The header [Safe Range: (30 TO 70)] matches the
    parameter pattern, [_parse_safe_range] splits on the lower-case [to] and
    returns [(None, None)], so both bound columns of the frame hold [None]
    only and are object columns; [q["value"] >= q["safe_min"]] then raises
    [TypeError] and no breach is counted.  The same two readings after a
    parameter whose range parses sit in float columns with null bounds:
    neither is in range and the breach count of their day is 2, as it is
    for every frame without an object bound column. *)
Theorem quality_daily_compliance_raises_on_unparsed_ranges :
  let q := demo_load_quality_csv unparsed_range_table in
  map (fun r => (parameter r, value r)) (rows q)
    = [("HUMIDITY (HUMIDITY)"%string, Fin 50);
       ("HUMIDITY (HUMIDITY)"%string, Fin 80)] /\
  out (scan dmy_to_datetime decimal_to_numeric decimal_float
            (raw_rows unparsed_range_table))
    = [mkOut (Some 1704047400000000000%Z) "HUMIDITY (HUMIDITY)" (Fin 50)
             None None;
       mkOut (Some 1704047700000000000%Z) "HUMIDITY (HUMIDITY)" (Fin 80)
             None None] /\
  object_columns q = ["safe_min"; "safe_max"]%string /\
  OnFrame.quality_daily_compliance q = Raise TypeError /\
  let q' := demo_load_quality_csv one_parsed_range_table in
  object_columns q' = [] /\
  forallb (fun r => negb (String.eqb (parameter r) "HUMIDITY (HUMIDITY)") ||
                    negb (in_range r)) (rows q') = true /\
  OnFrame.quality_daily_compliance q' =
  Ok [mkCompliance "HUMIDITY (HUMIDITY)" 19723 (Fin (0 # 2)) 2 2
                   (Fin (130 # 2)) (Fin 50) (Fin 80);
      mkCompliance "TDS (TDS)" 19723 (Fin 100) 0 1
                   (Fin 100) (Fin 100) (Fin 100)].
Proof.
  cbv zeta. repeat split; vm_compute; reflexivity.
Qed.



Lemma count_true_le (s : list bool) : count_true s <= List.length s.
Proof. apply filter_length_le. Qed.

Lemma inject_nat_pos (n : nat) : (0 < inject_Z (Z.of_nat (S n)))%Q.
Proof. change 0%Q with (inject_Z 0). rewrite <- Zlt_Qlt. lia. Qed.

Lemma of_nat_succ_nonzero (n : nat) :
  Qeq_bool (inject_Z (Z.of_nat (S n))) 0 = false.
Proof.
  destruct (Qeq_bool _ _) eqn:E; [|reflexivity].
  apply Qeq_bool_iff in E. pose proof (inject_nat_pos n) as H.
  rewrite E in H. now apply Qlt_irrefl in H.
Qed.




(** ** Segmentation into runs *)

Lemma shift_cons (b : bool) (p : option bool) (s : list bool) :
  combine (b :: s) (p :: map Some (removelast (b :: s))) =
  (b, p) :: combine s (Some b :: map Some (removelast s)).
Proof. destruct s; reflexivity. Qed.

Lemma cumsum_ids (s : list bool) :
  forall acc p,
    cumsum acc
      (map (fun xy => differs (fst xy) (snd xy))
           (combine s (p :: map Some (removelast s)))) =
    ids_from acc p s.
Proof.
  induction s as [|b s IH]; intros acc p; [reflexivity|].
  rewrite shift_cons. cbn [map cumsum ids_from fst snd]. f_equal. apply IH.
Qed.

Lemma run_id_ids (s : list bool) : run_id s = ids_from 0 None s.
Proof.
  unfold run_id, shift1. destruct s as [|b s]; [reflexivity|].
  apply cumsum_ids.
Qed.

Lemma ids_from_length (s : list bool) :
  forall acc p, List.length (ids_from acc p s) = List.length s.
Proof. induction s as [|b s IH]; intros; simpl; [|rewrite IH]; reflexivity. Qed.

Lemma ids_from_ge (s : list bool) :
  forall acc p, Forall (le acc) (ids_from acc p s).
Proof.
  induction s as [|b s IH]; intros acc p; simpl; constructor.
  - destruct (differs b p); lia.
  - eapply Forall_impl; [|apply IH]. intros k Hk.
    simpl in Hk. destruct (differs b p); lia.
Qed.

Lemma ids_from_sorted (s : list bool) :
  forall acc p, StronglySorted le (ids_from acc p s).
Proof.
  induction s as [|b s IH]; intros acc p; simpl; constructor.
  - apply IH.
  - apply ids_from_ge.
Qed.

Section ChunkFacts.
Context {A : Type}.
Variable key : A -> nat.

Lemma chunk_head (x : A) (xs : list A) :
  exists g rest, chunk key (x :: xs) = (key x, x :: g) :: rest.
Proof.
  simpl. destruct (chunk key xs) as [|[k g] rest]; [now exists [], []|].
  destruct (Nat.eqb_spec (key x) k) as [Ek|_]; [rewrite <- Ek|]; eauto.
Qed.

Lemma chunk_keys_In (l : list A) (k : nat) :
  In k (map fst (chunk key l)) -> In k (map key l).
Proof.
  induction l as [|x xs IH]; simpl; [auto|].
  destruct (chunk key xs) as [|[k' g] rest].
  - simpl. intros [<-|[]]. now left.
  - destruct (Nat.eqb_spec (key x) k') as [E|_]; simpl in *.
    + intros H. right. apply IH. exact H.
    + intros [<-|H]; [now left | right; now apply IH].
Qed.

Lemma chunk_keys_sorted (l : list A) :
  StronglySorted le (map key l) -> StronglySorted lt (map fst (chunk key l)).
Proof.
  induction l as [|x xs IH]; simpl; intros Hs; [constructor|].
  apply StronglySorted_inv in Hs as [Hs Hx]. specialize (IH Hs).
  destruct (chunk key xs) as [|[k g] rest] eqn:E.
  - repeat constructor.
  - destruct (Nat.eqb_spec (key x) k) as [_|Hne]; [exact IH|].
    simpl in *. constructor; [exact IH|].
    assert (Hk : key x < k).
    { assert (In k (map key xs))
        by (apply chunk_keys_In; rewrite E; now left).
      rewrite Forall_forall in Hx. specialize (Hx k H). lia. }
    constructor; [exact Hk|].
    apply StronglySorted_inv in IH as [_ IH].
    eapply Forall_impl; [|exact IH]. intros; lia.
Qed.

(** On a list whose keys never decrease, grouping by key cuts the list
    into its blocks of equal keys. *)
Lemma groupby_chunk (l : list A) :
  StronglySorted le (map key l) -> groupby Nat.compare key l = chunk key l.
Proof.
  induction l as [|x xs IH]; intros Hs; [reflexivity|].
  pose proof (chunk_keys_sorted xs) as Hks.
  apply StronglySorted_inv in Hs as [Hs Hx].
  specialize (IH Hs). specialize (Hks Hs).
  assert (Hkeys : group_keys Nat.compare key xs = map fst (chunk key xs)).
  { rewrite <- IH. unfold groupby. rewrite map_map. simpl.
    now rewrite map_id. }
  assert (Hfilter : forall k,
             k <> key x ->
             filter (same_key Nat.compare key k) (x :: xs) =
             filter (same_key Nat.compare key k) xs).
  { intros k Hk. cbn [filter].
    destruct (same_key Nat.compare key k x) eqn:E; [|reflexivity].
    apply (same_key_eq _ _ Nat.compare_eq_iff) in E. congruence. }
  unfold groupby in *. cbn [group_keys fold_right].
  change (fold_right (fun x acc => insert_key Nat.compare (key x) acc) [] xs)
    with (group_keys Nat.compare key xs).
  rewrite Hkeys in *. cbn [chunk].
  destruct (chunk key xs) as [|[k g] rest] eqn:E.
  - cbn [map insert_key filter].
    assert (xs = []) as ->.
    { destruct xs as [|y ys]; [reflexivity|].
      destruct (chunk_head y ys) as (g' & r' & H). congruence. }
    unfold same_key. now rewrite Nat.compare_refl.
  - cbn [map fst insert_key] in IH, Hks, Hkeys |- *.
    injection IH as Hg Hrest.
    apply StronglySorted_inv in Hks as [_ Hlt].
    assert (Hle : key x <= k).
    { assert (In k (map key xs))
        by (apply chunk_keys_In; rewrite E; now left).
      rewrite Forall_forall in Hx. now apply Hx. }
    assert (Hrest' :
              map (fun k0 => (k0, filter (same_key Nat.compare key k0)
                                         (x :: xs))) (map fst rest) = rest).
    { rewrite <- Hrest at 2. apply map_ext_in. intros k' Hk'.
      rewrite Hfilter; [reflexivity|].
      rewrite Forall_forall in Hlt. specialize (Hlt k' Hk'). lia. }
    destruct (Nat.eqb_spec (key x) k) as [Ek|Hne].
    + rewrite Ek, Nat.compare_refl. cbn [map]. rewrite Hrest'.
      cbn [filter]. unfold same_key at 1. rewrite Ek, Nat.compare_refl.
      now rewrite Hg.
    + destruct (Nat.compare_spec (key x) k) as [|Hlt'|]; try lia.
      cbn [map]. rewrite Hrest', (Hfilter k) by lia. rewrite Hg.
      f_equal. f_equal. cbn [filter]. unfold same_key at 1.
      rewrite Nat.compare_refl. f_equal.
      rewrite (filter_ext_in _ (fun _ => false)); [apply filter_false|].
      intros y Hy.
      destruct (same_key Nat.compare key (key x) y) eqn:Ey; [|reflexivity].
      apply (same_key_eq _ _ Nat.compare_eq_iff) in Ey.
      assert (k <= key y); [|lia].
      destruct xs as [|z zs]; [contradiction|].
      destruct (chunk_head z zs) as (g' & r' & Hz).
      rewrite E in Hz. injection Hz as -> _ _.
      destruct Hy as [<-|Hy]; [lia|].
      apply StronglySorted_inv in Hs as [_ Hz]. rewrite Forall_forall in Hz.
      apply Hz. now apply in_map.
Qed.

Lemma chunk_concat (l : list A) : List.concat (map snd (chunk key l)) = l.
Proof.
  induction l as [|x xs IH]; [reflexivity|]. simpl.
  destruct (chunk key xs) as [|[k g] rest]; simpl in *.
  - now rewrite <- IH.
  - destruct (key x =? k); simpl; now rewrite <- IH.
Qed.
End ChunkFacts.

(** The chunks of the rows tagged with their run identifiers are the runs
    of the flag. *)
Lemma chunk_ids_runs {A : Type} (f : A -> bool) (g : list A) :
  forall acc p,
    map (fun kg => map fst (snd kg))
        (chunk snd (combine g (ids_from acc p (map f g)))) =
    runs_by f g.
Proof.
  induction g as [|x xs IH]; intros acc p; [reflexivity|].
  cbn [map ids_from combine chunk runs_by].
  set (acc' := if differs (f x) p then S acc else acc).
  specialize (IH acc' (Some (f x))).
  destruct xs as [|y ys]; [reflexivity|].
  cbn [map ids_from combine] in *.
  set (acc'' := if differs (f y) (Some (f x)) then S acc' else acc') in *.
  destruct (chunk_head snd (y, acc'') (combine ys (ids_from acc'' (Some (f y))
                                                      (map f ys))))
    as (g' & rest & Hc).
  rewrite Hc in *. cbn [map fst snd] in IH. rewrite <- IH. cbn [snd].
  unfold acc''. cbn [differs].
  destruct (Bool.eqb (f y) (f x)) eqn:E.
  - apply Bool.eqb_prop in E. rewrite E, Bool.eqb_reflx. cbn [negb].
    now rewrite Nat.eqb_refl.
  - assert (E' : Bool.eqb (f x) (f y) = false)
      by (destruct (f x), (f y); simpl in *; congruence).
    rewrite E'. cbn [negb].
    destruct (Nat.eqb_spec acc' (S acc')) as [H|_]; [lia | reflexivity].
Qed.

Lemma map_snd_combine {A B : Type} (l : list A) (l' : list B) :
  List.length l = List.length l' -> map snd (combine l l') = l'.
Proof.
  revert l'. induction l as [|a l IH]; intros [|b l'] H; simpl in *;
    try discriminate; [reflexivity|].
  f_equal. apply IH. now injection H.
Qed.

(** The segments the loop of [quality_breach_events] visits are the
    maximal runs of readings with the same in-range flag. *)
Lemma segments_runs (g : list QualityReading) :
  segments g = runs_by in_range g.
Proof.
  unfold segments. rewrite run_id_ids, groupby_chunk.
  - apply chunk_ids_runs.
  - rewrite map_snd_combine
      by (now rewrite ids_from_length, length_map).
    apply ids_from_sorted.
Qed.

Lemma runs_by_concat {A : Type} (f : A -> bool) (l : list A) :
  List.concat (runs_by f l) = l.
Proof.
  induction l as [|x xs IH]; [reflexivity|]. simpl.
  destruct (runs_by f xs) as [|[|y g] rest]; simpl in *.
  - now rewrite <- IH.
  - now rewrite <- IH.
  - destruct (Bool.eqb (f x) (f y)); simpl; now rewrite <- IH.
Qed.

(** Every run is non-empty and carries one flag. *)
Lemma runs_by_constant {A : Type} (f : A -> bool) (l : list A) :
  Forall (fun seg => exists x rest,
              seg = x :: rest /\ Forall (fun y => f y = f x) seg)
         (runs_by f l).
Proof.
  induction l as [|x xs IH]; [constructor|]. simpl.
  destruct (runs_by f xs) as [|[|y g] rest].
  - repeat constructor. exists x, []. split; [reflexivity|]. now repeat constructor.
  - apply Forall_cons_iff in IH as [(? & ? & [=] & _) _].
  - apply Forall_cons_iff in IH as [(y' & r' & [= <- <-] & Hy) Hrest].
    destruct (Bool.eqb (f x) (f y)) eqn:E.
    + constructor; [|exact Hrest]. apply Bool.eqb_prop in E.
      exists x, (y :: g). split; [reflexivity|].
      constructor; [reflexivity|].
      eapply Forall_impl; [|exact Hy]. intros z Hz. congruence.
    + constructor.
      * exists x, []. split; [reflexivity|]. now repeat constructor.
      * constructor; [|exact Hrest]. now exists y, g.
Qed.

(** Runs are maximal: two neighbouring runs carry different flags. *)
Lemma runs_by_maximal {A : Type} (f : A -> bool) (l : list A) :
  forall pre s1 s2 post x y,
    runs_by f l = pre ++ s1 :: s2 :: post ->
    In x s1 -> In y s2 -> f x <> f y.
Proof.
  induction l as [|a xs IH]; intros pre s1 s2 post x y Hr Hx Hy.
  - destruct pre; discriminate Hr.
  - simpl in Hr.
    pose proof (runs_by_constant f xs) as Hc.
    destruct (runs_by f xs) as [|[|b g] rest] eqn:E.
    + destruct pre as [|? [|? ?]]; discriminate Hr.
    + apply Forall_cons_iff in Hc as [(? & ? & [=] & _) _].
    + apply Forall_cons_iff in Hc as [(b' & g' & [= <- <-] & Hb) _].
      rewrite Forall_forall in Hb.
      destruct (Bool.eqb (f a) (f b)) eqn:Eab.
      * apply Bool.eqb_prop in Eab. destruct pre as [|p0 pre].
        -- injection Hr as <- Hrest.
           assert (Hx' : f x = f b).
           { destruct Hx as [<-|Hx]; [exact Eab | now apply Hb]. }
           rewrite Hx'.
           apply (IH [] (b :: g) s2 post b y); [|now left | exact Hy].
           now rewrite <- Hrest.
        -- injection Hr as _ Hrest.
           apply (IH ((b :: g) :: pre) s1 s2 post x y); try assumption.
           simpl. now rewrite <- Hrest.
      * destruct pre as [|p0 pre].
        -- injection Hr as <- <- _.
           destruct Hx as [<-|[]]. rewrite (Hb y Hy).
           intros Heq. rewrite Heq, Bool.eqb_reflx in Eab. discriminate.
        -- injection Hr as _ Hrest.
           apply (IH pre s1 s2 post x y); assumption.
Qed.

(** ** Breach events *)

(** The segment test compares a NumPy scalar with the Python singleton
    [False] by identity, so no segment ever passes it. *)
Lemma segment_event_nil (param : string) (seg : list QualityReading) :
  segment_event param seg = [].
Proof. destruct seg as [|first rest]; reflexivity. Qed.

Lemma flat_map_nil {A B : Type} (f : A -> list B) (l : list A) :
  (forall x, f x = []) -> flat_map f l = [].
Proof.
  intros H. induction l as [|x xs IH]; simpl; [reflexivity|].
  now rewrite H, IH.
Qed.

Lemma quality_breach_events_never_emits (quality : list QualityReading) :
  quality_breach_events quality = no_data breach_columns.
Proof.
  unfold quality_breach_events.
  rewrite flat_map_nil; [reflexivity|].
  intros pg. apply flat_map_nil. intros seg. apply segment_event_nil.
Qed.

(** The row built for a run of one reading: it starts and ends at the
    reading, lasts zero minutes and counts one reading. *)
Lemma breach_row_single (param : string) (r : QualityReading) :
  b_start (breach_row param r [r]) = q_timestamp r /\
  b_end (breach_row param r [r]) = q_timestamp r /\
  feqb (duration_min (breach_row param r [r])) (Fin 0) = true /\
  readings (breach_row param r [r]) = 1.
Proof.
  unfold breach_row, minutes_between. cbn [last b_start b_end duration_min
                                            readings List.length].
  rewrite Z.sub_diag. repeat split.
Qed.

(** C1: the code at a series holding one reading below its safe range.
    The reading is out of range and is a segment by itself, for which the
    claim announces one event of duration zero (the row [breach_row]
    builds); the identity test discards the segment and the function
    returns the empty frame, as it does on every series. *)
Theorem quality_breach_events_misses_single_breach :
  map in_range single_breach = [false] /\
  segments single_breach = [single_breach] /\
  segment_event "TDS (TDS)" single_breach = [] /\
  rows (quality_breach_events single_breach) = [] /\
  (forall quality, rows (quality_breach_events quality) = []).
Proof.
  split; [reflexivity|]. split; [reflexivity|]. split; [reflexivity|].
  split; [reflexivity|].
  intros quality. now rewrite quality_breach_events_never_emits.
Qed.

(** ** Correlation *)

Lemma same_key_Z {A : Type} (key : A -> Z) (k : Z) (x : A) :
  same_key Z.compare key k x = (key x =? k)%Z.
Proof.
  unfold same_key. rewrite Z.eqb_compare. now destruct (key x ?= k)%Z.
Qed.

Lemma flow_daily_rows (flow : list FlowReading) (row : DailyRow) :
  In row (flow_daily flow) ->
  (exists f, In f flow /\ flow_date f = d_date row) /\
  total_consumption row =
    fsum (map consumption
              (filter (fun f => (flow_date f =? d_date row)%Z) flow)).
Proof.
  unfold flow_daily. rewrite sort_by_In, in_map_iff.
  intros [[d g] [<- Hin]]. apply groupby_In in Hin as [Hk ->].
  apply (group_keys_In _ _ Z.compare_eq_iff) in Hk as [f [Hf Hd]].
  cbn [d_date total_consumption fst snd]. split; [now exists f|].
  f_equal. f_equal. apply filter_ext. intros x. apply same_key_Z.
Qed.

Lemma flow_daily_has_date (flow : list FlowReading) (f : FlowReading) :
  In f flow -> exists row, In row (flow_daily flow) /\ d_date row = flow_date f.
Proof.
  intros Hf. unfold flow_daily.
  eexists. rewrite sort_by_In, in_map_iff. split.
  - eexists (flow_date f, _). split; [reflexivity|].
    apply groupby_In. split; [|reflexivity].
    apply (group_keys_In _ _ Z.compare_eq_iff). now exists f.
  - reflexivity.
Qed.

Lemma merge_inner_In (fd : list DailyRow) (hd : list (Z * float))
      (j : JoinedRow) :
  In j (merge_inner fd hd) <->
  exists d h,
    In d fd /\ In h hd /\ fst h = d_date d /\
    j = mkJoined (d_date d) (total_consumption d) (snd h).
Proof.
  unfold merge_inner. rewrite in_flat_map. split.
  - intros [d [Hd Hin]]. apply in_map_iff in Hin as [h [<- Hh]].
    apply filter_In in Hh as [Hh He]. apply Z.eqb_eq in He.
    now exists d, h.
  - intros (d & h & Hd & Hh & He & ->). exists d. split; [exact Hd|].
    apply in_map_iff. exists h. split; [reflexivity|].
    apply filter_In. split; [exact Hh | now apply Z.eqb_eq].
Qed.

Lemma daily_means_In (h : list QualityReading) (d : Z) (m : float) :
  In (d, m)
     (map (fun kg => (fst kg, fmean (map value (snd kg))))
          (groupby Z.compare quality_date h)) <->
  (exists r, In r h /\ quality_date r = d) /\
  m = fmean (map value (filter (fun r => (quality_date r =? d)%Z) h)).
Proof.
  rewrite in_map_iff. split.
  - intros [[k g] [[= <- <-] Hin]]. apply groupby_In in Hin as [Hk ->].
    apply (group_keys_In _ _ Z.compare_eq_iff) in Hk. split; [exact Hk|].
    cbn [snd]. f_equal. f_equal. apply filter_ext. intros x. apply same_key_Z.
  - intros [Hk ->].
    exists (d, filter (same_key Z.compare quality_date d) h). split.
    + cbn [fst snd]. f_equal. f_equal. f_equal. apply filter_ext.
      intros x. apply same_key_Z.
    + apply groupby_In. split; [|reflexivity].
      now apply (group_keys_In _ _ Z.compare_eq_iff).
Qed.

(** C4 as stated fails twice.  When exactly one day joins, the
    correlation is null but the joined table returned has that day's row.
    And on the frame the flow parser returns for a table without header
    rows, whose time stamp column has dtype [object], the function raises
    [AttributeError]. *)
Lemma one_joined_day_table_not_empty :
  OnFrame.humidity_vs_flow_daily pearson_exact
    (mkFrame flow_columns [] [flow_on_day 0 (Fin 10)])
    (mkFrame quality_columns [] [humidity_on_day 0 (Fin 40)]) humidity_name =
  Ok (mkFrame joined_columns [] [mkJoined 19723 (Fin 10) (Fin 40)], None) /\
  demo_load_flow_csv headerless_table = Ok (no_data flow_columns) /\
  OnFrame.humidity_vs_flow_daily pearson_exact
    (no_data flow_columns)
    (mkFrame quality_columns [] [humidity_on_day 0 (Fin 40)]) humidity_name =
  Raise AttributeError.
Proof. split; [vm_compute; reflexivity|]. split; reflexivity. Qed.

Section CorrelationFacts.
Variable series_corr : list float -> list float -> float.
Variable flow : list FlowReading.
Variable quality : list QualityReading.
Variable name : string.

Let res := humidity_vs_flow_daily series_corr flow quality name.
Let h := filter (fun r => String.eqb (parameter r) name) quality.
Let hd :=
  map (fun kg => (fst kg, fmean (map value (snd kg))))
      (groupby Z.compare quality_date h).
Let merged := merge_inner (flow_daily flow) hd.

Lemma humidity_absent : h = [] -> res = (no_data joined_columns, None).
Proof.
  unfold res, humidity_vs_flow_daily. fold h. now intros ->.
Qed.

Lemma humidity_present :
  h <> [] ->
  res =
    (mkFrame joined_columns [] merged,
     if (2 <=? List.length merged) && existsb notna (map humidity merged)
     then Some (series_corr (map j_total_consumption merged)
                            (map humidity merged))
     else None).
Proof.
  unfold res, humidity_vs_flow_daily. fold h. unfold merged, hd.
  generalize h. intros [|x l]; [congruence | reflexivity].
Qed.

Lemma hd_empty : h = [] -> merged = [].
Proof.
  intros E. unfold merged, hd. rewrite E. cbn.
  unfold merge_inner. apply flat_map_nil. reflexivity.
Qed.

Lemma res_rows : rows (fst res) = merged /\ columns (fst res) = joined_columns.
Proof.
  assert (D : h = [] \/ h <> [])
    by (generalize h; intros [|x l]; [left; reflexivity | right; discriminate]).
  destruct D as [E|E].
  - rewrite (humidity_absent E), (hd_empty E). split; reflexivity.
  - rewrite (humidity_present E). split; reflexivity.
Qed.

Lemma h_In (r : QualityReading) :
  In r h <-> In r quality /\ parameter r = name.
Proof. unfold h. now rewrite filter_In, String.eqb_eq. Qed.

Lemma merged_rows (row : JoinedRow) :
  In row merged ->
  (exists f, In f flow /\ flow_date f = j_date row) /\
  (exists r, In r quality /\ parameter r = name /\ quality_date r = j_date row) /\
  j_total_consumption row =
    fsum (map consumption
              (filter (fun f => (flow_date f =? j_date row)%Z) flow)) /\
  humidity row =
    fmean (map value (filter (fun r => (quality_date r =? j_date row)%Z) h)).
Proof.
  intros Hin. apply merge_inner_In in Hin as (d & [k m] & Hd & Hh & He & ->).
  cbn [fst snd] in *. subst k. cbn [j_date j_total_consumption humidity].
  apply flow_daily_rows in Hd as [Hf Ht].
  apply daily_means_In in Hh as [[r [Hr Hq]] Hm].
  apply h_In in Hr as [Hr Hp].
  repeat split; try assumption. now exists r.
Qed.

Lemma merged_has_day (f : FlowReading) (r : QualityReading) :
  In f flow -> In r quality -> parameter r = name ->
  quality_date r = flow_date f ->
  In (flow_date f) (map j_date merged).
Proof.
  intros Hf Hr Hp Hd.
  destruct (flow_daily_has_date flow f Hf) as [row [Hrow Hdate]].
  apply in_map_iff.
  exists (mkJoined (d_date row) (total_consumption row)
            (fmean (map value
               (filter (fun x => (quality_date x =? d_date row)%Z) h)))).
  split; [exact Hdate|].
  apply merge_inner_In. eexists row, (d_date row, _).
  split; [exact Hrow|]. split; [|split; reflexivity].
  apply daily_means_In. split; [|reflexivity].
  exists r. split; [now apply h_In | congruence].
Qed.
End CorrelationFacts.

(** What [humidity_vs_flow_daily] returns on the rows of frames with
    datetime time stamps: the empty table and a null correlation when no
    reading carries the named parameter, and the inner join with its
    correlation otherwise. *)
Lemma humidity_vs_flow_daily_rows
        (series_corr : list float -> list float -> float)
        (flow : list FlowReading) (quality : list QualityReading)
        (name : string) :
  let res := humidity_vs_flow_daily series_corr flow quality name in
  let merged := rows (fst res) in
  columns (fst res) = joined_columns /\
  ((forall r, In r quality -> parameter r <> name) ->
   res = (no_data joined_columns, None)) /\
  (forall d,
      In d (map j_date merged) <->
      (exists f, In f flow /\ flow_date f = d) /\
      (exists r, In r quality /\ parameter r = name /\ quality_date r = d)) /\
  (forall row,
      In row merged ->
      j_total_consumption row =
        fsum (map consumption
                  (filter (fun f => (flow_date f =? j_date row)%Z) flow)) /\
      humidity row =
        fmean (map value
                   (filter (fun r => (quality_date r =? j_date row)%Z)
                           (filter (fun r => String.eqb (parameter r) name)
                                   quality)))) /\
  (List.length merged < 2 -> snd res = None) /\
  (existsb notna (map humidity merged) = false -> snd res = None) /\
  (2 <= List.length merged ->
   existsb notna (map humidity merged) = true ->
   snd res = Some (series_corr (map j_total_consumption merged)
                               (map humidity merged))).
Proof.
  intros res merged.
  destruct (res_rows series_corr flow quality name) as [Hrows Hcols].
  fold res in Hrows, Hcols. unfold merged. rewrite Hrows.
  set (h := filter (fun r => String.eqb (parameter r) name) quality).
  set (m := merge_inner _ _).
  split; [exact Hcols|]. split; [|split; [|split]].
  - intros Habs. apply humidity_absent.
    destruct (filter _ quality) as [|r l] eqn:E; [reflexivity|].
    assert (Hr : In r (filter (fun r => String.eqb (parameter r) name) quality))
      by (rewrite E; now left).
    apply filter_In in Hr as [Hr Hp]. apply String.eqb_eq in Hp.
    now apply Habs in Hr.
  - intros d. split.
    + intros Hin. apply in_map_iff in Hin as [row [<- Hrow]].
      apply merged_rows in Hrow as (Hf & Hr & _). auto.
    + intros [[f [Hf <-]] [r (Hr & Hp & Hd)]].
      now apply merged_has_day with r.
  - intros row Hrow. apply merged_rows in Hrow as (_ & _ & Ht & Hm). auto.
  - assert (D : h = [] \/ h <> [])
      by (destruct h; [left; reflexivity | right; discriminate]).
    destruct D as [E|E].
    + assert (Hres : res = (no_data joined_columns, None))
        by (apply humidity_absent; exact E).
      rewrite Hres. repeat split; intros; try reflexivity.
      assert (Hm : m = []) by (apply hd_empty; exact E).
      rewrite Hm in *. simpl in *. lia.
    + assert (Hres : res = _) by (apply humidity_present; exact E).
      rewrite Hres. fold h. fold m. cbn [snd].
      repeat split.
      * intros Hlt. destruct (Nat.leb_spec 2 (List.length m)); [lia|reflexivity].
      * intros ->. now rewrite andb_false_r.
      * intros Hge ->. destruct (Nat.leb_spec 2 (List.length m)); [reflexivity|lia].
Qed.


(** ** Rolling statistics and spike detection *)

Lemma In_skipn {A : Type} (n : nat) (l : list A) (x : A) :
  In x (skipn n l) -> In x l.
Proof.
  revert l. induction n as [|n IH]; intros [|y ys]; simpl; auto.
Qed.

Lemma In_firstn {A : Type} (n : nat) (l : list A) (x : A) :
  In x (firstn n l) -> In x l.
Proof.
  revert l. induction n as [|n IH]; intros [|y ys]; simpl; try contradiction.
  intros [->|H]; auto.
Qed.

Lemma window_at_In (w i : nat) (l : list float) (x : float) :
  In x (window_at w i l) -> In x l.
Proof. unfold window_at. intros H. eapply In_firstn, In_skipn, H. Qed.

Lemma observed_In (l : list float) (x : float) :
  In x (observed l) -> In x l.
Proof. unfold observed. intros H. now apply filter_In in H. Qed.

Lemma observed_length_le (l : list float) :
  List.length (observed l) <= List.length l.
Proof. apply filter_length_le. Qed.

Lemma rolling_median_length (w mp : nat) (l : list float) :
  List.length (rolling_median w mp l) = List.length l.
Proof. unfold rolling_median. now rewrite length_map, length_seq. Qed.

Lemma rolling_median_nth (w mp : nat) (l : list float) (i : nat) (m : float) :
  nth_error (rolling_median w mp l) i = Some m ->
  m = if List.length (observed (window_at w i l)) <? mp then NaN
      else median_sorted (sort_by fle (observed (window_at w i l))).
Proof.
  unfold rolling_median. rewrite nth_error_map, nth_error_seq.
  destruct (i <? List.length l); [|discriminate].
  simpl. now intros [= <-].
Qed.

Section MedianClosed.
Variable P : Q -> Prop.
Hypothesis P_midpoint : forall a b, P a -> P b -> P ((a + b) / 2)%Q.

Lemma nth_nan_or (v : list float) (i : nat) :
  Forall (nan_or P) v -> nan_or P (nth i v NaN).
Proof.
  intros H. destruct (nth_in_or_default i v NaN) as [Hin| ->]; [|exact I].
  rewrite Forall_forall in H. now apply H.
Qed.

Lemma median_sorted_closed (v : list float) :
  Forall (nan_or P) v -> nan_or P (median_sorted v).
Proof.
  intros H. unfold median_sorted.
  destruct (Nat.odd _); [now apply nth_nan_or|].
  pose proof (nth_nan_or v (List.length v / 2) H) as Ha.
  pose proof (nth_nan_or v (List.length v / 2 - 1) H) as Hb.
  destruct (nth _ v NaN) as [|a]; [exact I|].
  destruct (nth _ v NaN) as [|b]; [exact I|].
  simpl in *. now apply P_midpoint.
Qed.

Lemma rolling_median_closed (w mp : nat) (l : list float) :
  Forall (nan_or P) l -> Forall (nan_or P) (rolling_median w mp l).
Proof.
  intros H. apply Forall_forall. intros m Hm.
  apply In_nth_error in Hm as [i Hi]. apply rolling_median_nth in Hi as ->.
  destruct (_ <? _); [exact I|].
  apply median_sorted_closed. apply Forall_forall. intros x Hx.
  rewrite Forall_forall in H. apply H.
  apply sort_by_In in Hx. eapply window_at_In, observed_In, Hx.
Qed.
End MedianClosed.

Lemma midpoint_eq (c a b : Q) :
  (a == c)%Q -> (b == c)%Q -> ((a + b) / 2 == c)%Q.
Proof. intros -> ->. field. Qed.

(** During warm-up: fewer than [mp] rows, no median. *)
Lemma rolling_median_warmup (w mp : nat) (l : list float) (i : nat) (m : float) :
  S i < mp -> nth_error (rolling_median w mp l) i = Some m -> m = NaN.
Proof.
  intros Hi Hm. apply rolling_median_nth in Hm as ->.
  destruct (Nat.ltb_spec (List.length (observed (window_at w i l))) mp)
    as [_|Hge]; [reflexivity|].
  pose proof (observed_length_le (window_at w i l)) as H1.
  unfold window_at in H1 at 2. rewrite length_skipn, length_firstn in H1. lia.
Qed.

Lemma observed_firstn_le_1 (l : list float) :
  forall i,
    (forall j d, j < i -> nth_error l j = Some d -> d = NaN) ->
    List.length (observed (firstn (S i) l)) <= 1.
Proof.
  induction l as [|x xs IH]; intros i H; [simpl; lia|].
  destruct i as [|i].
  - cbn [firstn]. unfold observed. cbn [filter].
    destruct (notna x); simpl; lia.
  - assert (Hx : x = NaN) by (apply (H 0 x); [lia | reflexivity]).
    subst x. change (observed (firstn (S (S i)) (NaN :: xs)))
      with (observed (firstn (S i) xs)).
    apply IH. intros j d Hj Hd. apply (H (S j) d); [lia | exact Hd].
Qed.

Lemma observed_skipn_le (n : nat) (l : list float) :
  List.length (observed (skipn n l)) <= List.length (observed l).
Proof.
  revert l. induction n as [|n IH]; intros [|x xs]; simpl; try lia.
  unfold observed in *. cbn [filter]. specialize (IH xs).
  destruct (notna x); simpl; lia.
Qed.

(** The deviations from the rolling median, the column whose rolling
    median is [mad]. *)
Lemma rolling_mad_unfold (w : nat) (cons : list float) :
  rolling_mad w cons =
  rolling_median w (min_periods w)
    (map (fun cm => fabs (fsub (fst cm) (snd cm)))
         (combine cons (rolling_median w (min_periods w) cons))).
Proof. reflexivity. Qed.

Lemma fsub_nan_r (x : float) : fsub x NaN = NaN.
Proof. now destruct x. Qed.

Lemma fadd_nan_r (x : float) : fadd x NaN = NaN.
Proof. now destruct x. Qed.

Lemma rolling_mad_warmup (w : nat) (cons : list float) (i : nat) (d : float) :
  i < min_periods w -> nth_error (rolling_mad w cons) i = Some d -> d = NaN.
Proof.
  intros Hi Hd. rewrite rolling_mad_unfold in Hd.
  apply rolling_median_nth in Hd as ->.
  set (dev := map _ _).
  assert (H6 : 6 <= min_periods w) by (unfold min_periods; lia).
  assert (Hobs : List.length (observed (window_at w i dev)) <= 1).
  { unfold window_at.
    eapply Nat.le_trans; [apply observed_skipn_le|].
    apply observed_firstn_le_1. intros j x Hj Hx. unfold dev in Hx.
    rewrite nth_error_map, nth_error_combine in Hx.
    destruct (nth_error cons j) as [c|]; [|discriminate].
    destruct (nth_error (rolling_median _ _ _) j) as [m|] eqn:Em;
      [|discriminate].
    apply rolling_median_warmup in Em as ->; [|lia].
    simpl in Hx. injection Hx as <-. now rewrite fsub_nan_r. }
  destruct (Nat.ltb_spec (List.length (observed (window_at w i dev)))
                         (min_periods w)); [reflexivity | lia].
Qed.

(** What [flow_anomalies] puts in row [i]. *)
Lemma flow_anomalies_nth (flow : list FlowReading) (window : nat)
      (recs : list AnomalyRecord) (i : nat) (rec : AnomalyRecord) :
  flow_anomalies flow window = Ok recs ->
  nth_error recs i = Some rec ->
  let cons := map consumption (sort_by flow_leb flow) in
  exists r m d,
    nth_error (sort_by flow_leb flow) i = Some r /\
    nth_error (rolling_median window (min_periods window) cons) i = Some m /\
    nth_error (rolling_mad window cons) i = Some d /\
    rec = mkAnomaly (timestamp r) (consumption r) m
                    (fadd m (fmul (Fin 3) (zero_to_nan d)))
                    (fgt (consumption r)
                         (fadd m (fmul (Fin 3) (zero_to_nan d)))).
Proof.
  unfold flow_anomalies. destruct (_ <? _); [discriminate|].
  intros [= <-]. rewrite nth_error_map, !nth_error_combine, nth_error_map.
  rewrite nth_error_combine.
  destruct (nth_error (sort_by flow_leb flow) i) as [r|]; [|discriminate].
  destruct (nth_error (rolling_median _ _ _) i) as [m|]; [|discriminate].
  destruct (nth_error (rolling_mad _ _) i) as [d|]; [|discriminate].
  simpl. intros [= <-]. now exists r, m, d.
Qed.

Lemma no_flag_without_threshold (c m d : float) :
  zero_to_nan d = NaN ->
  fadd m (fmul (Fin 3) (zero_to_nan d)) = NaN /\
  fgt c (fadd m (fmul (Fin 3) (zero_to_nan d))) = false.
Proof. intros ->. simpl. rewrite fadd_nan_r. split; reflexivity. Qed.

Lemma zero_to_nan_zero (d : float) :
  nan_or (fun q => (q == 0)%Q) d -> zero_to_nan d = NaN.
Proof.
  destruct d as [|q]; [reflexivity|]. simpl. intros H.
  unfold zero_to_nan, feqb. now rewrite (Qeq_eq_bool _ _ H).
Qed.

(** With min_periods at most the window, [rolling] accepts its arguments
    and a row comes back for every reading. *)
Lemma flow_anomalies_returns (flow : list FlowReading) (window : nat) :
  6 <= window ->
  exists recs,
    flow_anomalies flow window = Ok recs /\
    List.length recs = List.length flow.
Proof.
  intros Hw. unfold flow_anomalies.
  assert (Hmp : min_periods window <= window).
  { unfold min_periods. pose proof (Nat.Div0.div_le_upper_bound window 4 window).
    assert (window / 4 <= window) by (apply H; lia). lia. }
  destruct (Nat.ltb_spec window (min_periods window)); [lia|].
  eexists. split; [reflexivity|].
  rewrite length_map, !length_combine, length_map, length_combine.
  unfold rolling_mad.
  rewrite !rolling_median_length, !length_map, length_combine.
  rewrite rolling_median_length, length_map, sort_by_length. lia.
Qed.

Lemma constant_mad_zero (w : nat) (c0 : Q) (cons : list float) :
  Forall (nan_or (fun q => (q == c0)%Q)) cons ->
  Forall (nan_or (fun q => (q == 0)%Q)) (rolling_mad w cons).
Proof.
  intros Hc. rewrite rolling_mad_unfold.
  apply rolling_median_closed; [apply midpoint_eq|].
  apply Forall_forall. intros d Hd.
  apply in_map_iff in Hd as [[c m] [<- Hin]]. cbn [fst snd].
  pose proof (in_combine_l _ _ _ _ Hin) as Hc'.
  pose proof (in_combine_r _ _ _ _ Hin) as Hm.
  rewrite Forall_forall in Hc. apply Hc in Hc'.
  pose proof (rolling_median_closed _ (midpoint_eq c0) w (min_periods w)
                                    cons) as Hmed.
  rewrite !Forall_forall in Hmed. specialize (Hmed Hc m Hm).
  destruct c as [|a], m as [|b]; try exact I.
  cbn [nan_or fabs fsub] in *.
  rewrite Hc', Hmed. setoid_replace (c0 - c0)%Q with 0%Q by ring. reflexivity.
Qed.

(** C8. In the rows [flow_anomalies] returns: wherever the rolling MAD is
    exactly zero the threshold is missing and no anomaly is flagged; a
    series whose consumption is constant has no anomaly flagged anywhere;
    and a constant series followed by one arbitrary reading, appended
    before as many readings as the minimum number of periods were there,
    has no anomaly flagged anywhere either. *)
Theorem flow_anomalies_zero_mad_never_flags
        (flow : list FlowReading) (window : nat)
        (recs : list AnomalyRecord) :
  flow_anomalies flow window = Ok recs ->
  let cons := map consumption (sort_by flow_leb flow) in
  (forall i rec q,
      nth_error recs i = Some rec ->
      nth_error (rolling_mad window cons) i = Some (Fin q) ->
      (q == 0)%Q ->
      threshold rec = NaN /\ anomaly rec = false) /\
  (forall c0,
      (forall r, In r flow ->
                 exists q, consumption r = Fin q /\ (q == c0)%Q) ->
      Forall (fun rec => anomaly rec = false) recs) /\
  (forall c x k,
      cons = repeat c k ++ [x] ->
      k < min_periods window ->
      Forall (fun rec => anomaly rec = false) recs).
Proof.
  intros Hok cons. split; [|split].
  - intros i rec q Hrec Hmad Hq.
    destruct (flow_anomalies_nth flow window recs i rec Hok Hrec)
      as (r & m & d & _ & _ & Hd & ->).
    fold cons in Hd. rewrite Hmad in Hd. injection Hd as <-.
    cbn [threshold anomaly]. apply no_flag_without_threshold.
    now apply zero_to_nan_zero.
  - intros c0 Hconst. apply Forall_forall. intros rec Hin.
    apply In_nth_error in Hin as [i Hrec].
    destruct (flow_anomalies_nth flow window recs i rec Hok Hrec)
      as (r & m & d & _ & _ & Hd & ->).
    cbn [anomaly]. apply no_flag_without_threshold, zero_to_nan_zero.
    assert (Hc : Forall (nan_or (fun q => (q == c0)%Q)) cons).
    { apply Forall_forall. intros c Hc. unfold cons in Hc.
      apply in_map_iff in Hc as [r' [<- Hr']]. apply sort_by_In in Hr'.
      destruct (Hconst r' Hr') as [q [-> Hq]]. exact Hq. }
    pose proof (constant_mad_zero window c0 cons Hc) as Hmad.
    rewrite Forall_forall in Hmad. apply Hmad.
    eapply nth_error_In, Hd.
  - intros c x k Hshape Hk. apply Forall_forall. intros rec Hin.
    apply In_nth_error in Hin as [i Hrec].
    destruct (flow_anomalies_nth flow window recs i rec Hok Hrec)
      as (r & m & d & Hr & _ & Hd & ->).
    cbn [anomaly]. apply no_flag_without_threshold.
    assert (Hi : i < S k).
    { assert (Hlen : List.length cons = S k)
        by (rewrite Hshape, length_app, repeat_length; simpl; lia).
      unfold cons in Hlen. rewrite length_map in Hlen. rewrite <- Hlen.
      apply nth_error_Some. now rewrite Hr. }
    fold cons in Hd.
    rewrite (rolling_mad_warmup window cons i d); [reflexivity | lia | exact Hd].
Qed.

Lemma flow_anomalies_zero_mad_never_flags_witness :
  exists recs,
    flow_anomalies spike_during_warmup 24 = Ok recs /\
    List.length recs = 6 /\
    Forall (fun rec => anomaly rec = false) recs.
Proof.
  destruct (flow_anomalies_returns spike_during_warmup 24) as [recs [Hok Hlen]];
    [lia|].
  exists recs. split; [exact Hok|]. split; [exact Hlen|].
  destruct (flow_anomalies_zero_mad_never_flags spike_during_warmup 24 recs Hok)
    as (_ & _ & H).
  apply (H (Fin 5) (Fin 1000) 5).
  - reflexivity.
  - vm_compute. lia.
Defined.

(** Thirty readings of constant consumption with the default window: the
    rolling MAD is zero wherever it exists and nothing is flagged. *)
Example constant_flow_never_flags :
  exists recs,
    flow_anomalies constant_flow 24 = Ok recs /\
    map anomaly recs = repeat false 30 /\
    map threshold recs = repeat NaN 30.
Proof. eexists. split; [vm_compute; reflexivity|]. split; reflexivity. Qed.

(** * Further properties *)

(** ** Orders *)

From Stdlib Require OrderedTypeEx.

#[export] Instance Z_compare_strict : StrictCmp Z.compare.
Proof.
  split.
  - apply Z.compare_eq_iff.
  - intros a b. apply Z.compare_antisym.
  - intros a b c. rewrite !Z.compare_lt_iff. lia.
Qed.

#[export] Instance nat_compare_strict : StrictCmp Nat.compare.
Proof.
  split.
  - apply Nat.compare_eq_iff.
  - intros a b. apply Nat.compare_antisym.
  - intros a b c. rewrite !Nat.compare_lt_iff. lia.
Qed.

#[export] Instance string_compare_strict : StrictCmp String.compare.
Proof.
  split.
  - apply string_compare_eq.
  - intros a b. apply String.compare_antisym.
  - intros a b c H1 H2.
    apply OrderedTypeEx.String_as_OT.cmp_lt.
    apply OrderedTypeEx.String_as_OT.cmp_lt in H1, H2.
    eapply OrderedTypeEx.String_as_OT.lt_trans; eassumption.
Qed.

#[export] Instance lex_compare_strict {A B : Type}
  (ca : A -> A -> comparison) (cb : B -> B -> comparison)
  `{StrictCmp A ca} `{StrictCmp B cb} : StrictCmp (lex_compare ca cb).
Proof.
  split.
  - intros [a1 b1] [a2 b2]. unfold lex_compare. cbn [fst snd]. split.
    + destruct (ca a1 a2) eqn:E; try discriminate.
      intros Hb. apply cmp_eq_iff in E, Hb. congruence.
    + intros [= -> ->].
      rewrite (proj2 (cmp_eq_iff a2 a2) eq_refl). now apply cmp_eq_iff.
  - intros [a1 b1] [a2 b2]. unfold lex_compare. cbn [fst snd].
    rewrite (cmp_antisym a1 a2).
    destruct (ca a1 a2); cbn; [apply cmp_antisym | reflexivity | reflexivity].
  - intros [a1 b1] [a2 b2] [a3 b3]. unfold lex_compare. cbn [fst snd].
    destruct (ca a1 a2) eqn:E12; try discriminate;
      destruct (ca a2 a3) eqn:E23; try discriminate; intros H1 H2.
    + apply cmp_eq_iff in E12, E23. subst.
      rewrite (proj2 (cmp_eq_iff a3 a3) eq_refl).
      eapply cmp_lt_trans; eassumption.
    + apply cmp_eq_iff in E12. subst. now rewrite E23.
    + apply cmp_eq_iff in E23. subst. now rewrite E12.
    + now rewrite (cmp_lt_trans a1 a2 a3 E12 E23).
Qed.

Lemma pair_compare_lex : pair_compare = lex_compare String.compare Z.compare.
Proof. reflexivity. Qed.

Lemma date_shift_compare_lex :
  date_shift_compare = lex_compare Z.compare String.compare.
Proof. reflexivity. Qed.

Lemma zz_compare_lex : zz_compare = lex_compare Z.compare Z.compare.
Proof. reflexivity. Qed.

#[export] Instance pair_compare_strict : StrictCmp pair_compare.
Proof. rewrite pair_compare_lex. exact _. Qed.

#[export] Instance date_shift_compare_strict : StrictCmp date_shift_compare.
Proof. rewrite date_shift_compare_lex. exact _. Qed.

#[export] Instance zz_compare_strict : StrictCmp zz_compare.
Proof. rewrite zz_compare_lex. exact _. Qed.

(** ** Groups: one per key, keys ascending, every row in one group *)

Section GroupOrder.
Context {A K : Type}.
Variable cmp : K -> K -> comparison.
Context `{StrictCmp K cmp}.
Variable key : A -> K.

Let ltc (a b : K) : Prop := cmp a b = Lt.

Lemma cmp_irrefl (a : K) : cmp a a <> Lt.
Proof. rewrite (proj2 (cmp_eq_iff a a) eq_refl). discriminate. Qed.

Lemma insert_key_sorted (k : K) (ks : list K) :
  StronglySorted ltc ks -> StronglySorted ltc (insert_key cmp k ks).
Proof.
  induction 1 as [|h t Hs IH Hh]; simpl.
  - repeat constructor.
  - destruct (cmp k h) eqn:E.
    + now constructor.
    + constructor; [now constructor|]. constructor; [exact E|].
      eapply Forall_impl; [|exact Hh]. intros z Hz.
      eapply cmp_lt_trans; eassumption.
    + constructor; [exact IH|]. apply Forall_forall. intros z Hz.
      apply (insert_key_In cmp cmp_eq_iff) in Hz as [->|Hz].
      * unfold ltc. rewrite (cmp_antisym k h), E. reflexivity.
      * rewrite Forall_forall in Hh. now apply Hh.
Qed.

Lemma group_keys_sorted (l : list A) :
  StronglySorted ltc (group_keys cmp key l).
Proof.
  induction l as [|x xs IH]; simpl; [constructor|].
  now apply insert_key_sorted.
Qed.

Lemma sorted_NoDup (ks : list K) : StronglySorted ltc ks -> NoDup ks.
Proof.
  induction 1 as [|h t Hs IH Hh]; constructor; [|exact IH].
  intros Hin. rewrite Forall_forall in Hh. apply (cmp_irrefl h). now apply Hh.
Qed.

Lemma group_keys_NoDup (l : list A) : NoDup (group_keys cmp key l).
Proof. apply sorted_NoDup, group_keys_sorted. Qed.

Lemma list_sum_cons (a : nat) (l : list nat) :
  list_sum (a :: l) = a + list_sum l.
Proof. reflexivity. Qed.

Lemma same_key_count (x : A) (ks : list K) :
  NoDup ks -> In (key x) ks ->
  list_sum (map (fun k => if same_key cmp key k x then 1 else 0) ks) = 1.
Proof.
  induction 1 as [|h t Hnotin Hn IH]; [contradiction|].
  cbn [map]. rewrite list_sum_cons. intros [Hh|Ht].
  - subst h. rewrite (proj2 (same_key_eq cmp key cmp_eq_iff (key x) x) eq_refl).
    assert (E : list_sum
                  (map (fun k => if same_key cmp key k x then 1 else 0) t) = 0).
    { clear IH Hn. induction t as [|k t IHt]; [reflexivity|].
      cbn [map]. rewrite list_sum_cons.
      destruct (same_key cmp key k x) eqn:Ek.
      - apply (same_key_eq cmp key cmp_eq_iff) in Ek.
        exfalso. apply Hnotin. left. now symmetry.
      - simpl. apply IHt. intros Hin. apply Hnotin. now right. }
    rewrite E. reflexivity.
  - destruct (same_key cmp key h x) eqn:Eh.
    + apply (same_key_eq cmp key cmp_eq_iff) in Eh. subst h. contradiction.
    + simpl. now apply IH.
Qed.

(** A quantity that adds up over rows adds up over the groups. *)
Lemma groups_add_up (measure : A -> nat) (l : list A) :
  forall ks,
    NoDup ks -> (forall x, In x l -> In (key x) ks) ->
    list_sum
      (map (fun k => list_sum (map measure (filter (same_key cmp key k) l))) ks)
    = list_sum (map measure l).
Proof.
  induction l as [|x xs IH]; intros ks Hn Hin.
  - clear Hn Hin. induction ks as [|k ks IHk]; [reflexivity|].
    cbn [map filter] in *. rewrite list_sum_cons, IHk. reflexivity.
  - cbn [map filter]. rewrite list_sum_cons.
    rewrite <- (IH ks Hn) by (intros y Hy; apply Hin; now right).
    assert (Hx : In (key x) ks) by (apply Hin; now left).
    clear IH Hin. induction Hn as [|h t Hnotin Hn IHn]; [contradiction|].
    cbn [map]. rewrite !list_sum_cons.
    destruct (same_key cmp key h x) eqn:Eh.
    + apply (same_key_eq cmp key cmp_eq_iff) in Eh. subst h.
      cbn [map]. rewrite list_sum_cons.
      assert (E : map (fun k => list_sum (map measure
                   (if same_key cmp key k x
                    then x :: filter (same_key cmp key k) xs
                    else filter (same_key cmp key k) xs))) t
                = map (fun k => list_sum (map measure
                   (filter (same_key cmp key k) xs))) t).
      { apply map_ext_in. intros k Hk.
        destruct (same_key cmp key k x) eqn:Ek; [|reflexivity].
        apply (same_key_eq cmp key cmp_eq_iff) in Ek. subst k. contradiction. }
      rewrite E. lia.
    + destruct Hx as [Hx|Hx].
      * subst h.
        rewrite (proj2 (same_key_eq cmp key cmp_eq_iff (key x) x) eq_refl) in Eh.
        discriminate.
      * rewrite (IHn Hx). lia.
Qed.

Lemma groupby_sizes (l : list A) :
  list_sum (map (fun kg => List.length (snd kg)) (groupby cmp key l))
  = List.length l.
Proof.
  unfold groupby. rewrite map_map. cbn [snd].
  pose proof (groups_add_up (fun _ => 1) l (group_keys cmp key l)
                (group_keys_NoDup l)) as H1.
  assert (Hone : forall m : list A, list_sum (map (fun _ => 1) m) = List.length m).
  { induction m; simpl; congruence. }
  rewrite Hone in H1. rewrite <- H1.
  - apply f_equal, map_ext. intros k. now rewrite Hone.
  - intros x Hx. apply (group_keys_In cmp key cmp_eq_iff). now exists x.
Qed.

Lemma groupby_nonempty (l : list A) (k : K) (g : list A) :
  In (k, g) (groupby cmp key l) -> g <> [].
Proof.
  intros Hin. apply groupby_In in Hin as [Hk ->].
  apply (group_keys_In cmp key cmp_eq_iff) in Hk as [x [Hx Hkx]].
  intros E.
  assert (Hf : In x (filter (same_key cmp key k) l)).
  { apply filter_In. split; [exact Hx|].
    now apply (same_key_eq cmp key cmp_eq_iff). }
  now rewrite E in Hf.
Qed.
End GroupOrder.

(** ** Sorting what is already in order *)

Lemma sort_by_sorted_id {A : Type} (leb : A -> A -> bool) (l : list A) :
  StronglySorted (fun a b => leb a b = true) l -> sort_by leb l = l.
Proof.
  induction 1 as [|x xs Hs IH Hx]; [reflexivity|].
  simpl. rewrite IH. destruct xs as [|y ys]; [reflexivity|].
  simpl. apply Forall_inv in Hx. now rewrite Hx.
Qed.

Lemma StronglySorted_map {A B : Type} (R : B -> B -> Prop) (S : A -> A -> Prop)
      (f : A -> B) (l : list A) :
  (forall a b, S a b -> R (f a) (f b)) ->
  StronglySorted S l -> StronglySorted R (map f l).
Proof.
  intros HRS. induction 1 as [|x xs Hs IH Hx]; simpl; constructor.
  - exact IH.
  - apply Forall_map. eapply Forall_impl; [|exact Hx]. intros; now apply HRS.
Qed.

(** The groups come out with strictly increasing keys. *)
Lemma groupby_keys_sorted {A K : Type} (cmp : K -> K -> comparison)
      `{StrictCmp K cmp} (key : A -> K) (l : list A) :
  StronglySorted (fun a b => cmp (fst a) (fst b) = Lt) (groupby cmp key l).
Proof.
  unfold groupby.
  apply StronglySorted_map with (S := fun a b => cmp a b = Lt);
    [auto | apply group_keys_sorted; assumption].
Qed.

(** ** Shifts *)

Lemma shift_cases (h : Z) :
  (((6 <= h < 14)%Z /\ _hour_to_shift h = "Shift A"%string) \/
   ((14 <= h < 22)%Z /\ _hour_to_shift h = "Shift B"%string) \/
   (((h < 6)%Z \/ (22 <= h)%Z) /\ _hour_to_shift h = "Shift C"%string)).
Proof.
  unfold _hour_to_shift, SHIFT_DEF, shift_among.
  change (6 <? 14)%Z with true. change (14 <? 22)%Z with true.
  change (22 <? 6)%Z with false. cbv iota.
  destruct (Z.leb_spec 6 h), (Z.ltb_spec h 14), (Z.leb_spec 14 h),
    (Z.ltb_spec h 22), (Z.leb_spec 22 h), (Z.ltb_spec h 6);
    cbn [andb orb]; try lia; auto.
Qed.

(** X1. The three shifts cover every hour and exclude each other: Shift A is
    the hours 6 to 13, Shift B the hours 14 to 21, Shift C every other
    hour, and the fallback "Unknown" is never returned. *)
Theorem hour_to_shift_partition (h : Z) :
  (_hour_to_shift h = "Shift A"%string <-> (6 <= h < 14)%Z) /\
  (_hour_to_shift h = "Shift B"%string <-> (14 <= h < 22)%Z) /\
  (_hour_to_shift h = "Shift C"%string <-> (h < 6 \/ 22 <= h)%Z) /\
  _hour_to_shift h <> "Unknown"%string.
Proof.
  destruct (shift_cases h) as [[Hh ->]|[[Hh ->]|[Hh ->]]];
    repeat split; intros; try lia; try discriminate; try reflexivity.
Qed.

Lemma hour_of_range (ts : Z) : (0 <= hour_of ts < 24)%Z.
Proof.
  unfold hour_of.
  assert (Hm : (0 <= (ts + TZ_offset) mod ns_per_day < ns_per_day)%Z)
    by (apply Z.mod_pos_bound; reflexivity).
  split.
  - apply Z.div_pos; [lia | reflexivity].
  - apply Z.div_lt_upper_bound; [reflexivity|].
    change (ns_per_hour * 24)%Z with ns_per_day. lia.
Qed.

Lemma dow_of_range (ts : Z) : (0 <= dow_of ts < 7)%Z.
Proof. unfold dow_of. apply Z.mod_pos_bound. reflexivity. Qed.

(** ** Sums of columns *)

Lemma fold_fadd_total (l : list float) :
  forall a, exists q,
    fold_left fadd (observed l) (Fin a) = Fin q /\ (q == a + total_of l)%Q.
Proof.
  induction l as [|x l IH]; intros a.
  - exists a. split; [reflexivity|]. simpl. ring.
  - destruct x as [|x]; cbn [observed filter notna isna negb total_of].
    + apply IH.
    + cbn [fold_left fadd]. destruct (IH (a + x)%Q) as [q [Hq Heq]].
      exists q. split; [exact Hq|]. rewrite Heq. ring.
Qed.

(** [Series.sum()] is a number: the sum of the numbers of the column. *)
Lemma fsum_total (l : list float) :
  exists q, fsum l = Fin q /\ (q == total_of l)%Q.
Proof.
  destruct (fold_fadd_total l 0) as [q [Hq Heq]].
  exists q. split; [exact Hq|]. rewrite Heq. ring.
Qed.

Lemma total_of_fsums (gs : list (list float)) :
  (total_of (map fsum gs) == Qsum (map total_of gs))%Q.
Proof.
  induction gs as [|g gs IH]; [reflexivity|]. cbn [map Qsum fold_right].
  destruct (fsum_total g) as [q [-> Hq]]. cbn [total_of].
  fold (Qsum (map total_of gs)). now rewrite Hq, IH.
Qed.

Lemma total_of_app (a b : list float) :
  (total_of (a ++ b) == total_of a + total_of b)%Q.
Proof.
  induction a as [|x a IH]; simpl; [ring|].
  destruct x; rewrite IH; ring.
Qed.

Section GroupTotals.
Context {A K : Type}.
Variable cmp : K -> K -> comparison.
Context `{StrictCmp K cmp}.
Variable key : A -> K.
Variable v : A -> float.

Lemma groups_total (l : list A) :
  forall ks,
    NoDup ks -> (forall x, In x l -> In (key x) ks) ->
    (Qsum (map (fun k => total_of (map v (filter (same_key cmp key k) l))) ks)
     == total_of (map v l))%Q.
Proof.
  induction l as [|x xs IH]; intros ks Hn Hin.
  - clear Hn Hin. induction ks as [|k ks IHk]; [reflexivity|].
    cbn [map filter Qsum fold_right total_of] in *. rewrite IHk. ring.
  - assert (Hx : In (key x) ks) by (apply Hin; now left).
    assert (IH' := IH ks Hn (fun y Hy => Hin y (or_intror Hy))).
    assert (Hsplit :
              (Qsum (map (fun k => total_of (map v
                       (filter (same_key cmp key k) (x :: xs)))) ks)
               == total_of [v x] +
                  Qsum (map (fun k => total_of (map v
                       (filter (same_key cmp key k) xs))) ks))%Q).
    { clear IH IH' Hin. induction Hn as [|h t Hnotin Hn IHn]; [contradiction|].
      cbn [map Qsum fold_right filter].
      fold (Qsum (map (fun k => total_of (map v
              (filter (same_key cmp key k) xs))) t)).
      fold (Qsum (map (fun k => total_of (map v
              (if same_key cmp key k x
               then x :: filter (same_key cmp key k) xs
               else filter (same_key cmp key k) xs))) t)).
      destruct (same_key cmp key h x) eqn:Eh.
      - apply (same_key_eq cmp key cmp_eq_iff) in Eh. subst h.
        assert (E : map (fun k => total_of (map v
                     (if same_key cmp key k x
                      then x :: filter (same_key cmp key k) xs
                      else filter (same_key cmp key k) xs))) t
                  = map (fun k => total_of (map v
                     (filter (same_key cmp key k) xs))) t).
        { apply map_ext_in. intros k Hk.
          destruct (same_key cmp key k x) eqn:Ek; [|reflexivity].
          apply (same_key_eq cmp key cmp_eq_iff) in Ek. subst k.
          contradiction. }
        rewrite E. cbn [map total_of]. destruct (v x); ring.
      - destruct Hx as [Hx|Hx].
        + subst h.
          rewrite (proj2 (same_key_eq cmp key cmp_eq_iff (key x) x) eq_refl)
            in Eh. discriminate.
        + cbn [filter] in IHn. rewrite (IHn Hx). ring. }
    rewrite Hsplit, IH'. cbn [map total_of]. destruct (v x); ring.
Qed.

(** The totals of the groups add up to the total of the column. *)
Lemma groupby_totals (l : list A) :
  (total_of (map (fun kg => fsum (map v (snd kg))) (groupby cmp key l))
   == total_of (map v l))%Q.
Proof.
  rewrite <- (groups_total l (group_keys cmp key l)).
  - unfold groupby. rewrite map_map. cbn [snd].
    rewrite <- (map_map (fun k => map v (filter (same_key cmp key k) l)) fsum).
    rewrite total_of_fsums, map_map. reflexivity.
  - apply group_keys_NoDup. assumption.
  - intros x Hx. apply (group_keys_In cmp key cmp_eq_iff). now exists x.
Qed.
End GroupTotals.

Lemma filter_map_comm {A B : Type} (f : B -> bool) (g : A -> B) (l : list A) :
  filter f (map g l) = map g (filter (fun x => f (g x)) l).
Proof.
  induction l as [|x xs IH]; [reflexivity|]. simpl.
  destruct (f (g x)); simpl; now rewrite IH.
Qed.

(** The row [flow_shift_aggregates] builds from a group. *)
Lemma flow_shift_aggregates_groups (flow : list FlowReading) :
  flow_shift_aggregates flow =
  map (fun kg =>
         let s := map (fun x => consumption (tf_reading (fst x))) (snd kg) in
         mkShiftRow (fst (fst kg)) (snd (fst kg)) (fsum s) (List.length s))
      (groupby date_shift_compare shift_key
         (map (fun t => (t, _hour_to_shift (tf_hour t)))
              (_add_time_parts flow))).
Proof.
  unfold flow_shift_aggregates. apply sort_by_sorted_id.
  eapply StronglySorted_map; [|apply groupby_keys_sorted; exact _].
  intros [[d1 s1] g1] [[d2 s2] g2] Hlt. cbn [fst snd] in *.
  unfold shift_leb. cbn [sh_date shift]. now rewrite Hlt.
Qed.

Lemma shift_rows (flow : list FlowReading) (row : ShiftRow) :
  In row (flow_shift_aggregates flow) <->
  exists r,
    In r flow /\
    row =
      mkShiftRow (date_of (timestamp r))
        (_hour_to_shift (hour_of (timestamp r)))
        (fsum (map consumption
                 (filter (in_shift (date_of (timestamp r))
                            (_hour_to_shift (hour_of (timestamp r)))) flow)))
        (List.length
           (filter (in_shift (date_of (timestamp r))
                      (_hour_to_shift (hour_of (timestamp r)))) flow)).
Proof.
  rewrite flow_shift_aggregates_groups. unfold _add_time_parts.
  rewrite map_map. cbn [tf_hour].
  set (tag := fun r : FlowReading =>
         (mkTimed r (date_of (timestamp r)) (hour_of (timestamp r))
                  (dow_of (timestamp r)) (month_of (timestamp r)),
          _hour_to_shift (hour_of (timestamp r)))).
  assert (Hgroup : forall d s,
             map (fun x => consumption (tf_reading (fst x)))
                 (filter (same_key date_shift_compare shift_key (d, s))
                         (map tag flow)) =
             map consumption (filter (in_shift d s) flow)).
  { intros d s. rewrite filter_map_comm, map_map. cbn [tag fst tf_reading].
    f_equal. apply filter_ext. intros r. apply Bool.eq_iff_eq_true.
    rewrite (same_key_eq _ _ cmp_eq_iff). unfold in_shift, shift_key.
    cbn [tag fst snd tf_date].
    rewrite andb_true_iff, Z.eqb_eq, String.eqb_eq. split.
    - intros [= <- <-]. auto.
    - intros [<- <-]. reflexivity. }
  rewrite in_map_iff. split.
  - intros [[[d s] g] [<- Hin]]. apply groupby_In in Hin as [Hk ->].
    apply (group_keys_In _ _ cmp_eq_iff) in Hk as [x [Hx Hkx]].
    apply in_map_iff in Hx as [r [<- Hr]].
    unfold shift_key in Hkx. cbn [tag fst snd tf_date] in Hkx.
    injection Hkx as <- <-. exists r. split; [exact Hr|].
    cbn [fst snd]. cbv zeta. rewrite Hgroup, length_map. reflexivity.
  - intros [r [Hr ->]].
    exists ((date_of (timestamp r), _hour_to_shift (hour_of (timestamp r))),
            filter (same_key date_shift_compare shift_key
                      (date_of (timestamp r),
                       _hour_to_shift (hour_of (timestamp r))))
                   (map tag flow)).
    split.
    + cbn [fst snd]. cbv zeta. rewrite Hgroup, length_map. reflexivity.
    + apply groupby_In. split; [|reflexivity].
      apply (group_keys_In _ _ cmp_eq_iff). exists (tag r).
      split; [now apply in_map | reflexivity].
Qed.

(** X2. [flow_shift_aggregates] has one row for each day and shift that has
    readings, in the order of day and shift name; the shift is one of the
    three named shifts; a row counts and totals exactly the readings of its
    day whose local hour falls in its shift; the counts of all rows add up
    to the number of readings and their totals to the total consumption. *)
Theorem flow_shift_aggregates_partition (flow : list FlowReading) :
  let rows := flow_shift_aggregates flow in
  StronglySorted
    (fun a b =>
       date_shift_compare (sh_date a, shift a) (sh_date b, shift b) = Lt)
    rows /\
  list_sum (map sh_readings rows) = List.length flow /\
  (forall row,
      In row rows ->
      In (shift row) ["Shift A"; "Shift B"; "Shift C"]%string /\
      1 <= sh_readings row /\
      sh_readings row =
        List.length (filter (in_shift (sh_date row) (shift row)) flow) /\
      sh_total_consumption row =
        fsum (map consumption
                (filter (in_shift (sh_date row) (shift row)) flow))) /\
  (forall r, In r flow ->
             exists row,
               In row rows /\ sh_date row = date_of (timestamp r) /\
               shift row = _hour_to_shift (hour_of (timestamp r))) /\
  (total_of (map sh_total_consumption rows)
   == total_of (map consumption flow))%Q.
Proof.
  intros rows. split; [|split; [|split; [|split]]].
  - unfold rows. rewrite flow_shift_aggregates_groups.
    eapply StronglySorted_map; [|apply groupby_keys_sorted; exact _].
    intros [[d1 s1] g1] [[d2 s2] g2] Hlt. exact Hlt.
  - unfold rows. rewrite flow_shift_aggregates_groups, map_map.
    cbn [sh_readings].
    erewrite map_ext; [|intros kg; apply length_map].
    rewrite (groupby_sizes date_shift_compare shift_key).
    unfold _add_time_parts. now rewrite !length_map.
  - intros row Hrow. apply shift_rows in Hrow as [r [Hr ->]].
    cbn [sh_date shift sh_readings sh_total_consumption].
    split; [|split; [|split; reflexivity]].
    + destruct (shift_cases (hour_of (timestamp r)))
        as [[_ ->]|[[_ ->]|[_ ->]]]; simpl; auto.
    + assert (Hin : In r (filter (in_shift (date_of (timestamp r))
                             (_hour_to_shift (hour_of (timestamp r)))) flow)).
      { apply filter_In. split; [exact Hr|]. unfold in_shift.
        now rewrite Z.eqb_refl, String.eqb_refl. }
      destruct (filter _ flow); [contradiction | simpl; lia].
  - intros r Hr. eexists. split; [apply shift_rows; exists r; split;
                                  [exact Hr | reflexivity]|].
    split; reflexivity.
  - unfold rows. rewrite flow_shift_aggregates_groups, map_map.
    cbn [sh_total_consumption].
    rewrite (groupby_totals date_shift_compare shift_key
               (fun x : TimedFlow * string => consumption (tf_reading (fst x)))).
    unfold _add_time_parts. rewrite !map_map. cbn [fst tf_reading].
    reflexivity.
Qed.

(** ** The daily flow rollup *)

Lemma flow_daily_groups (flow : list FlowReading) :
  flow_daily flow =
  map (fun kg =>
         let s := map consumption (snd kg) in
         mkDaily (fst kg) (fsum s) (fmean s)
                 (match s with [] => NaN | _ => nanpercentile95 s end)
                 (List.length s))
      (groupby Z.compare flow_date flow).
Proof.
  unfold flow_daily. apply sort_by_sorted_id.
  eapply StronglySorted_map; [|apply groupby_keys_sorted; exact _].
  intros [d1 g1] [d2 g2] Hlt. cbn [fst] in Hlt.
  unfold daily_leb. cbn [d_date fst]. apply Z.leb_le.
  pose proof (proj1 (Z.compare_lt_iff d1 d2) Hlt). lia.
Qed.

(** X3. [flow_daily] has one row per local day that has readings, days
    strictly ascending; a row counts the readings of its day (at least
    one); the counts add up to the number of readings and the daily totals
    add up to the total consumption of the series. *)
Theorem flow_daily_partition (flow : list FlowReading) :
  let rows := flow_daily flow in
  StronglySorted (fun a b => (d_date a < d_date b)%Z) rows /\
  list_sum (map d_readings rows) = List.length flow /\
  (forall row,
      In row rows ->
      1 <= d_readings row /\
      d_readings row = List.length (filter (on_day (d_date row)) flow)) /\
  (total_of (map total_consumption rows) == total_of (map consumption flow))%Q.
Proof.
  intros rows. unfold rows. rewrite flow_daily_groups.
  split; [|split; [|split]].
  - eapply StronglySorted_map; [|apply groupby_keys_sorted; exact _].
    intros [d1 g1] [d2 g2] Hlt. cbn [d_date fst] in *.
    exact (proj1 (Z.compare_lt_iff d1 d2) Hlt).
  - rewrite map_map. cbn [d_readings].
    erewrite map_ext; [|intros kg; apply length_map].
    apply (groupby_sizes Z.compare flow_date).
  - intros row Hrow. apply in_map_iff in Hrow as [[d g] [<- Hin]].
    cbn [d_readings d_date fst snd]. rewrite length_map.
    pose proof (groupby_nonempty Z.compare flow_date flow d g Hin) as Hne.
    apply groupby_In in Hin as [_ ->]. split.
    + destruct (filter _ flow); [contradiction | simpl; lia].
    + f_equal. apply filter_ext. intros r. apply same_key_Z.
  - rewrite map_map. cbn [total_consumption].
    apply (groupby_totals Z.compare flow_date consumption).
Qed.

(** ** The flow parser: consumption against the totalizer *)

Lemma consumption_column (dt : dtype) (d : list (Z * float)) :
  map consumption (add_consumption dt d) =
  map fillna0 (map clamp_negative (diff dt (map snd d))).
Proof.
  unfold add_consumption. rewrite map_map. cbn [consumption].
  rewrite <- (map_map (fun rc => rc) snd), map_id.
  apply map_snd_combine.
  now rewrite !length_map, diff_length, length_map.
Qed.

Lemma totalizer_column (dt : dtype) (d : list (Z * float)) :
  map totalizer (add_consumption dt d) = map snd d.
Proof.
  unfold add_consumption. rewrite map_map. cbn [totalizer].
  assert (H : List.length d =
              List.length
                (map fillna0 (map clamp_negative (diff dt (map snd d)))))
    by now rewrite !length_map, diff_length, length_map.
  revert H.
  generalize (map fillna0 (map clamp_negative (diff dt (map snd d)))).
  induction d as [|r d IH]; intros [|c cs] Hl; simpl in *; try discriminate;
    [reflexivity|].
  f_equal. apply IH. now injection Hl.
Qed.

Lemma all_numbers (l : list float) :
  Forall (fun x => isna x = false) l -> exists qs, l = map Fin qs.
Proof.
  induction 1 as [|x l Hx _ [qs ->]]; [now exists []|].
  destruct x as [|q]; [discriminate|]. now exists (q :: qs).
Qed.

Lemma clamp_ge (d : Q) :
  exists c, fillna0 (clamp_negative (Fin d)) = Fin c /\ (d <= c)%Q /\
            ((0 <= d)%Q -> c = d).
Proof.
  unfold clamp_negative, flt, Qlt_bool.
  destruct (Qle_bool 0 d) eqn:E; cbn [negb fillna0 isna].
  - exists d. split; [reflexivity|]. split; [apply Qle_refl | reflexivity].
  - exists 0%Q. split; [reflexivity|].
    assert (Hn : ~ (0 <= d)%Q)
      by (intros Hle; apply Qle_bool_iff in Hle; congruence).
    split; [apply Qlt_le_weak, Qnot_le_lt, Hn | intros Hd; contradiction].
Qed.

Lemma last_cons {A : Type} (l : list A) :
  forall x d, last (x :: l) d = last l x.
Proof.
  induction l as [|y l IH]; intros x d; [reflexivity|].
  change (last (x :: y :: l) d) with (last (y :: l) d).
  now rewrite !IH.
Qed.

Lemma last_map_f {A B : Type} (f : A -> B) (l : list A) :
  forall d, last (map f l) (f d) = f (last l d).
Proof.
  induction l as [|x l IH]; intros d; [reflexivity|].
  cbn [map]. rewrite !last_cons. apply IH.
Qed.

Lemma inject_Z_sub (x y : Z) :
  (inject_Z (x - y) == inject_Z x - inject_Z y)%Q.
Proof.
  unfold Z.sub, Qminus. now rewrite inject_Z_plus, inject_Z_opp.
Qed.

(** One difference as [diff] computes it is a number not below the true
    difference, and is the true difference when the totalizer did not
    fall: on a float column, on a uint64 column, and on an int64 column
    whose cells are not negative. *)
Lemma diff_cell_bound (dt : dtype) (qa qb : Q) :
  fits dt (Fin qa) -> fits dt (Fin qb) ->
  (dt = int64 -> (0 <= qa)%Q /\ (0 <= qb)%Q) ->
  exists d,
    diff_cell dt (Fin qb) (Fin qa) = Fin d /\ (qb - qa <= d)%Q /\
    ((qa <= qb)%Q -> (d == qb - qa)%Q).
Proof.
  intros Fa Fb Hpos. destruct dt; cbn [diff_cell fsub].
  - exists (qb - qa)%Q. split; [reflexivity|].
    split; [apply Qle_refl | reflexivity].
  - destruct Fa as (qa' & za & [= <-] & Ea & Ra).
    destruct Fb as (qb' & zb & [= <-] & Eb & Rb).
    destruct (Hpos eq_refl) as [Pa Pb].
    rewrite Ea in Pa. rewrite Eb in Pb.
    change 0%Q with (inject_Z 0) in Pa, Pb. rewrite <- Zle_Qle in Pa, Pb.
    assert (Ha : Qfloor qa = za) by (rewrite Ea; apply Qfloor_Z).
    assert (Hb : Qfloor qb = zb) by (rewrite Eb; apply Qfloor_Z).
    rewrite Ha, Hb.
    assert (Hw : wrap_int64 (zb - za) = (zb - za)%Z).
    { unfold wrap_int64. rewrite Z.mod_small; lia. }
    rewrite Hw. eexists. split; [reflexivity|].
    rewrite inject_Z_sub, Ea, Eb. split; [apply Qle_refl | reflexivity].
  - destruct Fa as (qa' & za & [= <-] & Ea & Ra).
    destruct Fb as (qb' & zb & [= <-] & Eb & Rb).
    assert (Ha : Qfloor qa = za) by (rewrite Ea; apply Qfloor_Z).
    assert (Hb : Qfloor qb = zb) by (rewrite Eb; apply Qfloor_Z).
    rewrite Ha, Hb.
    eexists. split; [reflexivity|]. rewrite Ea, Eb, <- inject_Z_sub. split.
    + rewrite <- Zle_Qle. unfold wrap_uint64.
      destruct (Z.le_gt_cases za zb).
      * rewrite Z.mod_small; lia.
      * replace (zb - za)%Z with (zb - za + 2 ^ 64 + (-1) * 2 ^ 64)%Z by lia.
        rewrite Z.mod_add by lia. rewrite Z.mod_small; lia.
    + rewrite <- Zle_Qle. intros Hle. unfold wrap_uint64.
      rewrite Z.mod_small; [reflexivity | lia].
Qed.

(** The cell of a clamped difference. *)
Lemma clamped_cell_bound (dt : dtype) (qa qb : Q) :
  fits dt (Fin qa) -> fits dt (Fin qb) ->
  (dt = int64 -> (0 <= qa)%Q /\ (0 <= qb)%Q) ->
  exists c,
    fillna0 (clamp_negative (diff_cell dt (Fin qb) (Fin qa))) = Fin c /\
    (qb - qa <= c)%Q /\ ((qa <= qb)%Q -> (c == qb - qa)%Q).
Proof.
  intros Fa Fb Hpos.
  destruct (diff_cell_bound dt qa qb Fa Fb Hpos) as (d & -> & Hd & Heq).
  destruct (clamp_ge d) as (c & -> & Hc & Hcd).
  exists c. split; [reflexivity|]. split.
  - eapply Qle_trans; eassumption.
  - intros Hle. specialize (Heq Hle).
    rewrite Hcd; [exact Heq|]. rewrite Heq.
    setoid_replace 0%Q with (qa - qa)%Q by ring.
    apply Qplus_le_compat; [exact Hle | apply Qle_refl].
Qed.

Section NetIncrease.
Variable dt : dtype.

(** A totalizer cell the statement covers. *)
Let covered (q : Q) : Prop :=
  fits dt (Fin q) /\ (dt = int64 -> (0 <= q)%Q).

Lemma net_increase_le (qs : list Q) :
  forall prev,
    Forall covered (prev :: qs) ->
    (last qs prev - prev <=
     total_of (map fillna0 (map clamp_negative
                              (diff_from dt (Fin prev) (map Fin qs)))))%Q.
Proof.
  induction qs as [|q qs IH]; intros prev Hcov.
  - simpl. setoid_replace (prev - prev)%Q with 0%Q by ring. apply Qle_refl.
  - cbn [map diff_from].
    apply Forall_cons_iff in Hcov as [[Fp Pp] Hcov].
    pose proof Hcov as Hcov'.
    apply Forall_cons_iff in Hcov' as [[Fq Pq] _].
    destruct (clamped_cell_bound dt prev q Fp Fq) as (c & -> & Hc & _);
      [intros E; split; auto|].
    cbn [total_of]. specialize (IH q Hcov).
    rewrite last_cons.
    apply Qle_trans with ((q - prev) + (last qs q - q))%Q.
    + setoid_replace (q - prev + (last qs q - q))%Q
        with (last qs q - prev)%Q by ring.
      apply Qle_refl.
    + apply Qplus_le_compat; assumption.
Qed.

Lemma net_increase_eq (qs : list Q) :
  forall prev,
    Forall covered (prev :: qs) ->
    StronglySorted Qle (prev :: qs) ->
    (total_of (map fillna0 (map clamp_negative
                              (diff_from dt (Fin prev) (map Fin qs))))
     == last qs prev - prev)%Q.
Proof.
  induction qs as [|q qs IH]; intros prev Hcov Hs.
  - simpl. ring.
  - cbn [map diff_from].
    apply StronglySorted_inv in Hs as [Hs Hp].
    apply Forall_inv in Hp.
    apply Forall_cons_iff in Hcov as [[Fp Pp] Hcov].
    pose proof Hcov as Hcov'.
    apply Forall_cons_iff in Hcov' as [[Fq Pq] _].
    destruct (clamped_cell_bound dt prev q Fp Fq) as (c & -> & _ & Hc);
      [intros E; split; auto|].
    cbn [total_of]. rewrite (Hc Hp), (IH q Hcov Hs).
    rewrite last_cons. ring.
Qed.
End NetIncrease.

(** X4. In the series [load_flow_csv] returns, the consumptions add up to at
    least the net rise of the totalizer from the first reading to the last;
    they add up to exactly that rise when the totalizer never falls.  On
    an integer column this takes what pandas guarantees, cells that are
    integers of the dtype, and on an int64 column that no totalizer is
    negative, so that no difference overflows. *)
Theorem load_flow_csv_net_increase
        (to_datetime_series : list string -> list (option Z))
        (to_numeric : string -> float)
        (to_numeric_dtype : list string -> dtype)
        (concat_dtype : list (dtype * list (Z * float)) -> dtype)
        (raw : RawTable) (df : Frame FlowReading) (r0 : FlowReading) :
  let dt :=
    concat_dtype
      (collect_blocks to_datetime_series to_numeric to_numeric_dtype
                      (header_idxs raw) (raw_rows raw)) in
  load_flow_csv to_datetime_series to_numeric to_numeric_dtype concat_dtype
                raw = Ok df ->
  hd_error (rows df) = Some r0 ->
  (forall r, In r (rows df) -> fits dt (totalizer r)) ->
  (dt = int64 ->
   forall r, In r (rows df) -> fle (Fin 0) (totalizer r) = true) ->
  exists a b,
    totalizer r0 = Fin a /\
    totalizer (last (rows df) r0) = Fin b /\
    (b - a <= total_of (map consumption (rows df)))%Q /\
    (StronglySorted (fun x y => fle x y = true) (map totalizer (rows df)) ->
     (total_of (map consumption (rows df)) == b - a)%Q).
Proof.
  intros dt Hok Hhd Hfit Hpos.
  assert (Hnum : Forall (fun x => isna x = false) (map totalizer (rows df))).
  { apply Forall_forall. intros x Hx. apply in_map_iff in Hx as [r [<- Hr]].
    eapply load_flow_csv_numbers; eassumption. }
  assert (Hcov : Forall (fun x => fits dt x /\
                                  (dt = int64 -> fle (Fin 0) x = true))
                        (map totalizer (rows df))).
  { apply Forall_forall. intros x Hx. apply in_map_iff in Hx as [r [<- Hr]].
    split; [now apply Hfit | intros E; now apply Hpos]. }
  apply load_flow_csv_rows in Hok as [_ Hrows]. fold dt in Hrows.
  set (d := sort_by ts_leb _) in Hrows.
  rewrite <- (last_map_f totalizer).
  assert (Hcons : map consumption (rows df) =
                  map fillna0 (map clamp_negative
                                   (diff dt (map totalizer (rows df)))))
    by (rewrite Hrows, consumption_column, totalizer_column; reflexivity).
  rewrite Hcons.
  destruct (all_numbers _ Hnum) as [qs Hqs]. rewrite Hqs in *.
  destruct (rows df) as [|x l]; [discriminate|].
  injection Hhd as ->. destruct qs as [|a qs]; [discriminate|].
  injection Hqs as Ha Hqs. rewrite Ha, last_map_f.
  assert (Hcov' : Forall (fun q => fits dt (Fin q) /\
                                   (dt = int64 -> (0 <= q)%Q)) (a :: qs)).
  { change (Fin a :: map Fin qs) with (map Fin (a :: qs)) in Hcov.
    rewrite Forall_map in Hcov. eapply Forall_impl; [|exact Hcov].
    intros q [Hf Hp]. split; [exact Hf|]. intros E.
    apply Qle_bool_iff. exact (Hp E). }
  exists a, (last (a :: qs) a). split; [reflexivity|].
  split; [reflexivity|].
  rewrite last_cons. cbn [map diff map fillna0 clamp_negative flt isna total_of].
  split.
  - rewrite Qplus_0_l. now apply net_increase_le.
  - intros Hs. rewrite Qplus_0_l. apply net_increase_eq; [exact Hcov'|].
    clear - Hs. remember (Fin a :: map Fin qs) as l eqn:El.
    revert a qs El. induction Hs as [|x l Hs IH Hx]; intros a qs El;
      [discriminate|].
    injection El as -> ->. constructor.
    + destruct qs as [|q qs]; [constructor|]. now apply (IH q qs).
    + apply Forall_map in Hx. eapply Forall_impl; [|exact Hx].
      intros q Hq. now apply Qle_bool_iff.
Qed.

Lemma load_flow_csv_net_increase_witness :
  exists a b,
    Fin 100 = Fin a /\
    totalizer (last (rows sample_flow_frame) (mkFlow 1704047400000000000
                                                (Fin 100) (Fin 0))) = Fin b /\
    (b - a <= total_of (map consumption (rows sample_flow_frame)))%Q.
Proof.
  destruct (load_flow_csv_net_increase (map dmy_to_datetime)
              decimal_to_numeric decimal_dtype same_dtype
              sample_flow_table sample_flow_frame
              (mkFlow 1704047400000000000 (Fin 100) (Fin 0)))
    as (a & b & Ha & Hb & Hle & _).
  - vm_compute. reflexivity.
  - reflexivity.
  - intros r Hr.
    change (fits int64 (totalizer r)).
    cbn [rows sample_flow_frame In] in Hr.
    destruct Hr as [<-|[<-|[<-|[<-|[]]]]]; cbn [totalizer fits];
      [exists 100%Q, 100%Z | exists 105%Q, 105%Z | exists 103%Q, 103%Z
      | exists 110%Q, 110%Z];
      (split; [reflexivity|]; split; [reflexivity | lia]).
  - intros _ r Hr.
    cbn [rows sample_flow_frame In] in Hr.
    destruct Hr as [<-|[<-|[<-|[<-|[]]]]]; reflexivity.
  - exists a, b. auto.
Defined.

(** ** The flow parser: rows above the first header *)

Lemma header_positions_shift (rs : list (list string)) :
  forall i p,
    header_positions (i + p) rs = map (fun a => a + p) (header_positions i rs).
Proof.
  induction rs as [|r rs IH]; intros i p; [reflexivity|]. simpl.
  destruct (is_header r); simpl; [f_equal|]; apply (IH (S i) p).
Qed.

Lemma header_positions_skip (pre rs : list (list string)) :
  (forall r, In r pre -> is_header r = false) ->
  forall i,
    header_positions i (pre ++ rs) = header_positions (i + List.length pre) rs.
Proof.
  induction pre as [|r pre IH]; intros Hpre i; simpl.
  - now rewrite Nat.add_0_r.
  - rewrite (Hpre r (or_introl eq_refl)).
    rewrite IH by (intros r' Hr'; apply Hpre; now right).
    f_equal. lia.
Qed.

Lemma slice_shift {A : Type} (pre rs : list A) (a b : nat) :
  slice (a + List.length pre) (b + List.length pre) (pre ++ rs) = slice a b rs.
Proof.
  unfold slice. rewrite skipn_app.
  rewrite skipn_all2 by lia. cbn [app].
  replace (a + List.length pre - List.length pre) with a by lia.
  f_equal. lia.
Qed.

Lemma collect_blocks_shift
      (to_datetime_series : list string -> list (option Z))
      (to_numeric : string -> float)
      (to_numeric_dtype : list string -> dtype) (pre rs : list (list string))
      (idxs : list nat) :
  collect_blocks to_datetime_series to_numeric to_numeric_dtype
    (map (fun a => a + List.length pre) idxs) (pre ++ rs) =
  collect_blocks to_datetime_series to_numeric to_numeric_dtype idxs rs.
Proof.
  induction idxs as [|a tl IH]; [reflexivity|].
  destruct tl as [|b tl']; [reflexivity|].
  cbn [map collect_blocks] in *.
  replace (b + List.length pre <=? S (a + List.length pre)) with (b <=? S a)
    by (destruct (Nat.leb_spec b (S a)),
          (Nat.leb_spec (b + List.length pre) (S (a + List.length pre)));
        try reflexivity; lia).
  destruct (b <=? S a); [exact IH|].
  rewrite IH. f_equal.
  change (S (a + List.length pre)) with (S a + List.length pre).
  now rewrite slice_shift.
Qed.

(** X5. Rows above the first header row are discarded by [load_flow_csv]:
    leaving them out of the table changes nothing. *)
Theorem load_flow_csv_ignores_leading_rows
        (to_datetime_series : list string -> list (option Z))
        (to_numeric : string -> float)
        (to_numeric_dtype : list string -> dtype)
        (concat_dtype : list (dtype * list (Z * float)) -> dtype)
        (n : nat) (pre rs : list (list string)) :
  (forall r, In r pre -> is_header r = false) ->
  load_flow_csv to_datetime_series to_numeric to_numeric_dtype concat_dtype
    (mkRaw n (pre ++ rs)) =
  load_flow_csv to_datetime_series to_numeric to_numeric_dtype concat_dtype
    (mkRaw n rs).
Proof.
  intros Hpre. unfold load_flow_csv, header_idxs. cbn [ncols raw_rows].
  rewrite (header_positions_skip pre rs Hpre 0).
  rewrite header_positions_shift, length_app.
  replace (map (fun a => a + List.length pre) (header_positions 0 rs) ++
           [List.length pre + List.length rs])
    with (map (fun a => a + List.length pre)
              (header_positions 0 rs ++ [List.length rs]))
    by (rewrite map_app; cbn [map]; do 2 f_equal; lia).
  now rewrite collect_blocks_shift.
Qed.

Lemma load_flow_csv_ignores_leading_rows_witness :
  demo_load_flow_csv
    (mkRaw 3 ([["01/01/2024"; "23:55"; "99"]]%string
              ++ raw_rows sample_flow_table)) =
  demo_load_flow_csv sample_flow_table.
Proof.
  apply (load_flow_csv_ignores_leading_rows (map dmy_to_datetime)
           decimal_to_numeric decimal_dtype same_dtype 3
           [["01/01/2024"; "23:55"; "99"]]%string
           (raw_rows sample_flow_table)).
  intros r [<-|[]]. reflexivity.
Defined.

(** ** Orders given by a comparison *)

Section CmpLeb.
Context {K : Type}.
Variable cmp : K -> K -> comparison.
Context `{StrictCmp K cmp}.

Lemma cmp_leb_total (a b : K) : cmp_leb cmp a b = true \/ cmp_leb cmp b a = true.
Proof.
  unfold cmp_leb. rewrite (cmp_antisym a b). destruct (cmp a b); cbn; auto.
Qed.

Lemma cmp_leb_trans (a b c : K) :
  cmp_leb cmp a b = true -> cmp_leb cmp b c = true -> cmp_leb cmp a c = true.
Proof.
  unfold cmp_leb.
  destruct (cmp a b) eqn:Eab; try discriminate;
    destruct (cmp b c) eqn:Ebc; try discriminate; intros _ _.
  - apply cmp_eq_iff in Eab, Ebc. subst.
    now rewrite (proj2 (cmp_eq_iff c c) eq_refl).
  - apply cmp_eq_iff in Eab. subst. now rewrite Ebc.
  - apply cmp_eq_iff in Ebc. subst. now rewrite Eab.
  - now rewrite (cmp_lt_trans a b c Eab Ebc).
Qed.
End CmpLeb.

Lemma quality_leb_cmp (a b : QualityReading) :
  quality_leb a b = cmp_leb pair_compare (quality_key a) (quality_key b).
Proof.
  unfold quality_leb, cmp_leb, pair_compare, quality_key. cbn [fst snd].
  destruct (String.compare (parameter a) (parameter b)); reflexivity.
Qed.

Lemma quality_leb_total (a b : QualityReading) :
  quality_leb a b = true \/ quality_leb b a = true.
Proof. rewrite !quality_leb_cmp. apply cmp_leb_total. exact _. Qed.

Lemma quality_leb_trans (a b c : QualityReading) :
  quality_leb a b = true -> quality_leb b c = true -> quality_leb a c = true.
Proof. rewrite !quality_leb_cmp. apply cmp_leb_trans. exact _. Qed.

(** ** The quality parser: rows that do not count, and what every reading
    carries *)

Section QualityParserFacts.
Variable to_datetime : string -> option Z.
Variable to_numeric : string -> float.
Variable py_float : string -> option float.

Let step := scan_row to_datetime to_numeric py_float.

Lemma scan_row_short (st : Scan) (r : list string) :
  short_row r = true -> step st r = st.
Proof.
  unfold short_row, step, scan_row.
  destruct (nonempty_cells r) as [|c0 rest]; [reflexivity|].
  destruct (PARAM_RE_match c0); [now rewrite andb_false_r|].
  rewrite andb_true_r. intros Hlen. apply Nat.ltb_lt in Hlen.
  cbn [List.length].
  destruct (Nat.leb_spec 3 (S (List.length rest))) as [|_]; [lia|].
  rewrite andb_false_r. cbn [andb].
  destruct (Nat.ltb_spec (S (List.length rest)) 3) as [_|]; [|lia].
  destruct (in_table st && active st); reflexivity.
Qed.

Lemma scan_skips_short_rows (rs : list (list string)) :
  forall st,
    fold_left step (filter (fun r => negb (short_row r)) rs) st =
    fold_left step rs st.
Proof.
  induction rs as [|r rs IH]; intros st; [reflexivity|].
  cbn [filter fold_left].
  destruct (short_row r) eqn:E; cbn [negb fold_left].
  - now rewrite (scan_row_short st r E).
  - apply IH.
Qed.

Lemma scan_row_invariant (rs : list (list string)) (st : Scan)
      (r : list string) :
  In r rs ->
  scan_invariant py_float rs st ->
  scan_invariant py_float rs (step st r) /\
  List.length (out (step st r)) <= S (List.length (out st)).
Proof.
  intros Hr [Hcur Hout]. unfold step, scan_row.
  destruct (nonempty_cells r) as [|c0 rest] eqn:Ec;
    [split; [split; assumption | lia]|].
  destruct (PARAM_RE_match c0) as [[g1 g2]|] eqn:Em.
  - destruct (parse_safe_range py_float (strip g2)) as [lo hi] eqn:Ep.
    split; [|cbn [out]; lia]. split; [|exact Hout].
    cbn [current_param cur_safe_min cur_safe_max]. intros p [= <-].
    exists r, c0, rest, g1, g2. repeat split; try assumption. now symmetry.
  - destruct (_ && _); [split; [split; assumption | cbn [out]; lia]|].
    destruct (in_table st && active st) eqn:Ea;
      [|split; [split; assumption | lia]].
    destruct (_ <? _); [split; [split; assumption | lia]|].
    destruct (to_datetime _); [|split; [split; assumption | lia]].
    split; [|cbn [out]; rewrite length_app; simpl; lia].
    split; [exact Hcur|]. cbn [out]. apply Forall_app. split; [exact Hout|].
    constructor; [|constructor]. cbn [o_parameter o_safe_min o_safe_max].
    apply andb_true_iff in Ea as [_ Ha]. unfold active in Ha.
    destruct (current_param st) as [p|] eqn:Ecp; [|discriminate].
    split.
    + intros ->. discriminate.
    + now apply Hcur.
Qed.

Lemma scan_invariant_fold (rs l : list (list string)) :
  incl l rs ->
  forall st,
    scan_invariant py_float rs st ->
    scan_invariant py_float rs (fold_left step l st) /\
    List.length (out (fold_left step l st))
    <= List.length (out st) + List.length l.
Proof.
  induction l as [|r l IH]; intros Hincl st Hinv.
  - split; [exact Hinv | simpl; lia].
  - cbn [fold_left].
    destruct (scan_row_invariant rs st r (Hincl r (or_introl eq_refl)) Hinv)
      as [Hinv' Hlen'].
    destruct (IH (fun x Hx => Hincl x (or_intror Hx)) _ Hinv') as [H1 H2].
    split; [exact H1 | simpl; lia].
Qed.
End QualityParserFacts.

(** X6. Rows of a quality table with fewer than three non-empty cells that are
    no parameter header (blank rows among them) do not count: leaving them
    out of the table changes nothing in what [load_quality_csv] returns. *)
Theorem load_quality_csv_skips_short_rows
        (to_datetime : string -> option Z) (to_numeric : string -> float)
        (py_float : string -> option float) (n : nat)
        (rs : list (list string)) :
  load_quality_csv to_datetime to_numeric py_float
    (mkRaw n (filter (fun r => negb (short_row r)) rs)) =
  load_quality_csv to_datetime to_numeric py_float (mkRaw n rs).
Proof.
  unfold load_quality_csv, scan. cbn [raw_rows].
  now rewrite scan_skips_short_rows.
Qed.

Lemma all_none_In (f : OutRow -> option float) (o : list OutRow)
      (r : OutRow) :
  all_none f o = true -> In r o -> f r = None.
Proof.
  unfold all_none. rewrite forallb_forall. intros H Hr.
  specialize (H r Hr). now destruct (f r).
Qed.

Lemma null_bound_columns_In (o : list OutRow) (c : string) :
  In c (null_bound_columns o) <->
  (c = "safe_min"%string /\ all_none o_safe_min o = true) \/
  (c = "safe_max"%string /\ all_none o_safe_max o = true).
Proof.
  unfold null_bound_columns. rewrite in_app_iff.
  destruct (all_none o_safe_min o), (all_none o_safe_max o); simpl;
    intuition congruence.
Qed.

(** X7. The readings [load_quality_csv] returns are ordered by parameter name
    and then by time stamp, are no more than the rows of the table, and
    each carries a non-empty parameter name and the safe range that one
    parameter header row of the table announces: in a float bound column
    the bound the header gives, [NaN] where it gives none; a bound column
    is an object column exactly when no reading could be given a bound, and
    then the header of every reading gives [None], which is what the column
    holds. *)
Theorem load_quality_csv_invariants
        (to_datetime : string -> option Z) (to_numeric : string -> float)
        (py_float : string -> option float) (raw : RawTable) :
  let df := load_quality_csv to_datetime to_numeric py_float raw in
  let readings := rows df in
  StronglySorted (fun a b => quality_leb a b = true) readings /\
  List.length readings <= List.length (raw_rows raw) /\
  (forall x,
      In x readings ->
      parameter x <> EmptyString /\
      exists lo hi,
        from_header py_float (raw_rows raw) (parameter x) lo hi /\
        (~ In "safe_min"%string (object_columns df) ->
         safe_min x = of_option lo) /\
        (~ In "safe_max"%string (object_columns df) ->
         safe_max x = of_option hi) /\
        (In "safe_min"%string (object_columns df) -> lo = None) /\
        (In "safe_max"%string (object_columns df) -> hi = None)) /\
  (readings <> [] ->
   forall c,
     In c (object_columns df) <->
     (c = "safe_min"%string /\
      all_none o_safe_min
        (out (scan to_datetime to_numeric py_float (raw_rows raw))) = true) \/
     (c = "safe_max"%string /\
      all_none o_safe_max
        (out (scan to_datetime to_numeric py_float (raw_rows raw))) = true)).
Proof.
  intros df readings. unfold readings, df. rewrite load_quality_csv_rows.
  destruct (scan_invariant_fold to_datetime to_numeric py_float
              (raw_rows raw) (raw_rows raw) (incl_refl _) scan_init)
    as [[_ Hout] Hlen].
  { split; [intros p [=] | constructor]. }
  fold (scan to_datetime to_numeric py_float (raw_rows raw)) in Hout, Hlen.
  assert (Hobj : forall c o,
             In o (out (scan to_datetime to_numeric py_float (raw_rows raw))) ->
             (In c (object_columns
                      (load_quality_csv to_datetime to_numeric py_float raw))
              <-> In c (null_bound_columns
                          (out (scan to_datetime to_numeric py_float
                                     (raw_rows raw)))))).
  { intros c o Ho. unfold load_quality_csv.
    destruct (out _) as [|o' l]; [contradiction | reflexivity]. }
  split; [|split; [|split]].
  - apply sort_by_sorted; [apply quality_leb_total | apply quality_leb_trans].
  - rewrite sort_by_length. cbn [scan_init out List.length] in Hlen.
    eapply Nat.le_trans; [|exact Hlen].
    generalize (out (scan to_datetime to_numeric py_float (raw_rows raw))).
    intros l. induction l as [|o l IH]; [simpl; lia|].
    cbn [flat_map]. rewrite length_app. unfold to_reading at 1.
    destruct (o_timestamp o); simpl; lia.
  - intros x Hx. apply sort_by_In in Hx. apply in_flat_map in Hx as [o [Ho Hx]].
    rewrite Forall_forall in Hout. destruct (Hout o Ho) as [Hne Hfrom].
    unfold to_reading in Hx. destruct (o_timestamp o); [|contradiction].
    destruct Hx as [<-|[]]. cbn [parameter safe_min safe_max].
    split; [exact Hne|]. exists (o_safe_min o), (o_safe_max o).
    split; [exact Hfrom|]. split; [reflexivity|]. split; [reflexivity|].
    split; intros Hc; apply (Hobj _ o Ho), null_bound_columns_In in Hc;
      destruct Hc as [[Hc Hall]|[Hc Hall]]; try discriminate;
      exact (all_none_In _ _ o Hall Ho).
  - intros Hne c.
    destruct (out (scan to_datetime to_numeric py_float (raw_rows raw)))
      as [|o l] eqn:Eo; [now contradiction Hne|].
    rewrite (Hobj c o (or_introl eq_refl)). apply null_bound_columns_In.
Qed.

Example bound_columns_of_sample_tables :
  object_columns (demo_load_quality_csv unparsed_range_table)
  = ["safe_min"; "safe_max"]%string /\
  object_columns (demo_load_quality_csv one_parsed_range_table) = [] /\
  map (fun x => (parameter x, safe_min x, safe_max x))
      (rows (demo_load_quality_csv one_parsed_range_table))
  = [("HUMIDITY (HUMIDITY)"%string, NaN, NaN);
     ("HUMIDITY (HUMIDITY)"%string, NaN, NaN);
     ("TDS (TDS)"%string, Fin 0, Fin 500)].
Proof. repeat split; vm_compute; reflexivity. Qed.

(** ** Splitting a safe-range text *)

Lemma append_snoc (acc s : string) (c : ascii) :
  (snoc acc c ++ s)%string = (acc ++ String c s)%string.
Proof.
  unfold snoc. induction acc as [|a acc IH]; simpl; [reflexivity|].
  now rewrite IH.
Qed.

Lemma append_empty_r (s : string) : (s ++ "")%string = s.
Proof. induction s as [|a s IH]; simpl; [reflexivity | now rewrite IH]. Qed.

Lemma split_to_aux_nonempty (s : string) :
  forall acc, split_to_aux acc s <> [].
Proof.
  induction s as [|c s IH]; intros acc; simpl; [discriminate|].
  destruct s as [|d s']; [discriminate|].
  destruct (Ascii.eqb c "t" && Ascii.eqb d "o"); [discriminate | apply IH].
Qed.

Lemma split_to_aux_step (acc : string) (c d : ascii) (s : string) :
  split_to_aux acc (String c (String d s)) =
  if Ascii.eqb c "t" && Ascii.eqb d "o"
  then acc :: split_to_aux EmptyString s
  else split_to_aux (snoc acc c) (String d s).
Proof. reflexivity. Qed.

(** Joining the pieces with the separator gives the text back. *)
Lemma split_to_aux_join (n : nat) :
  forall s acc,
    String.length s <= n ->
    join_to (split_to_aux acc s) = (acc ++ s)%string.
Proof.
  induction n as [|n IH]; intros s acc Hn.
  - destruct s; [|simpl in Hn; lia]. simpl. now rewrite append_empty_r.
  - destruct s as [|c s]; [simpl; now rewrite append_empty_r|].
    destruct s as [|d s'].
    + simpl. reflexivity.
    + rewrite split_to_aux_step.
      destruct (Ascii.eqb c "t" && Ascii.eqb d "o") eqn:E.
      * apply andb_true_iff in E as [Ec Ed].
        apply Ascii.eqb_eq in Ec, Ed. subst c d.
        pose proof (IH s' EmptyString ltac:(simpl in Hn; lia)) as Hrec.
        cbn [join_to].
        destruct (split_to_aux "" s') as [|p ps] eqn:Es;
          [now apply split_to_aux_nonempty in Es|].
        rewrite Hrec. reflexivity.
      * rewrite IH by (simpl in Hn |- *; lia).
        apply (append_snoc acc (String d s') c).
Qed.

Lemma split_to_join (s : string) : join_to (split_to s) = s.
Proof. unfold split_to. now rewrite (split_to_aux_join (String.length s)). Qed.

Lemma split_to_without_separator (s : string) :
  forall acc,
    contains "to" s = false -> split_to_aux acc s = [(acc ++ s)%string].
Proof.
  induction s as [|c s IH]; intros acc Hc.
  - simpl. now rewrite append_empty_r.
  - cbn [contains] in Hc. apply orb_false_iff in Hc as [Hp Hc].
    destruct s as [|d s']; [reflexivity|].
    rewrite split_to_aux_step.
    assert (E : Ascii.eqb c "t" && Ascii.eqb d "o" = false).
    { cbn [prefix] in Hp.
      destruct (Ascii.eqb_spec "t" c) as [<-|Hct].
      - destruct (Ascii.eqb_spec "o" d) as [<-|Hdo].
        + destruct s'; discriminate Hp.
        + rewrite (proj2 (Ascii.eqb_neq d "o")) by congruence.
          apply andb_false_r.
      - rewrite (proj2 (Ascii.eqb_neq c "t")) by congruence. reflexivity. }
    rewrite E, (IH _ Hc). f_equal. apply append_snoc.
Qed.

(** X8. [_parse_safe_range] fails closed: it gives both bounds or none, never
    one.  It gives both only when the text is two pieces around a single
    "to" both of which the builtin [float] accepts; a text without "to"
    gives none. *)
Theorem parse_safe_range_fail_closed
        (py_float : string -> option float) (text : string) :
  (parse_safe_range py_float text = (None, None) \/
   exists x y lo hi,
     parse_safe_range py_float text = (Some lo, Some hi) /\
     text = (x ++ "to" ++ y)%string /\
     py_float (strip x) = Some lo /\ py_float (strip y) = Some hi) /\
  (contains "to" text = false ->
   parse_safe_range py_float text = (None, None)).
Proof.
  unfold parse_safe_range. split.
  - pose proof (split_to_join text) as Hj.
    destruct (split_to text) as [|x [|y [|z l]]]; auto.
    destruct (py_float (strip x)) as [lo|] eqn:Ex; auto.
    destruct (py_float (strip y)) as [hi|] eqn:Ey; auto.
    right. exists x, y, lo, hi. repeat split; try assumption.
    now rewrite <- Hj.
  - intros Hc. unfold split_to. now rewrite split_to_without_separator.
Qed.

(** ** Percentages *)

Lemma count_true_false (s : list bool) :
  count_true s + count_false s = List.length s.
Proof.
  unfold count_true, count_false. induction s as [|b s IH]; [reflexivity|].
  destruct b; simpl in *; lia.
Qed.

(** The share of [True] in a non-empty boolean column, times 100, is a
    number between 0 and 100. *)
Lemma pct_bounds (s : list bool) :
  s <> [] ->
  exists p,
    fmul (Fin 100) (bool_mean s) = Fin p /\ (0 <= p)%Q /\ (p <= 100)%Q /\
    (p * inject_Z (Z.of_nat (List.length s))
     == 100 * inject_Z (Z.of_nat (count_true s)))%Q.
Proof.
  intros Hne. unfold bool_mean, fdiv, of_nat, of_Z.
  destruct s as [|b s]; [contradiction|].
  set (l := b :: s). assert (Hl : List.length l = S (List.length s)) by reflexivity.
  rewrite Hl, of_nat_succ_nonzero. cbn [fmul].
  set (k := inject_Z (Z.of_nat (count_true l))).
  set (n := inject_Z (Z.of_nat (S (List.length s)))).
  assert (Hn : (0 < n)%Q) by apply inject_nat_pos.
  assert (Hk0 : (0 <= k)%Q)
    by (unfold k; change 0%Q with (inject_Z 0); rewrite <- Zle_Qle; lia).
  assert (Hkn : (k <= n)%Q).
  { unfold k, n. rewrite <- Zle_Qle. pose proof (count_true_le l). lia. }
  exists (100 * (k / n))%Q. split; [reflexivity|].
  assert (H0 : (0 <= k / n)%Q)
    by (apply Qle_shift_div_l; [exact Hn | now rewrite Qmult_0_l]).
  assert (H1 : (k / n <= 1)%Q)
    by (apply Qle_shift_div_r; [exact Hn | now rewrite Qmult_1_l]).
  split; [|split].
  - apply Qmult_le_0_compat; [discriminate | exact H0].
  - setoid_replace 100%Q with (100 * 1)%Q at 2 by ring.
    apply Qmult_le_l; [reflexivity | exact H1].
  - field. intros E. rewrite E in Hn. now apply Qlt_irrefl in Hn.
Qed.

(** ** The compliance rollup: rows, counts and percentages *)

Lemma quality_daily_compliance_groups (q : list QualityReading) :
  quality_daily_compliance q =
  map compliance_row (groupby pair_compare compliance_key q).
Proof.
  unfold quality_daily_compliance. apply sort_by_sorted_id.
  eapply StronglySorted_map; [|apply groupby_keys_sorted; exact _].
  intros [[p1 d1] g1] [[p2 d2] g2] Hlt. cbn [fst] in Hlt.
  unfold compliance_leb, compliance_row. cbn [c_parameter c_date fst snd].
  now rewrite Hlt.
Qed.

Lemma breach_measure (g : list QualityReading) :
  list_sum (map (fun r => if in_range r then 0 else 1) g) =
  count_false (map in_range g).
Proof.
  unfold count_false. induction g as [|r g IH]; [reflexivity|].
  cbn [map filter]. destruct (in_range r); cbn [negb]; simpl in *; lia.
Qed.

(** X9. [quality_daily_compliance] has one row per parameter and local day
    with readings, in the order of parameter name and day.  The reading
    counts of the rows add up to the number of readings and the breach
    counts to the number of readings out of range.  In a row, breaches and
    in-range readings make up the readings, and the percentage in range is
    a number between 0 and 100, namely 100 times the in-range share. *)
Theorem quality_daily_compliance_accounts (q : list QualityReading) :
  let rows := quality_daily_compliance q in
  StronglySorted
    (fun a b =>
       pair_compare (c_parameter a, c_date a) (c_parameter b, c_date b) = Lt)
    rows /\
  list_sum (map c_readings rows) = List.length q /\
  list_sum (map breaches rows) =
    List.length (filter (fun r => negb (in_range r)) q) /\
  (forall row,
      In row rows ->
      1 <= c_readings row /\ breaches row <= c_readings row /\
      exists p,
        pct_in_range row = Fin p /\ (0 <= p)%Q /\ (p <= 100)%Q /\
        (p * inject_Z (Z.of_nat (c_readings row))
         == 100 * inject_Z (Z.of_nat (c_readings row - breaches row)))%Q).
Proof.
  intros rows. unfold rows. rewrite quality_daily_compliance_groups.
  split; [|split; [|split]].
  - eapply StronglySorted_map; [|apply groupby_keys_sorted; exact _].
    intros [[p1 d1] g1] [[p2 d2] g2] Hlt. exact Hlt.
  - rewrite map_map. cbn [compliance_row c_readings].
    erewrite map_ext; [|intros kg; apply length_map].
    apply (groupby_sizes pair_compare compliance_key).
  - rewrite map_map. cbn [compliance_row breaches].
    erewrite map_ext; [|intros kg; symmetry; apply breach_measure].
    unfold groupby. rewrite map_map. cbn [snd].
    rewrite (groups_add_up pair_compare compliance_key
               (fun r => if in_range r then 0 else 1) q).
    + rewrite breach_measure. apply count_false_filter.
    + apply group_keys_NoDup. exact _.
    + intros x Hx. apply (group_keys_In _ _ cmp_eq_iff). now exists x.
  - intros row Hrow. apply in_map_iff in Hrow as [[k g] [<- Hin]].
    pose proof (groupby_nonempty pair_compare compliance_key q k g Hin) as Hne.
    cbn [compliance_row c_readings breaches pct_in_range fst snd].
    pose proof (count_true_false (map in_range g)) as Hsum.
    assert (Hs : map in_range g <> [])
      by (destruct g; [contradiction | discriminate]).
    split; [|split].
    + rewrite length_map. destruct g; [contradiction | simpl; lia].
    + lia.
    + destruct (pct_bounds _ Hs) as (p & Hp & H0 & H100 & Hshare).
      exists p. split.
      * destruct (map in_range g); [contradiction | exact Hp].
      * split; [exact H0|]. split; [exact H100|].
        replace (List.length (map in_range g) - count_false (map in_range g))
          with (count_true (map in_range g)) by lia.
        exact Hshare.
Qed.

(** ** Breaches of the last 24 hours *)

Lemma fold_max_spec (l : list Z) (a : Z) :
  (a <= fold_left Z.max l a)%Z /\
  Forall (fun x => (x <= fold_left Z.max l a)%Z) l /\
  (fold_left Z.max l a = a \/ In (fold_left Z.max l a) l).
Proof.
  revert a. induction l as [|x l IH]; intros a; cbn [fold_left].
  - split; [lia|]. split; [constructor | now left].
  - destruct (IH (Z.max a x)) as (H1 & H2 & H3).
    split; [lia|]. split.
    + constructor; [lia | exact H2].
    + destruct H3 as [H3|H3]; [|right; now right].
      rewrite H3. destruct (Z.max_spec a x) as [[_ E]|[_ E]]; rewrite E.
      * right. now left.
      * now left.
Qed.

(** [latest] is the time stamp of a reading of the frame, and no reading
    is later. *)
Lemma latest_spec (r : QualityReading) (rest : list QualityReading) :
  (forall y, In y (r :: rest) -> (q_timestamp y <= latest r rest)%Z) /\
  (exists y, In y (r :: rest) /\ q_timestamp y = latest r rest).
Proof.
  unfold latest.
  destruct (fold_max_spec (map q_timestamp rest) (q_timestamp r))
    as (H1 & H2 & H3).
  split.
  - intros y [<-|Hy]; [exact H1|].
    rewrite Forall_forall in H2. apply H2. now apply in_map.
  - destruct H3 as [H3|H3].
    + exists r. split; [now left | now rewrite H3].
    + apply in_map_iff in H3 as (y & Hy & Hin).
      exists y. split; [now right | exact Hy].
Qed.

Lemma latest_breaches_sorted (quality : list QualityReading) :
  StronglySorted (fun a b => quality_leb a b = true)
                 (quality_latest_breaches quality).
Proof.
  unfold quality_latest_breaches. destruct quality as [|r rest].
  - constructor.
  - apply sort_by_sorted; [apply quality_leb_total | apply quality_leb_trans].
Qed.

Lemma latest_breaches_In (quality : list QualityReading) (x : QualityReading) :
  In x (quality_latest_breaches quality) <->
  In x quality /\ in_range x = false /\
  forall y, In y quality ->
            (q_timestamp y - 24 * ns_per_hour <= q_timestamp x)%Z.
Proof.
  unfold quality_latest_breaches. destruct quality as [|r rest].
  - split; [intros [] | intros [[] _]].
  - cbv zeta. rewrite sort_by_In, !filter_In, negb_true_iff, andb_true_iff.
    rewrite Z.leb_le, Z.leb_le.
    destruct (latest_spec r rest) as (Hmax & ym & Hym & Eym).
    split.
    + intros [(Hin & Hlo & Hhi) Hout].
      split; [exact Hin|]. split; [exact Hout|].
      intros y Hy. specialize (Hmax y Hy). lia.
    + intros (Hin & Hout & Hrecent).
      split; [|exact Hout]. split; [exact Hin|].
      split; [|now apply Hmax].
      specialize (Hrecent ym Hym). lia.
Qed.

(** X10. [quality_latest_breaches] returns, in the order of parameter name and
    time stamp, exactly the readings that are out of range and at most 24
    hours older than the newest reading of the frame, whatever the
    parameter of that newest reading. *)
Theorem quality_latest_breaches_window (quality : list QualityReading) :
  let out := quality_latest_breaches quality in
  StronglySorted (fun a b => quality_leb a b = true) out /\
  (forall x,
      In x out <->
      In x quality /\ in_range x = false /\
      forall y, In y quality ->
                (q_timestamp y - 24 * ns_per_hour <= q_timestamp x)%Z).
Proof.
  intros out. split; [apply latest_breaches_sorted|].
  intros x. apply latest_breaches_In.
Qed.

(** X11. Handing the result of [quality_latest_breaches] to the function again
    changes nothing. *)
Theorem quality_latest_breaches_idempotent (quality : list QualityReading) :
  quality_latest_breaches (quality_latest_breaches quality) =
  quality_latest_breaches quality.
Proof.
  pose proof (latest_breaches_sorted quality) as Hs.
  pose proof (latest_breaches_In quality) as Hin.
  remember (quality_latest_breaches quality) as b eqn:Eb.
  clear Eb. destruct b as [|r rest]; [reflexivity|].
  unfold quality_latest_breaches.
  destruct (latest_spec r rest) as (Hmax & ym & Hym & Eym).
  set (stop := latest r rest) in *.
  assert (Hall : forall x, In x (r :: rest) ->
            in_range x = false /\
            (stop - 24 * ns_per_hour <= q_timestamp x)%Z /\
            (q_timestamp x <= stop)%Z).
  { intros x Hx. destruct (proj1 (Hin x) Hx) as (Hq & Hout & Hrec).
    split; [exact Hout|]. split; [|now apply Hmax].
    destruct (proj1 (Hin ym) Hym) as (Hqm & _ & _).
    specialize (Hrec ym Hqm). lia. }
  rewrite (forallb_filter_id _ (r :: rest)).
  - rewrite forallb_filter_id.
    + now apply sort_by_sorted_id.
    + apply forallb_forall. intros x Hx.
      destruct (Hall x Hx) as (Hout & _). now rewrite Hout.
  - apply forallb_forall. intros x Hx.
    destruct (Hall x Hx) as (_ & Hlo & Hhi).
    apply andb_true_iff. split; now apply Z.leb_le.
Qed.

(** ** Recommendations *)

Lemma substring_contains_ph (k : nat) (p : string) :
  substring k 4 p = "(pH)"%string -> contains "(pH" p = true.
Proof.
  revert p. induction k as [|k IH]; intros p H.
  - destruct p as [|a [|b [|c [|d p]]]]; try discriminate.
    cbn in H. injection H as -> -> -> _.
    reflexivity.
  - destruct p as [|a p]; [discriminate|].
    cbn [substring] in H. apply IH in H.
    cbn [contains]. rewrite H. apply orb_true_r.
Qed.

(** The test [p.endswith("(pH)")] of the pH rule adds nothing to the two
    tests before it. *)
Lemma is_ph_contains (p : string) :
  is_ph p = contains "(pH" p || contains "pH)" p.
Proof.
  unfold is_ph. destruct (ends_with "(pH)" p) eqn:E.
  - unfold ends_with in E. apply andb_true_iff in E as [_ E].
    apply String.eqb_eq in E. apply substring_contains_ph in E.
    rewrite E. reflexivity.
  - apply orb_false_r.
Qed.

Lemma existsb_nodup (f : string -> bool) (l : list string) :
  existsb f (nodup string_dec l) = existsb f l.
Proof.
  apply eq_true_iff_eq. rewrite !existsb_exists.
  split; intros (x & Hx & Hf); exists x; split; try exact Hf;
    now apply nodup_In in Hx || apply nodup_In.
Qed.

Lemma tip_if_In (test : string -> bool) (qb : list QualityReading)
      (text t : string) :
  In t (tip_if test (nodup string_dec (map parameter qb)) text) <->
  t = text /\ exists r, In r qb /\ test (parameter r) = true.
Proof.
  unfold tip_if. rewrite existsb_nodup.
  destruct (existsb test (map parameter qb)) eqn:E.
  - apply existsb_exists in E as (p & Hp & Ht).
    apply in_map_iff in Hp as (r & <- & Hr).
    split.
    + intros [<-|[]]. split; [reflexivity | now exists r].
    + intros [-> _]. now left.
  - split; [intros []|].
    intros [_ (r & Hr & Ht)].
    assert (existsb test (map parameter qb) = true)
      by (apply existsb_exists; exists (parameter r);
          split; [now apply in_map | exact Ht]).
    congruence.
Qed.

Lemma tips_distinct :
  NoDup [tip_tds; tip_ph; tip_solids; tip_bod; tip_humidity] /\
  ~ In all_clear [tip_tds; tip_ph; tip_solids; tip_bod; tip_humidity].
Proof.
  split.
  - repeat constructor; cbn [In]; intuition discriminate.
  - cbn [In]. intuition discriminate.
Qed.

Lemma tip_if_sub (test : string -> bool) (params : list string)
      (text : string) :
  tip_if test params text = [text] \/ tip_if test params text = [].
Proof. unfold tip_if. destruct (existsb test params); auto. Qed.

Lemma recommendations_nonempty (r : QualityReading)
      (rest : list QualityReading) :
  let params := nodup string_dec (map parameter (r :: rest)) in
  simple_recommendations (r :: rest) =
  tip_if (contains "TDS") params tip_tds ++
  tip_if is_ph params tip_ph ++
  tip_if is_solids params tip_solids ++
  tip_if is_bod params tip_bod ++
  tip_if (contains "HUMIDITY") params tip_humidity.
Proof. reflexivity. Qed.

Lemma recommendations_among (qb : list QualityReading) :
  qb <> [] ->
  NoDup (simple_recommendations qb) /\
  incl (simple_recommendations qb)
       [tip_tds; tip_ph; tip_solids; tip_bod; tip_humidity].
Proof.
  intros Hne. destruct qb as [|r rest]; [contradiction|].
  rewrite recommendations_nonempty. cbv zeta.
  set (params := nodup string_dec (map parameter (r :: rest))).
  destruct tips_distinct as [Hnd _].
  destruct (tip_if_sub (contains "TDS") params tip_tds) as [-> | ->];
  destruct (tip_if_sub is_ph params tip_ph) as [-> | ->];
  destruct (tip_if_sub is_solids params tip_solids) as [-> | ->];
  destruct (tip_if_sub is_bod params tip_bod) as [-> | ->];
  destruct (tip_if_sub (contains "HUMIDITY") params tip_humidity)
    as [-> | ->];
  cbn [app]; (split; [|intros t Ht; cbn [In] in *; tauto]);
  repeat match goal with
         | H : NoDup (_ :: _) |- _ =>
             let a := fresh in let b := fresh in
             apply NoDup_cons_iff in H as [a b]
         end;
  repeat (constructor; cbn [In] in *; try tauto).
Qed.

(** X12. [simple_recommendations] answers with the all-clear sentence, alone,
    exactly for a frame without rows; a frame with rows never gets it. *)
Theorem simple_recommendations_all_clear (qb : list QualityReading) :
  (simple_recommendations qb = [all_clear] <-> qb = []) /\
  (In all_clear (simple_recommendations qb) <-> qb = []).
Proof.
  assert (H : In all_clear (simple_recommendations qb) -> qb = []).
  { intros Hin. destruct qb as [|r rest]; [reflexivity|]. exfalso.
    destruct (recommendations_among (r :: rest)) as [_ Hincl];
      [discriminate|].
    apply Hincl in Hin. now apply (proj2 tips_distinct). }
  split; split.
  - intros E. apply H. rewrite E. now left.
  - intros ->. reflexivity.
  - exact H.
  - intros ->. now left.
Qed.

(** X13. For a frame of breaches with rows, each of the five tips is given at
    most once, and it is given exactly when the name of some breached
    parameter contains one of its fragments: TDS; (pH or pH); TSS or Turb;
    BOD or COD; HUMIDITY.  The tests are case-sensitive substring tests. *)
Theorem simple_recommendations_rules (qb : list QualityReading) :
  qb <> [] ->
  let named (frags : list string) :=
    exists r f, In r qb /\ In f frags /\ contains f (parameter r) = true in
  NoDup (simple_recommendations qb) /\
  forall t,
    In t (simple_recommendations qb) <->
    (t = tip_tds /\ named ["TDS"%string]) \/
    (t = tip_ph /\ named ["(pH"%string; "pH)"%string]) \/
    (t = tip_solids /\ named ["TSS"%string; "Turb"%string]) \/
    (t = tip_bod /\ named ["BOD"%string; "COD"%string]) \/
    (t = tip_humidity /\ named ["HUMIDITY"%string]).
Proof.
  intros Hne named. split; [now apply recommendations_among|].
  destruct qb as [|r0 rest]; [contradiction|].
  intros t. rewrite recommendations_nonempty. cbv zeta.
  rewrite !in_app_iff, !tip_if_In.
  assert (one : forall f,
             (exists r, In r (r0 :: rest) /\ contains f (parameter r) = true)
             <-> named [f]).
  { intros f. unfold named. split.
    - intros (r & Hr & Hc). exists r, f. split; [exact Hr|].
      split; [now left | exact Hc].
    - intros (r & f' & Hr & [<-|[]] & Hc). now exists r. }
  assert (two : forall f g,
             (exists r, In r (r0 :: rest) /\
                        contains f (parameter r) || contains g (parameter r)
                        = true)
             <-> named [f; g]).
  { intros f g. unfold named. split.
    - intros (r & Hr & Hc). apply orb_true_iff in Hc as [Hc|Hc].
      + exists r, f. split; [exact Hr|]. split; [now left | exact Hc].
      + exists r, g. split; [exact Hr|].
        split; [right; now left | exact Hc].
    - intros (r & f' & Hr & [<-|[<-|[]]] & Hc); exists r;
        (split; [exact Hr|]); rewrite Hc; [reflexivity | apply orb_true_r]. }
  rewrite (one "TDS"%string), (one "HUMIDITY"%string).
  unfold is_solids, is_bod.
  rewrite (two "TSS"%string "Turb"%string), (two "BOD"%string "COD"%string).
  assert (ph : (exists r, In r (r0 :: rest) /\ is_ph (parameter r) = true)
               <-> named ["(pH"%string; "pH)"%string]).
  { rewrite <- two. split; intros (r & Hr & Hc); exists r;
      (split; [exact Hr|]); now rewrite is_ph_contains in *. }
  rewrite ph. tauto.
Qed.

Lemma simple_recommendations_rules_witness :
  [mkQuality 0 "TDS (TDS)" (Fin 900) (Fin 0) (Fin 500)] <> [] /\
  In tip_tds
     (simple_recommendations
        [mkQuality 0 "TDS (TDS)" (Fin 900) (Fin 0) (Fin 500)]).
Proof.
  split; [discriminate|].
  apply (proj2 (simple_recommendations_rules
                  [mkQuality 0 "TDS (TDS)" (Fin 900) (Fin 0) (Fin 500)]
                  ltac:(discriminate))).
  left. split; [reflexivity|].
  eexists. exists "TDS"%string.
  split; [now left|]. split; [now left | reflexivity].
Defined.

(** X14. The alerts tab: the recommendations computed from the breaches of the
    last 24 hours are the all-clear sentence exactly when every reading
    that is at most 24 hours older than the newest reading is in range. *)
Theorem recommendations_all_clear_iff_recent_in_range
        (quality : list QualityReading) :
  simple_recommendations (quality_latest_breaches quality) = [all_clear] <->
  forall x,
    In x quality ->
    (forall y, In y quality ->
               (q_timestamp y - 24 * ns_per_hour <= q_timestamp x)%Z) ->
    in_range x = true.
Proof.
  assert (H : simple_recommendations (quality_latest_breaches quality)
              = [all_clear] <-> quality_latest_breaches quality = []).
  { destruct (quality_latest_breaches quality) as [|r rest] eqn:E.
    - split; reflexivity.
    - split; [|discriminate]. intros Hs. exfalso.
      destruct (recommendations_among (r :: rest)) as [_ Hincl];
        [discriminate|].
      apply (proj2 tips_distinct), Hincl. rewrite Hs. now left. }
  rewrite H. split.
  - intros E x Hx Hrec. destruct (in_range x) eqn:Hr; [reflexivity|].
    exfalso. assert (Hin : In x (quality_latest_breaches quality))
      by (apply latest_breaches_In; auto).
    now rewrite E in Hin.
  - intros Hall. destruct (quality_latest_breaches quality) as [|r rest] eqn:E;
      [reflexivity|]. exfalso.
    assert (Hin : In r (quality_latest_breaches quality))
      by (rewrite E; now left).
    apply latest_breaches_In in Hin as (Hq & Hout & Hrec).
    rewrite (Hall r Hq Hrec) in Hout. discriminate.
Qed.

(** ** Spike detection: what is refused, what comes back, what is flagged *)

Lemma min_periods_le (window : nat) :
  min_periods window <= window <-> 6 <= window.
Proof.
  unfold min_periods.
  assert (window / 4 <= window) by (apply Nat.Div0.div_le_upper_bound; lia).
  lia.
Qed.

Lemma map_fst_combine {A B : Type} (l : list A) (l' : list B) :
  List.length l = List.length l' -> map fst (combine l l') = l.
Proof.
  revert l'. induction l as [|a l IH]; intros [|b l'] H; simpl in *;
    try discriminate; [reflexivity|].
  f_equal. apply IH. now injection H.
Qed.

Lemma flow_leb_total (a b : FlowReading) :
  flow_leb a b = true \/ flow_leb b a = true.
Proof. unfold flow_leb. rewrite !Z.leb_le. lia. Qed.

Lemma flow_leb_trans (a b c : FlowReading) :
  flow_leb a b = true -> flow_leb b c = true -> flow_leb a c = true.
Proof. unfold flow_leb. rewrite !Z.leb_le. lia. Qed.

Lemma rolling_mad_length (w : nat) (cons : list float) :
  List.length (rolling_mad w cons) = List.length cons.
Proof.
  rewrite rolling_mad_unfold.
  rewrite rolling_median_length, length_map, length_combine.
  rewrite rolling_median_length. lia.
Qed.

(** The readings of the rows [flow_anomalies] returns. *)
Lemma flow_anomalies_readings (flow : list FlowReading) (window : nat)
      (recs : list AnomalyRecord) :
  flow_anomalies flow window = Ok recs ->
  map (fun rec => (a_timestamp rec, a_consumption rec)) recs =
  map (fun r => (timestamp r, consumption r)) (sort_by flow_leb flow).
Proof.
  unfold flow_anomalies. destruct (_ <? _); [discriminate|].
  intros [= <-]. rewrite map_map. cbn [a_timestamp a_consumption].
  set (z := sort_by flow_leb flow).
  set (med := rolling_median _ _ _). set (thr := map _ (combine med _)).
  assert (Hmed : List.length med = List.length z)
    by (unfold med; now rewrite rolling_median_length, length_map).
  assert (Hthr : List.length thr = List.length z).
  { unfold thr. rewrite length_map, length_combine, rolling_mad_length.
    rewrite length_map. lia. }
  rewrite <- (map_map (fun rmt => fst (fst rmt))
                      (fun r => (timestamp r, consumption r))).
  f_equal. rewrite <- (map_map fst fst).
  rewrite map_fst_combine by (rewrite length_combine; lia).
  apply map_fst_combine. lia.
Qed.

(** X15. [flow_anomalies] raises [ValueError] exactly for a window of fewer
    than six readings.  Otherwise it returns one row per reading, the
    readings with their time stamps and consumption unchanged, in the order
    of the time stamps. *)
Theorem flow_anomalies_window_guard (flow : list FlowReading) (window : nat) :
  match flow_anomalies flow window with
  | Raise e => e = ValueError /\ window < 6
  | Ok recs =>
      6 <= window /\
      List.length recs = List.length flow /\
      Permutation (map (fun rec => (a_timestamp rec, a_consumption rec)) recs)
                  (map (fun r => (timestamp r, consumption r)) flow) /\
      StronglySorted Z.le (map a_timestamp recs)
  end.
Proof.
  destruct (flow_anomalies flow window) as [recs|e] eqn:E.
  - pose proof (flow_anomalies_readings flow window recs E) as Hrows.
    assert (Hw : 6 <= window).
    { unfold flow_anomalies in E.
      destruct (Nat.ltb_spec window (min_periods window)); [discriminate|].
      now apply min_periods_le. }
    split; [exact Hw|]. split; [|split].
    + rewrite <- (length_map (fun rec => (a_timestamp rec, a_consumption rec))).
      now rewrite Hrows, length_map, sort_by_length.
    + rewrite Hrows. apply Permutation_map, sort_by_perm.
    + replace (map a_timestamp recs)
        with (map fst (map (fun rec => (a_timestamp rec, a_consumption rec))
                           recs))
        by (rewrite map_map; reflexivity).
      rewrite Hrows, map_map. cbn [fst].
      eapply StronglySorted_map;
        [|apply (sort_by_sorted flow_leb flow_leb_total flow_leb_trans)].
      intros a b Hab. now apply Z.leb_le.
  - unfold flow_anomalies in E.
    destruct (Nat.ltb_spec window (min_periods window)) as [Hlt|];
      [|discriminate].
    injection E as <-. split; [reflexivity|].
    destruct (Nat.lt_ge_cases window 6) as [|Hge]; [assumption|].
    apply min_periods_le in Hge. lia.
Qed.

Lemma observed_all_nan (l : list float) :
  (forall d, In d l -> d = NaN) -> observed l = [].
Proof.
  induction l as [|x xs IH]; intros H; [reflexivity|].
  unfold observed in *. cbn [filter].
  rewrite (H x (or_introl eq_refl)). cbn. apply IH.
  intros d Hd. apply H. now right.
Qed.

Lemma observed_app (a b : list float) :
  observed (a ++ b) = observed a ++ observed b.
Proof. apply filter_app. Qed.

(** A column whose first [k] cells are missing has at most [n - k] values
    among its first [n] cells. *)
Lemma observed_firstn_after (k : nat) (l : list float) (n : nat) :
  (forall j d, j < k -> nth_error l j = Some d -> d = NaN) ->
  List.length (observed (firstn n l)) <= n - k.
Proof.
  intros H.
  assert (Hk : observed (firstn k (firstn n l)) = []).
  { apply observed_all_nan. intros d Hd.
    apply In_nth_error in Hd as [j Hj].
    rewrite firstn_firstn, nth_error_firstn in Hj.
    destruct (Nat.ltb_spec j (Nat.min k n)); [|discriminate].
    apply (H j d); [lia | exact Hj]. }
  rewrite <- (firstn_skipn k (firstn n l)), observed_app, Hk. cbn [app].
  eapply Nat.le_trans; [apply observed_length_le|].
  rewrite length_skipn, length_firstn. lia.
Qed.

Lemma rolling_mad_long_warmup (w : nat) (cons : list float) (i : nat)
      (d : float) :
  i + 2 < 2 * min_periods w ->
  nth_error (rolling_mad w cons) i = Some d -> d = NaN.
Proof.
  intros Hi Hd. rewrite rolling_mad_unfold in Hd.
  apply rolling_median_nth in Hd as ->.
  set (dev := map _ _).
  assert (Hobs : List.length (observed (window_at w i dev))
                 <= S i - (min_periods w - 1)).
  { unfold window_at.
    eapply Nat.le_trans; [apply observed_skipn_le|].
    apply observed_firstn_after. intros j x Hj Hx. unfold dev in Hx.
    rewrite nth_error_map, nth_error_combine in Hx.
    destruct (nth_error cons j) as [c|]; [|discriminate].
    destruct (nth_error (rolling_median _ _ _) j) as [m|] eqn:Em;
      [|discriminate].
    apply rolling_median_warmup in Em as ->; [|lia].
    simpl in Hx. injection Hx as <-. now rewrite fsub_nan_r. }
  destruct (Nat.ltb_spec (List.length (observed (window_at w i dev)))
                         (min_periods w)); [reflexivity | lia].
Qed.

(** X16. The warm-up of [flow_anomalies].  With [mp = max(6, window // 4)], the
    rolling median is missing in the first [mp - 1] rows, and the
    threshold is missing and nothing is flagged in the first [2 * mp - 2]
    rows: ten rows for the default window of 24 readings. *)
Theorem flow_anomalies_warmup
        (flow : list FlowReading) (window : nat) (recs : list AnomalyRecord)
        (i : nat) (rec : AnomalyRecord) :
  flow_anomalies flow window = Ok recs ->
  nth_error recs i = Some rec ->
  (i + 1 < Nat.max 6 (window / 4) -> roll_med rec = NaN) /\
  (i + 2 < 2 * Nat.max 6 (window / 4) ->
   threshold rec = NaN /\ anomaly rec = false).
Proof.
  intros Hok Hrec.
  destruct (flow_anomalies_nth flow window recs i rec Hok Hrec)
    as (r & m & d & _ & Hm & Hd & ->).
  cbn [roll_med threshold anomaly]. split.
  - intros Hi. eapply rolling_median_warmup; [|exact Hm].
    unfold min_periods. lia.
  - intros Hi. apply no_flag_without_threshold.
    rewrite (rolling_mad_long_warmup window _ i d ltac:(unfold min_periods; lia)
               Hd).
    reflexivity.
Qed.

Lemma flow_anomalies_warmup_witness :
  exists recs rec,
    flow_anomalies spike_during_warmup 24 = Ok recs /\
    nth_error recs 5 = Some rec /\
    a_consumption rec = Fin 1000 /\
    threshold rec = NaN /\ anomaly rec = false.
Proof.
  destruct (flow_anomalies spike_during_warmup 24) as [recs|e] eqn:E;
    [|vm_compute in E; discriminate].
  destruct (nth_error recs 5) as [rec|] eqn:Er.
  - exists recs, rec. split; [reflexivity|]. split; [exact Er|].
    split.
    + vm_compute in E. injection E as <-. vm_compute in Er.
      injection Er as <-. reflexivity.
    + apply (flow_anomalies_warmup spike_during_warmup 24 recs 5 rec E Er).
      vm_compute. lia.
  - exfalso. vm_compute in E. injection E as <-. discriminate.
Defined.

Lemma deviation_nonneg (w : nat) (cons : list float) :
  Forall (nan_or (fun q => (0 <= q)%Q)) (rolling_mad w cons).
Proof.
  rewrite rolling_mad_unfold. apply rolling_median_closed.
  - intros a b Ha Hb. apply Qle_shift_div_l; [reflexivity|].
    rewrite Qmult_0_l. rewrite <- (Qplus_0_l 0).
    now apply Qplus_le_compat.
  - apply Forall_forall. intros d Hd.
    apply in_map_iff in Hd as [[c m] [<- _]]. cbn [fst snd].
    destruct c as [|a], m as [|b]; try exact I.
    cbn [fsub fabs nan_or]. apply Qabs_nonneg.
Qed.

Lemma flt_iff (x y : float) :
  flt x y = true <-> exists a b, x = Fin a /\ y = Fin b /\ (a < b)%Q.
Proof.
  destruct x as [|a], y as [|b]; cbn [flt];
    try (split; [discriminate | intros (? & ? & ? & ? & _); discriminate]).
  unfold Qlt_bool. rewrite negb_true_iff. split.
  - intros H. exists a, b. split; [reflexivity|]. split; [reflexivity|].
    apply Qnot_le_lt. intros Hle. apply Qle_bool_iff in Hle. congruence.
  - intros (a' & b' & [= <-] & [= <-] & Hlt).
    destruct (Qle_bool b a) eqn:E; [|reflexivity].
    apply Qle_bool_iff in E. exfalso. now apply (Qlt_not_le a b).
Qed.

(** X17. [flow_anomalies] flags upward spikes only.  A row is flagged exactly
    when its consumption and its threshold are numbers and the consumption
    is greater; and a flagged row has a rolling median, which its
    consumption exceeds.  A reading at or below the rolling median, a
    missing reading, or a row without threshold is never flagged. *)
Theorem flow_anomalies_flags_spikes_only
        (flow : list FlowReading) (window : nat) (recs : list AnomalyRecord)
        (rec : AnomalyRecord) :
  flow_anomalies flow window = Ok recs ->
  In rec recs ->
  (anomaly rec = true <->
   exists c t, a_consumption rec = Fin c /\ threshold rec = Fin t /\
               (t < c)%Q) /\
  (anomaly rec = true ->
   exists c m, a_consumption rec = Fin c /\ roll_med rec = Fin m /\
               (m < c)%Q).
Proof.
  intros Hok Hin. apply In_nth_error in Hin as [i Hrec].
  destruct (flow_anomalies_nth flow window recs i rec Hok Hrec)
    as (r & m & d & _ & _ & Hd & ->).
  cbn [roll_med threshold anomaly a_consumption]. split.
  - unfold fgt. rewrite flt_iff. split.
    + intros (t & c & Ht & Hc & Hlt). now exists c, t.
    + intros (c & t & Hc & Ht & Hlt). now exists t, c.
  - unfold fgt. rewrite flt_iff. intros (t & c & Ht & Hc & Hlt).
    pose proof (deviation_nonneg window
                  (map consumption (sort_by flow_leb flow))) as Hnn.
    rewrite Forall_forall in Hnn.
    specialize (Hnn d (nth_error_In _ _ Hd)).
    destruct m as [|mq]; [discriminate|].
    destruct d as [|dq]; [rewrite fadd_nan_r in Ht; discriminate|].
    unfold zero_to_nan, feqb in Ht.
    destruct (Qeq_bool dq 0) eqn:Ez; [discriminate|].
    cbn [fmul fadd] in Ht. injection Ht as <-.
    exists c, mq. split; [exact Hc|]. split; [reflexivity|].
    cbn [nan_or] in Hnn.
    eapply Qle_lt_trans; [|exact Hlt].
    rewrite <- (Qplus_0_r mq) at 1.
    apply Qplus_le_r.
    apply Qmult_le_0_compat; [discriminate | exact Hnn].
Qed.

Lemma flow_anomalies_flags_spikes_only_witness :
  exists recs rec,
    flow_anomalies constant_flow 24 = Ok recs /\
    In rec recs /\
    (anomaly rec = true <->
     exists c t, a_consumption rec = Fin c /\ threshold rec = Fin t /\
                 (t < c)%Q).
Proof.
  destruct (flow_anomalies constant_flow 24) as [recs|e] eqn:E;
    [|vm_compute in E; discriminate].
  destruct recs as [|rec recs'] eqn:Er;
    [vm_compute in E; discriminate|].
  exists (rec :: recs'), rec. split; [reflexivity|].
  split; [now left|].
  apply (flow_anomalies_flags_spikes_only constant_flow 24 (rec :: recs') rec E).
  now left.
Defined.

(** ** The runs the breach-event loop visits *)

(** X18. The segments [quality_breach_events] cuts a parameter's readings into
    (by comparing each in-range flag with the one before, numbering the
    changes and grouping by the number) are the maximal runs of one flag:
    put end to end they give the readings back in order, none is empty,
    all readings of a segment carry the same flag, and two neighbouring
    segments carry different flags. *)
Theorem segments_are_maximal_runs (g : list QualityReading) :
  List.concat (segments g) = g /\
  Forall (fun seg =>
            exists x rest,
              seg = x :: rest /\
              Forall (fun y => in_range y = in_range x) seg)
         (segments g) /\
  (forall pre s1 s2 post x y,
      segments g = pre ++ s1 :: s2 :: post ->
      In x s1 -> In y s2 -> in_range x <> in_range y).
Proof.
  rewrite segments_runs. split; [apply runs_by_concat|].
  split; [apply runs_by_constant|].
  intros pre s1 s2 post x y. apply runs_by_maximal.
Qed.

(** ** Time parts *)

Lemma month_of_day_range (day : Z) : (1 <= month_of_day day <= 12)%Z.
Proof.
  unfold month_of_day. cbv zeta.
  set (z := (day + 719468)%Z).
  set (doe := (z - z / 146097 * 146097)%Z).
  assert (Hdoe : (0 <= doe < 146097)%Z)
    by (unfold doe; Z.div_mod_to_equations; lia).
  clearbody doe.
  set (yoe := ((doe - doe / 1460 + doe / 36524 - doe / 146096) / 365)%Z).
  set (doy := (doe - (365 * yoe + yoe / 4 - yoe / 100))%Z).
  assert (Hdoy : (0 <= doy <= 365)%Z)
    by (unfold doy, yoe; Z.div_mod_to_equations; lia).
  clearbody doy.
  assert (Hmp : (0 <= (5 * doy + 2) / 153 <= 11)%Z)
    by (Z.div_mod_to_equations; lia).
  destruct (Z.ltb_spec ((5 * doy + 2) / 153) 10); lia.
Qed.

(** Days of the calendar: 1 January 1970 (a Thursday), 31 January and
    1 February 1970, 28 February and 1 March 1970, 31 December 1969,
    1 January, 29 February, 1 March and 31 December 2024. *)
Example month_of_day_calendar :
  map month_of_day [0; 30; 31; 58; 59; -1; 19723; 19782; 19783; 20088]%Z
  = [1; 1; 2; 2; 3; 12; 1; 2; 3; 12]%Z /\
  dow_of (- TZ_offset) = 3%Z.
Proof. split; reflexivity. Qed.

(** ** Monthly rollups *)

Lemma sorted_in_range_length (l : list Z) :
  forall lo hi,
    StronglySorted Z.lt l ->
    Forall (fun x => (lo <= x <= hi)%Z) l ->
    (Z.of_nat (List.length l) <= Z.max 0 (hi - lo + 1))%Z.
Proof.
  induction l as [|x xs IH]; intros lo hi Hs Hr; [simpl; lia|].
  apply StronglySorted_inv in Hs as [Hs Hx].
  apply Forall_cons_iff in Hr as [Hx0 Hr].
  assert (Hr' : Forall (fun y => (x + 1 <= y <= hi)%Z) xs).
  { rewrite Forall_forall in *. intros y Hy.
    specialize (Hx y Hy). specialize (Hr y Hy). lia. }
  specialize (IH (x + 1)%Z hi Hs Hr').
  cbn [List.length]. lia.
Qed.

Lemma same_key_month (p : string) (m : Z) (x : QualityReading) :
  same_key pair_compare quality_month_key (p, m) x =
  String.eqb (parameter x) p && (month_of (q_timestamp x) =? m)%Z.
Proof.
  destruct (same_key _ _ _ x) eqn:E.
  - apply (same_key_eq _ _ pair_compare_eq) in E. injection E as -> ->.
    now rewrite String.eqb_refl, Z.eqb_refl.
  - destruct (String.eqb_spec (parameter x) p) as [Hp|]; [|reflexivity].
    destruct (Z.eqb_spec (month_of (q_timestamp x)) m) as [Hm|];
      [|reflexivity].
    assert (H : same_key pair_compare quality_month_key (p, m) x = true)
      by (apply (same_key_eq _ _ pair_compare_eq); unfold quality_month_key;
          congruence).
    congruence.
Qed.

(** X20. [seasonal_rollups].  The monthly flow table has exactly one row per
    calendar month (1..12) in which a reading falls, whatever the year,
    months ascending, hence at most twelve rows; a row holds the
    consumption of all readings of that month of any year, and the rows
    add up to the total consumption.  The monthly quality table has
    exactly one row per parameter and calendar month in which the
    parameter has a reading, in the order of name and month; its
    percentage is 100 times the share of the readings of that parameter
    and month that are in range, a number between 0 and 100. *)
Theorem seasonal_rollups_months
        (flow : list FlowReading) (quality : list QualityReading) :
  let r := seasonal_rollups flow quality in
  StronglySorted Z.lt (map fst (flow_month r)) /\
  List.length (flow_month r) <= 12 /\
  (forall f,
      In f flow -> In (month_of (timestamp f)) (map fst (flow_month r))) /\
  (forall m total,
      In (m, total) (flow_month r) ->
      (1 <= m <= 12)%Z /\
      (exists f, In f flow /\ month_of (timestamp f) = m) /\
      total = fsum (map consumption
                        (filter (fun f => (month_of (timestamp f) =? m)%Z)
                                flow))) /\
  (total_of (map snd (flow_month r)) == total_of (map consumption flow))%Q /\
  StronglySorted (fun a b => pair_compare (fst a) (fst b) = Lt)
                 (quality_month r) /\
  (forall x,
      In x quality ->
      In (parameter x, month_of (q_timestamp x))
         (map fst (quality_month r))) /\
  (forall p m pct,
      In (p, m, pct) (quality_month r) ->
      (1 <= m <= 12)%Z /\
      (exists x, In x quality /\ parameter x = p /\
                 month_of (q_timestamp x) = m) /\
      pct = fmul (Fin 100)
                 (bool_mean
                    (map in_range
                         (filter (fun x =>
                                    String.eqb (parameter x) p &&
                                    (month_of (q_timestamp x) =? m)%Z)
                                 quality))) /\
      exists x, pct = Fin x /\ (0 <= x)%Q /\ (x <= 100)%Q).
Proof.
  intros r. unfold r, seasonal_rollups. cbn [flow_month quality_month].
  assert (Hsorted : StronglySorted Z.lt
            (map fst (map (fun kg : Z * list FlowReading =>
                             (fst kg, fsum (map consumption (snd kg))))
                          (groupby Z.compare flow_month_of flow)))).
  { rewrite map_map. cbn [fst].
    eapply StronglySorted_map; [|apply (groupby_keys_sorted Z.compare)].
    intros a b Hlt. exact (proj1 (Z.compare_lt_iff _ _) Hlt). }
  assert (Hrows : forall m total,
             In (m, total)
                (map (fun kg : Z * list FlowReading =>
                        (fst kg, fsum (map consumption (snd kg))))
                     (groupby Z.compare flow_month_of flow)) ->
             (1 <= m <= 12)%Z /\
             (exists f, In f flow /\ month_of (timestamp f) = m) /\
             total = fsum (map consumption
                             (filter (fun f => (month_of (timestamp f) =? m)%Z)
                                     flow))).
  { intros m total Hin. apply in_map_iff in Hin as ([k g] & [= <- <-] & Hin).
    cbn [fst snd]. apply groupby_In in Hin as [Hk ->].
    apply (group_keys_In Z.compare flow_month_of cmp_eq_iff) in Hk
      as (f & Hf & Hkf).
    split; [rewrite <- Hkf; apply month_of_day_range|].
    split; [now exists f|].
    f_equal. f_equal. apply filter_ext. intros x.
    exact (same_key_Z flow_month_of k x). }
  split; [exact Hsorted|].
  split; [|split; [|split; [exact Hrows|split; [|split; [|split]]]]].
  - pose proof (sorted_in_range_length _ 1 12 Hsorted) as Hlen.
    rewrite length_map in Hlen.
    assert (Hr : Forall (fun x => (1 <= x <= 12)%Z)
                   (map fst (map (fun kg : Z * list FlowReading =>
                             (fst kg, fsum (map consumption (snd kg))))
                          (groupby Z.compare flow_month_of flow)))).
    { apply Forall_forall. intros m Hm.
      apply in_map_iff in Hm as ([m' total] & <- & Hin).
      now apply Hrows in Hin. }
    specialize (Hlen Hr). lia.
  - intros f Hf. rewrite map_map. cbn [fst]. unfold groupby.
    rewrite map_map. cbn [fst]. rewrite map_id.
    apply (group_keys_In Z.compare flow_month_of cmp_eq_iff).
    now exists f.
  - rewrite map_map. cbn [snd].
    apply (groupby_totals Z.compare flow_month_of consumption).
  - eapply StronglySorted_map; [|apply (groupby_keys_sorted pair_compare)].
    intros [[p1 m1] g1] [[p2 m2] g2] Hlt. exact Hlt.
  - intros x Hx. rewrite map_map. cbn [fst]. apply in_map_iff.
    exists (quality_month_key x,
            filter (same_key pair_compare quality_month_key
                             (quality_month_key x)) quality).
    split; [reflexivity|]. apply groupby_In. split; [|reflexivity].
    apply (group_keys_In pair_compare quality_month_key cmp_eq_iff).
    now exists x.
  - intros p m pct Hin.
    apply in_map_iff in Hin as ([[p' m'] g] & [= <- <- <-] & Hin).
    cbn [fst snd].
    pose proof (groupby_nonempty pair_compare quality_month_key quality
                                 _ _ Hin) as Hne.
    apply groupby_In in Hin as [Hk Hg].
    apply (group_keys_In pair_compare quality_month_key cmp_eq_iff) in Hk
      as (x & Hx & Hkx).
    injection Hkx as <- <-.
    split; [apply month_of_day_range|].
    split; [now exists x|].
    split.
    + rewrite Hg.
      rewrite (filter_ext _ _ (same_key_month (parameter x)
                                 (month_of (q_timestamp x)))).
      reflexivity.
    + assert (Hs : map in_range g <> [])
        by (destruct g; [contradiction | discriminate]).
      destruct (pct_bounds _ Hs) as (q & Hq & H0 & H100 & _).
      now exists q.
Qed.

(** ** The heat map *)

Lemma find_keyed {V : Type} (G : Z * Z -> V) (ks : list (Z * Z)) (d h : Z) :
  find (fun e : (Z * Z) * V => (fst (fst e) =? d)%Z && (snd (fst e) =? h)%Z)
       (map (fun k => (k, G k)) ks) =
  if existsb (fun k => (fst k =? d)%Z && (snd k =? h)%Z) ks
  then Some ((d, h), G (d, h)) else None.
Proof.
  induction ks as [|[d' h'] ks IH]; [reflexivity|].
  cbn [map find existsb fst snd].
  destruct ((d' =? d)%Z && (h' =? h)%Z) eqn:E.
  - apply andb_true_iff in E as [E1 E2].
    apply Z.eqb_eq in E1, E2. subst. reflexivity.
  - cbn [orb]. exact IH.
Qed.

Lemma group_keys_Z_sorted {A : Type} (key : A -> Z) (l : list A) :
  StronglySorted Z.lt (group_keys Z.compare key l).
Proof.
  pose proof (group_keys_sorted Z.compare key l) as H.
  induction H as [|k ks Hs IH Hk]; constructor; [exact IH|].
  eapply Forall_impl; [|exact Hk].
  intros b Hlt. exact (proj1 (Z.compare_lt_iff _ _) Hlt).
Qed.

Lemma heat_cells (flow : list FlowReading) :
  map (fun kg : (Z * Z) * list TimedFlow =>
         (fst kg, fmean (map (fun t => consumption (tf_reading t)) (snd kg))))
      (groupby zz_compare dow_hour (_add_time_parts flow)) =
  map (fun k =>
         (k, fmean (map consumption (filter (in_cell (fst k) (snd k)) flow))))
      (group_keys zz_compare dow_hour (_add_time_parts flow)).
Proof.
  unfold groupby. rewrite map_map. cbn [fst snd].
  apply map_ext. intros [d h]. f_equal. f_equal.
  unfold _add_time_parts. rewrite filter_map_comm, map_map.
  cbn [tf_reading fst snd]. f_equal. apply filter_ext. intros r.
  apply Bool.eq_iff_eq_true.
  rewrite (same_key_eq _ _ cmp_eq_iff). unfold in_cell, dow_hour.
  cbn [tf_dow tf_hour]. rewrite andb_true_iff, !Z.eqb_eq. split.
  - intros [= <- <-]. auto.
  - intros [<- <-]. reflexivity.
Qed.

Lemma heat_keys_In (flow : list FlowReading) (d h : Z) :
  In (d, h) (group_keys zz_compare dow_hour (_add_time_parts flow)) <->
  exists r, In r flow /\ dow_of (timestamp r) = d /\ hour_of (timestamp r) = h.
Proof.
  rewrite (group_keys_In zz_compare dow_hour cmp_eq_iff).
  unfold _add_time_parts. split.
  - intros (t & Ht & Hk). apply in_map_iff in Ht as (r & <- & Hr).
    injection Hk as <- <-. now exists r.
  - intros (r & Hr & <- & <-). eexists. split.
    + apply in_map_iff. exists r. split; [reflexivity | exact Hr].
    + reflexivity.
Qed.

(** X21. [flow_heatmap_hour_dow] returns a rectangular table.  Its rows are the
    days of the week (0..6) on which a reading falls, ascending, at most
    seven; its columns the hours of the day (0..23) in which a reading
    falls, ascending, at most twenty-four.  The cell of a day of the week
    and an hour holds the mean consumption of the readings of that day of
    the week and hour, and is missing when there is none. *)
Theorem flow_heatmap_hour_dow_cells (flow : list FlowReading) :
  let p := flow_heatmap_hour_dow flow in
  StronglySorted Z.lt (pv_index p) /\
  StronglySorted Z.lt (pv_columns p) /\
  (forall d, In d (pv_index p) <->
             exists r, In r flow /\ dow_of (timestamp r) = d) /\
  (forall h, In h (pv_columns p) <->
             exists r, In r flow /\ hour_of (timestamp r) = h) /\
  List.length (pv_index p) <= 7 /\
  List.length (pv_columns p) <= 24 /\
  pv_values p =
    map (fun d =>
           map (fun h =>
                  fmean (map consumption (filter (in_cell d h) flow)))
               (pv_columns p))
        (pv_index p).
Proof.
  intros p. unfold p, flow_heatmap_hour_dow, pivot. cbv zeta.
  cbn [pv_index pv_columns pv_values]. rewrite heat_cells.
  set (keys := group_keys zz_compare dow_hour (_add_time_parts flow)).
  set (cellv := fun k : Z * Z =>
         fmean (map consumption (filter (in_cell (fst k) (snd k)) flow))).
  set (heat := map (fun k => (k, cellv k)) keys).
  set (idx := group_keys Z.compare (fun e : Z * Z * float => fst (fst e)) heat).
  set (cols := group_keys Z.compare (fun e : Z * Z * float => snd (fst e)) heat).
  assert (Hheat : forall e, In e heat <-> exists k, In k keys /\ e = (k, cellv k)).
  { intros e. unfold heat. rewrite in_map_iff. split.
    - intros (k & <- & Hk). now exists k.
    - intros (k & Hk & ->). now exists k. }
  assert (Hidx : forall d, In d idx <->
                           exists r, In r flow /\ dow_of (timestamp r) = d).
  { intros d. unfold idx. rewrite (group_keys_In Z.compare _ cmp_eq_iff).
    split.
    - intros (e & He & <-). apply Hheat in He as ([d' h'] & Hk & ->).
      apply heat_keys_In in Hk as (r & Hr & Hd & _). now exists r.
    - intros (r & Hr & <-).
      exists ((dow_of (timestamp r), hour_of (timestamp r)),
              cellv (dow_of (timestamp r), hour_of (timestamp r))).
      split; [|reflexivity]. apply Hheat. eexists. split; [|reflexivity].
      apply heat_keys_In. now exists r. }
  assert (Hcols : forall h, In h cols <->
                            exists r, In r flow /\ hour_of (timestamp r) = h).
  { intros h. unfold cols. rewrite (group_keys_In Z.compare _ cmp_eq_iff).
    split.
    - intros (e & He & <-). apply Hheat in He as ([d' h'] & Hk & ->).
      apply heat_keys_In in Hk as (r & Hr & _ & Hh). now exists r.
    - intros (r & Hr & <-).
      exists ((dow_of (timestamp r), hour_of (timestamp r)),
              cellv (dow_of (timestamp r), hour_of (timestamp r))).
      split; [|reflexivity]. apply Hheat. eexists. split; [|reflexivity].
      apply heat_keys_In. now exists r. }
  assert (Sidx : StronglySorted Z.lt idx) by apply group_keys_Z_sorted.
  assert (Scols : StronglySorted Z.lt cols) by apply group_keys_Z_sorted.
  split; [exact Sidx|]. split; [exact Scols|].
  split; [exact Hidx|]. split; [exact Hcols|].
  split; [|split].
  - change (List.length idx <= 7).
    pose proof (sorted_in_range_length idx 0 6 Sidx) as Hlen.
    assert (Hr : Forall (fun x => (0 <= x <= 6)%Z) idx).
    { apply Forall_forall. intros d Hd. apply Hidx in Hd as (r & _ & <-).
      pose proof (dow_of_range (timestamp r)). lia. }
    specialize (Hlen Hr). lia.
  - change (List.length cols <= 24).
    pose proof (sorted_in_range_length cols 0 23 Scols) as Hlen.
    assert (Hr : Forall (fun x => (0 <= x <= 23)%Z) cols).
    { apply Forall_forall. intros h Hh. apply Hcols in Hh as (r & _ & <-).
      pose proof (hour_of_range (timestamp r)). lia. }
    specialize (Hlen Hr). lia.
  - apply map_ext. intros d. apply map_ext. intros h.
    unfold heat. rewrite find_keyed.
    destruct (existsb _ keys) eqn:E; [reflexivity|].
    destruct (filter (in_cell d h) flow) as [|r rest] eqn:Ef; [reflexivity|].
    exfalso.
    assert (Hr : In r (filter (in_cell d h) flow)) by (rewrite Ef; now left).
    apply filter_In in Hr as [Hr Hc]. unfold in_cell in Hc.
    apply andb_true_iff in Hc as [Hd Hh]. apply Z.eqb_eq in Hd, Hh.
    assert (Hk : In (d, h) keys) by (apply heat_keys_In; now exists r).
    assert (existsb (fun k : Z * Z => (fst k =? d)%Z && (snd k =? h)%Z) keys
            = true).
    { apply existsb_exists. exists (d, h). split; [exact Hk|].
      cbn [fst snd]. now rewrite !Z.eqb_refl. }
    congruence.
Qed.

(** ** What [PARAM_RE] accepts *)

Section RepetitionFacts.
Context {R : Type}.
Variable p : ascii -> bool.
Variable k : string -> string -> option R.

Lemma greedy_sound (s : string) :
  forall acc r,
    greedy p k acc s = Some r ->
    exists taken rest,
      s = (taken ++ rest)%string /\ all_chars p taken = true /\
      k (acc ++ taken)%string rest = Some r.
Proof.
  induction s as [|c s IH]; intros acc r H.
  - exists EmptyString, EmptyString. rewrite (append_empty_r acc).
    cbn [greedy] in H. repeat split; assumption.
  - assert (Hstop : k acc (String c s) = Some r ->
              exists taken rest,
                String c s = (taken ++ rest)%string /\
                all_chars p taken = true /\
                k (acc ++ taken)%string rest = Some r).
    { intros Hk. exists EmptyString, (String c s).
      rewrite (append_empty_r acc). repeat split; assumption. }
    cbn [greedy] in H. destruct (p c) eqn:Hc; [|auto].
    destruct (greedy p k (snoc acc c) s) as [r'|] eqn:Hg; [|auto].
    injection H as ->.
    apply IH in Hg as (taken & rest & -> & Ht & Hk).
    exists (String c taken), rest. split; [reflexivity|].
    split; [cbn [all_chars]; now rewrite Hc|].
    now rewrite <- append_snoc.
Qed.

Lemma lazy_sound (s : string) :
  forall acc r,
    lazy p k acc s = Some r ->
    exists taken rest,
      s = (taken ++ rest)%string /\ all_chars p taken = true /\
      k (acc ++ taken)%string rest = Some r.
Proof.
  induction s as [|c s IH]; intros acc r H.
  - exists EmptyString, EmptyString. rewrite (append_empty_r acc).
    cbn [lazy] in H. destruct (k acc EmptyString) eqn:Hk; [|discriminate].
    injection H as ->. repeat split; assumption.
  - cbn [lazy] in H. destruct (k acc (String c s)) as [r'|] eqn:Hk.
    + exists EmptyString, (String c s). rewrite (append_empty_r acc).
      injection H as ->. repeat split; assumption.
    + destruct (p c) eqn:Hc; [|discriminate].
      apply IH in H as (taken & rest & -> & Ht & Hk').
      exists (String c taken), rest. split; [reflexivity|].
      split; [cbn [all_chars]; now rewrite Hc|].
      now rewrite <- append_snoc.
Qed.
End RepetitionFacts.

Lemma append_assoc (a b c : string) :
  ((a ++ b) ++ c)%string = (a ++ (b ++ c))%string.
Proof. induction a as [|x a IH]; simpl; [reflexivity | now rewrite IH]. Qed.

(** A successful run cuts the text into one piece per token, each piece
    made of characters of the token's class and as long as the quantifier
    allows, followed by the end of the text; the groups are the pieces of
    the capturing tokens. *)
Lemma re_run_sound (toks : list tok) :
  forall s caps,
    re_run toks s = Some caps ->
    exists pieces tail,
      s = (join_pieces pieces ++ tail)%string /\ at_end tail = true /\
      Forall2 piece_ok toks pieces /\ captured toks pieces = caps.
Proof.
  induction toks as [|t rest IH]; intros s caps H.
  - cbn [re_run] in H. destruct (at_end s) eqn:E; [|discriminate].
    injection H as <-. exists [], s. repeat split; auto.
  - cbn [re_run] in H.
    set (k := fun cap s' : string =>
           match re_run rest s' with
           | Some caps => Some (if tok_group t then cap :: caps else caps)
           | None => None
           end) in H.
    assert (Hk : forall piece s' ,
               k piece s' = Some caps ->
               piece_ok t piece ->
               exists pieces tail,
                 (piece ++ s')%string = (join_pieces pieces ++ tail)%string /\
                 at_end tail = true /\
                 Forall2 piece_ok (t :: rest) pieces /\
                 captured (t :: rest) pieces = caps).
    { intros piece s' Hks Hok. unfold k in Hks.
      destruct (re_run rest s') as [caps'|] eqn:Hr; [|discriminate].
      injection Hks as <-.
      apply IH in Hr as (pieces & tail & -> & Hend & Hall & Hcap).
      exists (piece :: pieces), tail. cbn [join_pieces captured].
      rewrite append_assoc. rewrite Hcap.
      repeat split; auto. }
    destruct (tok_quant t) eqn:Hq.
    + destruct s as [|c s']; [discriminate|].
      destruct (tok_class t c) eqn:Hc; [|discriminate].
      apply (Hk (String c EmptyString) s' H).
      split; [cbn [all_chars]; now rewrite Hc | now rewrite Hq].
    + apply greedy_sound in H as (taken & s' & -> & Ht & Hks).
      apply (Hk taken s' Hks). split; [exact Ht | now rewrite Hq].
    + destruct s as [|c s']; [discriminate|].
      destruct (tok_class t c) eqn:Hc; [|discriminate].
      apply greedy_sound in H as (taken & s'' & -> & Ht & Hks).
      apply (Hk (String c taken) s'' Hks).
      split; [cbn [all_chars]; now rewrite Hc, Ht|].
      rewrite Hq. cbn [String.length]. lia.
    + destruct s as [|c s']; [discriminate|].
      destruct (tok_class t c) eqn:Hc; [|discriminate].
      apply lazy_sound in H as (taken & s'' & -> & Ht & Hks).
      apply (Hk (String c taken) s'' Hks).
      split; [cbn [all_chars]; now rewrite Hc, Ht|].
      rewrite Hq. cbn [String.length]. lia.
Qed.

Lemma lit_char_piece (c : ascii) (p : string) :
  piece_ok (lit_char c) p ->
  exists a, p = String a EmptyString /\ lower_char a = lower_char c.
Proof.
  intros [Hall Hlen]. cbn [lit_char tok_quant tok_class] in *.
  destruct p as [|a [|b p]]; try discriminate.
  exists a. split; [reflexivity|].
  cbn [all_chars] in Hall. apply andb_true_iff in Hall as [Ha _].
  now apply Ascii.eqb_eq in Ha.
Qed.

Lemma lower_char_not_letter (a c : ascii) :
  lower_char a = c ->
  (nat_of_ascii c < 65 \/ 122 < nat_of_ascii c) ->
  a = c.
Proof.
  unfold lower_char. intros H Hc.
  destruct ((65 <=? nat_of_ascii a) && (nat_of_ascii a <=? 90)) eqn:E;
    [|exact H].
  exfalso. apply andb_true_iff in E as [E1 E2].
  apply Nat.leb_le in E1, E2. subst c.
  rewrite nat_ascii_embedding in Hc by lia. lia.
Qed.

Lemma at_end_tail (tail : string) :
  at_end tail = true ->
  tail = EmptyString \/ tail = String "010" EmptyString.
Proof.
  destruct tail as [|c [|d t]]; cbn [at_end]; try discriminate; auto.
  intros H. apply Ascii.eqb_eq in H. subst. auto.
Qed.

Lemma Forall2_cons_l {A B : Type} (R : A -> B -> Prop) (x : A)
      (l : list A) (l' : list B) :
  Forall2 R (x :: l) l' ->
  exists y ys, R x y /\ Forall2 R l ys /\ l' = y :: ys.
Proof. intros H. inversion H; subst. eauto. Qed.

Lemma Forall2_nil_l {A B : Type} (R : A -> B -> Prop) (l' : list B) :
  Forall2 R [] l' -> l' = [].
Proof. intros H. now inversion H. Qed.

(** X22. What [PARAM_RE] accepts.  A text that matches is, from left to right:
    blanks, a number of one or more digits, a dot, blanks, the first group,
    blanks, a comma, blanks, the words [Safe Range:] in any mix of upper
    and lower case, blanks, an opening parenthesis, the second group, a
    closing parenthesis, blanks, and the end of the text or one final line
    feed.  The first group is not empty and holds no line feed; the second
    is not empty and holds no closing parenthesis. *)
Theorem PARAM_RE_match_shape (text g1 g2 : string) :
  PARAM_RE_match text = Some (g1, g2) ->
  exists ws0 num ws1 ws2 ws3 kw ws4 ws5 tail,
    text = (ws0 ++ num ++ "." ++ ws1 ++ g1 ++ ws2 ++ "," ++ ws3 ++ kw ++
            ws4 ++ "(" ++ g2 ++ ")" ++ ws5 ++ tail)%string /\
    Forall (fun ws => all_chars is_space ws = true)
           [ws0; ws1; ws2; ws3; ws4; ws5] /\
    all_chars is_digit num = true /\ num <> EmptyString /\
    lower kw = "safe range:"%string /\
    g1 <> EmptyString /\ all_chars any_char g1 = true /\
    g2 <> EmptyString /\ all_chars not_rparen g2 = true /\
    (tail = EmptyString \/ tail = String "010" EmptyString).
Proof.
  unfold PARAM_RE_match. intros H.
  destruct (re_run PARAM_RE text) as [[|c1 [|c2 [|c3 caps]]]|] eqn:Hrun;
    try discriminate.
  injection H as -> ->.
  apply re_run_sound in Hrun as (pieces & tail & -> & Hend & Hall & Hcap).
  unfold PARAM_RE in Hall, Hcap. cbn [app lit] in Hall, Hcap.
  repeat match goal with
         | H : Forall2 _ (_ :: _) _ |- _ =>
             let p := fresh "p" in
             let ps := fresh "ps" in
             let Hp := fresh "Hp" in
             let Hps := fresh "Hps" in
             apply Forall2_cons_l in H
               as (p & ps & Hp & Hps & ->)
         end.
  match goal with
  | H : Forall2 _ [] _ |- _ => apply Forall2_nil_l in H; subst
  end.
  cbn [captured tok_group ws_star lit_char] in Hcap.
  injection Hcap as <- <-.
  repeat match goal with
         | H : piece_ok (lit_char _) _ |- _ =>
             let a := fresh "a" in
             let Ha := fresh "Ha" in
             apply lit_char_piece in H as (a & -> & Ha)
         end.
  repeat match goal with
         | H : lower_char ?a = lower_char ?c |- _ =>
             let v := eval vm_compute in (lower_char c) in
             change (lower_char c) with v in H
         end.
  repeat match goal with
         | H : piece_ok _ _ |- _ =>
             destruct H as [? ?]
         end.
  cbn [tok_class tok_quant ws_star] in *.
  repeat match goal with
         | H : lower_char ?a = ?c |- _ =>
             first [ apply lower_char_not_letter in H;
                     [subst a | vm_compute; lia]
                   | revert H ]
         end.
  intros.
  match goal with
  | |- context [join_pieces (?w0 :: ?n :: _ :: ?w1 :: ?x1 :: ?w2 :: _ :: ?w3
                              :: String ?k1 _ :: String ?k2 _ :: String ?k3 _
                              :: String ?k4 _ :: String ?k5 _ :: String ?k6 _
                              :: String ?k7 _ :: String ?k8 _ :: String ?k9 _
                              :: String ?k10 _ :: String ?k11 _
                              :: ?w4 :: _ :: ?x2 :: _ :: ?w5 :: nil)] =>
      exists w0, n, w1, w2, w3,
        (String k1 (String k2 (String k3 (String k4 (String k5 (String k6
          (String k7 (String k8 (String k9 (String k10
            (String k11 EmptyString))))))))))),
        w4, w5, tail
  end.
  split.
  { cbn [join_pieces]. rewrite !append_assoc. cbn [append]. reflexivity. }
  split; [repeat constructor; assumption|].
  split; [assumption|].
  split; [intros ->; cbn [String.length] in *; lia|].
  split.
  { cbn [lower].
    repeat match goal with
           | H : lower_char ?a = _ |- context [lower_char ?a] => rewrite H
           end.
    reflexivity. }
  split; [intros ->; cbn [String.length] in *; lia|].
  split; [assumption|].
  split; [intros ->; cbn [String.length] in *; lia|].
  split; [assumption|].
  now apply at_end_tail.
Qed.

Lemma PARAM_RE_match_shape_witness :
  exists ws0 num ws1 ws2 ws3 kw ws4 ws5 tail,
    "1. TDS (TDS), Safe Range: (0 to 500)"%string =
      (ws0 ++ num ++ "." ++ ws1 ++ "TDS (TDS)" ++ ws2 ++ "," ++ ws3 ++ kw ++
       ws4 ++ "(" ++ "0 to 500" ++ ")" ++ ws5 ++ tail)%string /\
    lower kw = "safe range:"%string.
Proof.
  destruct (PARAM_RE_match_shape "1. TDS (TDS), Safe Range: (0 to 500)"
                                 "TDS (TDS)" "0 to 500")
    as (ws0 & num & ws1 & ws2 & ws3 & kw & ws4 & ws5 & tail & H & _ & _ & _
        & Hkw & _).
  - vm_compute. reflexivity.
  - exists ws0, num, ws1, ws2, ws3, kw, ws4, ws5, tail. split; assumption.
Defined.

(** ** Days of the joined table *)

Lemma filter_key_at_most_one {V : Type} (hd : list (Z * V)) (d : Z) :
  NoDup (map fst hd) ->
  List.length (filter (fun h => (fst h =? d)%Z) hd) <= 1.
Proof.
  induction hd as [|[k v] hd IH]; intros Hnd; [simpl; lia|].
  cbn [map fst] in Hnd. apply NoDup_cons_iff in Hnd as [Hk Hnd].
  cbn [filter fst]. destruct (Z.eqb_spec k d) as [->|Hne]; [|auto].
  assert (Hnone : filter (fun h : Z * V => (fst h =? d)%Z) hd = []).
  { destruct (filter _ hd) as [|x xs] eqn:E; [reflexivity|]. exfalso.
    assert (Hx : In x (filter (fun h : Z * V => (fst h =? d)%Z) hd))
      by (rewrite E; now left).
    apply filter_In in Hx as [Hx Hd]. apply Z.eqb_eq in Hd.
    apply Hk. rewrite <- Hd. now apply in_map. }
  rewrite Hnone. simpl. lia.
Qed.

Lemma merge_inner_sorted (fd : list DailyRow) (hd : list (Z * float)) :
  StronglySorted Z.lt (map d_date fd) ->
  NoDup (map fst hd) ->
  StronglySorted Z.lt (map j_date (merge_inner fd hd)).
Proof.
  intros Hs Hnd. induction fd as [|d fd IH]; [constructor|].
  cbn [map] in Hs. apply StronglySorted_inv in Hs as [Hs Hd].
  specialize (IH Hs). unfold merge_inner in *. cbn [flat_map].
  rewrite map_app, map_map. cbn [j_date].
  pose proof (filter_key_at_most_one hd (d_date d) Hnd) as Hone.
  destruct (filter (fun h : Z * float => (fst h =? d_date d)%Z) hd)
    as [|x [|y l]]; cbn [map app]; [exact IH | | simpl in Hone; lia].
  constructor; [exact IH|].
  apply Forall_forall. intros k Hk.
  apply in_map_iff in Hk as (row & <- & Hrow).
  apply in_flat_map in Hrow as (d' & Hd' & Hrow).
  apply in_map_iff in Hrow as (h & <- & _). cbn [j_date].
  rewrite Forall_forall in Hd. apply Hd. now apply in_map.
Qed.

(** The joined table lists its days in strictly ascending order. *)
Lemma joined_days_ascending
      (series_corr : list float -> list float -> float)
      (flow : list FlowReading) (quality : list QualityReading)
      (name : string) :
  StronglySorted Z.lt
    (map j_date
         (rows (fst (humidity_vs_flow_daily series_corr flow quality name)))).
Proof.
  rewrite (proj1 (res_rows series_corr flow quality name)).
  apply merge_inner_sorted.
  - rewrite flow_daily_groups, map_map. cbn [d_date].
    unfold groupby. rewrite map_map. cbn [fst]. rewrite map_id.
    apply group_keys_Z_sorted.
  - rewrite map_map. cbn [fst]. unfold groupby.
    rewrite map_map. cbn [fst]. rewrite map_id.
    apply group_keys_NoDup. exact _.
Qed.

(** X23. The table [humidity_vs_flow_daily] returns lists its days in strictly
    ascending order: no day occurs twice, and the table has no more rows
    than there are days with flow readings. *)
Theorem humidity_vs_flow_daily_days_ascending
        (series_corr : list float -> list float -> float)
        (flow : list FlowReading) (quality : list QualityReading)
        (name : string) :
  let merged :=
    rows (fst (humidity_vs_flow_daily series_corr flow quality name)) in
  StronglySorted Z.lt (map j_date merged) /\
  List.length merged <= List.length (flow_daily flow).
Proof.
  intros merged. unfold merged. split; [apply joined_days_ascending|].
  rewrite (proj1 (res_rows series_corr flow quality name)).
  set (hd := map _ (groupby Z.compare quality_date _)).
  assert (Hnd : NoDup (map fst hd)).
  { unfold hd. rewrite map_map. cbn [fst]. unfold groupby.
    rewrite map_map. cbn [fst]. rewrite map_id.
    apply group_keys_NoDup. exact _. }
  generalize (flow_daily flow). intros fd.
  induction fd as [|d fd IH]; [simpl; lia|].
  unfold merge_inner in *. cbn [flat_map].
  rewrite length_app, length_map.
  pose proof (filter_key_at_most_one hd (d_date d) Hnd).
  cbn [List.length]. lia.
Qed.

(** On a flow frame whose time stamps are a datetime column, and a quality
    frame that has such a column or no row, the function returns what it
    computes from the rows. *)
Lemma humidity_vs_flow_daily_typed
      (series_corr : list float -> list float -> float)
      (flow : Frame FlowReading) (quality : Frame QualityReading)
      (name : string) :
  OnFrame.dt flow = Ok tt ->
  (rows quality <> [] -> OnFrame.dt quality = Ok tt) ->
  OnFrame.humidity_vs_flow_daily series_corr flow quality name =
  Ok (humidity_vs_flow_daily series_corr (rows flow) (rows quality) name).
Proof.
  intros Hf Hq.
  unfold OnFrame.humidity_vs_flow_daily, OnFrame.flow_daily,
    OnFrame._add_time_parts.
  rewrite Hf.
  destruct (filter _ (rows quality)) as [|x l] eqn:E.
  - unfold humidity_vs_flow_daily. now rewrite E.
  - rewrite Hq; [reflexivity|].
    intros Hnil. rewrite Hnil in E. discriminate.
Qed.

(** C4, amended.  Let the time stamps of the flow frame be a datetime
    column, and those of the quality frame too unless it has no row.  Then
    [humidity_vs_flow_daily] returns, without raising.  When no reading
    carries the named parameter the result is the empty joined table and a
    null correlation.  Otherwise the table returned is the inner join
    itself: one row per day that has both flow readings and readings of the
    parameter, days ascending, holding the day's total consumption and the
    day's mean of the parameter; it is empty only when no day joins.  The
    correlation is null when fewer than two days join or every joined mean
    is missing, and is the Pearson coefficient of the two joined columns in
    every other case. *)
Theorem humidity_vs_flow_daily_result
        (series_corr : list float -> list float -> float)
        (flow : Frame FlowReading) (quality : Frame QualityReading)
        (name : string) :
  OnFrame.dt flow = Ok tt ->
  (rows quality <> [] -> OnFrame.dt quality = Ok tt) ->
  exists table corr,
    OnFrame.humidity_vs_flow_daily series_corr flow quality name
      = Ok (table, corr) /\
    columns table = joined_columns /\
    ((forall r, In r (rows quality) -> parameter r <> name) ->
     table = no_data joined_columns /\ corr = None) /\
    StronglySorted Z.lt (map j_date (rows table)) /\
    (forall d,
        In d (map j_date (rows table)) <->
        (exists f, In f (rows flow) /\ flow_date f = d) /\
        (exists r, In r (rows quality) /\ parameter r = name /\
                   quality_date r = d)) /\
    (forall row,
        In row (rows table) ->
        j_total_consumption row =
          fsum (map consumption
                    (filter (fun f => (flow_date f =? j_date row)%Z)
                            (rows flow))) /\
        humidity row =
          fmean (map value
                     (filter (fun r => (quality_date r =? j_date row)%Z)
                             (filter (fun r => String.eqb (parameter r) name)
                                     (rows quality))))) /\
    (List.length (rows table) < 2 -> corr = None) /\
    (existsb notna (map humidity (rows table)) = false -> corr = None) /\
    (2 <= List.length (rows table) ->
     existsb notna (map humidity (rows table)) = true ->
     corr = Some (series_corr (map j_total_consumption (rows table))
                              (map humidity (rows table)))).
Proof.
  intros Hf Hq.
  rewrite (humidity_vs_flow_daily_typed series_corr flow quality name Hf Hq).
  pose proof (humidity_vs_flow_daily_rows series_corr (rows flow)
                (rows quality) name) as H.
  pose proof (joined_days_ascending series_corr (rows flow) (rows quality)
                name) as Hs.
  cbv zeta in H.
  destruct (humidity_vs_flow_daily series_corr (rows flow) (rows quality) name)
    as [table corr].
  cbn [fst snd] in *.
  destruct H as (Hc & Habs & Hd & Hrow & H1 & H2 & H3).
  exists table, corr. split; [reflexivity|]. split; [exact Hc|].
  split; [intros Hn; specialize (Habs Hn); now injection Habs|].
  split; [exact Hs|]. split; [exact Hd|]. split; [exact Hrow|].
  split; [exact H1|]. split; [exact H2 | exact H3].
Qed.

Lemma humidity_vs_flow_daily_result_witness :
  exists table,
    OnFrame.humidity_vs_flow_daily pearson_exact
      (mkFrame flow_columns [] flow_three_days)
      (mkFrame quality_columns [] humidity_three_days) humidity_name
    = Ok (table, Some (Fin 1)) /\
    map j_date (rows table) = [19723; 19724; 19725]%Z.
Proof.
  destruct (humidity_vs_flow_daily_result pearson_exact
              (mkFrame flow_columns [] flow_three_days)
              (mkFrame quality_columns [] humidity_three_days) humidity_name)
    as (table & corr & Hok & _ & _ & _ & _ & _ & _ & _ & H);
    [reflexivity | reflexivity |].
  vm_compute in Hok. injection Hok as <- <-.
  eexists. split; reflexivity.
Defined.

(** ** The flow parser: columns beyond the third *)

Lemma cell_firstn (r : list string) (j : nat) :
  j < 3 -> cell (firstn 3 r) j = cell r j.
Proof.
  intros Hj. unfold cell. rewrite nth_firstn.
  destruct (Nat.ltb_spec j 3); [reflexivity | lia].
Qed.

Lemma is_header_firstn (r : list string) :
  is_header (firstn 3 r) = is_header r.
Proof. unfold is_header. now rewrite !cell_firstn by lia. Qed.

Lemma has_all_fields_firstn (r : list string) :
  has_all_fields (firstn 3 r) = has_all_fields r.
Proof. unfold has_all_fields. now rewrite !cell_firstn by lia. Qed.

Lemma header_positions_firstn (rs : list (list string)) :
  forall i,
    header_positions i (map (firstn 3) rs) = header_positions i rs.
Proof.
  induction rs as [|r rs IH]; intros i; [reflexivity|].
  cbn [map header_positions]. now rewrite is_header_firstn, !IH.
Qed.

Lemma slice_map {A B : Type} (f : A -> B) (a b : nat) (l : list A) :
  slice a b (map f l) = map f (slice a b l).
Proof. unfold slice. now rewrite skipn_map, firstn_map. Qed.

Lemma parse_block_firstn
      (to_datetime_series : list string -> list (option Z))
      (to_numeric : string -> float) (blk : list (list string)) :
  parse_block to_datetime_series to_numeric (map (firstn 3) blk) =
  parse_block to_datetime_series to_numeric blk.
Proof.
  unfold parse_block. rewrite filter_map_comm.
  erewrite (filter_ext _ has_all_fields) by apply has_all_fields_firstn.
  rewrite !map_map.
  erewrite (map_ext (fun r => (strip (cell (firstn 3 r) 0) ++ " " ++
                               strip (cell (firstn 3 r) 1))%string))
    by (intros r; now rewrite !cell_firstn by lia).
  erewrite (map_ext (fun r => to_numeric (remove_commas (cell (firstn 3 r) 2))))
    by (intros r; now rewrite cell_firstn by lia).
  reflexivity.
Qed.

Lemma block_dtype_firstn (to_numeric_dtype : list string -> dtype)
      (blk : list (list string)) :
  block_dtype to_numeric_dtype (map (firstn 3) blk) =
  block_dtype to_numeric_dtype blk.
Proof.
  unfold block_dtype. rewrite filter_map_comm.
  erewrite (filter_ext _ has_all_fields) by apply has_all_fields_firstn.
  rewrite map_map. f_equal. apply map_ext.
  intros r. now rewrite cell_firstn by lia.
Qed.

Lemma collect_blocks_firstn
      (to_datetime_series : list string -> list (option Z))
      (to_numeric : string -> float)
      (to_numeric_dtype : list string -> dtype) (rs : list (list string))
      (idxs : list nat) :
  collect_blocks to_datetime_series to_numeric to_numeric_dtype idxs
                 (map (firstn 3) rs) =
  collect_blocks to_datetime_series to_numeric to_numeric_dtype idxs rs.
Proof.
  induction idxs as [|a tl IH]; [reflexivity|].
  destruct tl as [|b tl']; [reflexivity|].
  cbn [collect_blocks] in *. destruct (b <=? S a); [exact IH|].
  now rewrite IH, slice_map, parse_block_firstn, block_dtype_firstn.
Qed.

(** X24. [load_flow_csv] reads the first three columns only: on a table of at
    least three columns, dropping all further cells of every row changes
    nothing. *)
Theorem load_flow_csv_reads_three_columns
        (to_datetime_series : list string -> list (option Z))
        (to_numeric : string -> float)
        (to_numeric_dtype : list string -> dtype)
        (concat_dtype : list (dtype * list (Z * float)) -> dtype)
        (n : nat) (rs : list (list string)) :
  3 <= n ->
  load_flow_csv to_datetime_series to_numeric to_numeric_dtype concat_dtype
    (mkRaw n rs) =
  load_flow_csv to_datetime_series to_numeric to_numeric_dtype concat_dtype
    (mkRaw 3 (map (firstn 3) rs)).
Proof.
  intros Hn. unfold load_flow_csv, header_idxs. cbn [ncols raw_rows].
  destruct (Nat.ltb_spec n 3); [lia|]. cbn [Nat.ltb Nat.leb].
  now rewrite header_positions_firstn, length_map, collect_blocks_firstn.
Qed.

Lemma load_flow_csv_reads_three_columns_witness :
  demo_load_flow_csv
    (mkRaw 4 (map (fun r => r ++ ["note"%string])
                  (raw_rows sample_flow_table))) =
  demo_load_flow_csv
    (mkRaw 3 (map (firstn 3)
                  (map (fun r => r ++ ["note"%string])
                       (raw_rows sample_flow_table)))).
Proof.
  apply (load_flow_csv_reads_three_columns (map dmy_to_datetime)
           decimal_to_numeric decimal_dtype same_dtype 4). lia.
Defined.
